(** * Chatbot-Brainstorming: a shallow embedding of [app.py]

    The orchestration engine of [app.py] is embedded function by function:
    [send_to_chatbot], [get_responses_from_chatbots], [evaluate_response],
    [evaluate_responses], [generate_clarification_question],
    [interact_between_bots] and [select_best_response].

    Modelling choices.
    - A Python [str] is a list of code points ([N]); slicing and regular
      expressions of the source work on code points.
    - A Python [dict] is an insertion-ordered association list with unique
      keys: [min], [max] and the loops of the source iterate in that order.
    - A coroutine is a function from the state of the transport to a
      result (a value or a raised exception) and the next state. The
      transport itself (aiohttp and the remote backends) is a parameter.
    - A Python [float] is the rational number it denotes. [int / int] is
      the quotient rounded to the nearest binary64 value, the even one of
      two at equal distance, and OverflowError beyond the range of the
      format; floats are compared as the numbers they denote.
    - The tasks of one [asyncio.gather] are run one after the other; the
      order in which their requests reach the network is not fixed by the
      source, and no statement below depends on it.
    - The diagnostic [print] calls are not modelled. *)

From Stdlib Require Import List ZArith QArith Qround Qabs Qpower.
From Stdlib Require Import Lia Lqa Bool Ascii String Permutation.
Import ListNotations.

Set Implicit Arguments.
Set Default Proof Using "Type".
Close Scope Q_scope.

(** ** Python strings *)

Definition char := N.
Definition str := list char.

(** A literal of the source, as a list of code points. *)
Definition lit (s : string) : str :=
  map N_of_ascii (list_ascii_of_string s).

Definition char_eqb (a b : N) : bool := N.eqb a b.

(** ** The exceptions the program can meet *)

Inductive exn : Type :=
| ClientError        (* aiohttp.ClientError and its subclasses: connection
                        errors, ClientResponseError of raise_for_status,
                        ContentTypeError of response.json *)
| JSONDecodeError    (* json.JSONDecodeError, a subclass of ValueError *)
| TimeoutError       (* asyncio.TimeoutError *)
| ValueError
| AttributeError
| KeyError
| IndexError
| TypeError
| ZeroDivisionError
| OverflowError.

(** [isinstance(e, aiohttp.ClientError)] *)
Definition is_ClientError (e : exn) : bool :=
  match e with ClientError => true | _ => false end.

(** [isinstance(e, ValueError)] *)
Definition is_ValueError (e : exn) : bool :=
  match e with ValueError | JSONDecodeError => true | _ => false end.

(** [isinstance(e, AttributeError)] *)
Definition is_AttributeError (e : exn) : bool :=
  match e with AttributeError => true | _ => false end.

(** The outcome of running a piece of Python code. *)
Inductive result (A : Type) : Type :=
| Returned (a : A)
| Raised (e : exn).

Arguments Returned {A} a.
Arguments Raised {A} e.

Definition rbind {A B} (r : result A) (k : A -> result B) : result B :=
  match r with
  | Returned a => k a
  | Raised e => Raised e
  end.

(** ** Regular expressions

    The two patterns of the source, [\b[1-5]\b] and [([^.!?]*\?)], are
    sequences of three kinds of items: the word boundary, one character of
    a class, and the greedy repetition of a class. *)

Inductive re_item : Type :=
| WordBoundary                       (* \b *)
| OneOf (p : char -> bool)           (* [...] *)
| StarOf (p : char -> bool).         (* [...]* , greedy *)

Definition regex := list re_item.

Section UnicodeTables.

(** [str.isalnum] on the code points from 128 on: a table of the Unicode
    database, taken as a parameter. *)
Variable unicode_isalnum : char -> bool.

Definition in_range (lo hi : N) (c : char) : bool :=
  (N.leb lo c && N.leb c hi)%bool.

(** [\w] of a str pattern: alphanumeric or underscore. *)
Definition is_word (c : char) : bool :=
  if N.ltb c 128%N then
    (in_range 48 57 c || in_range 65 90 c || in_range 97 122 c
     || char_eqb c 95)%bool
  else unicode_isalnum c.

Definition is_word_opt (o : option char) : bool :=
  match o with Some c => is_word c | None => false end.

(** [\b] holds between [prev] and [next] when exactly one side is a word
    character; the two ends of the string count as non-word. *)
Definition at_boundary (prev next : option char) : bool :=
  xorb (is_word_opt prev) (is_word_opt next).

(** Greedy repetition followed by the rest of the pattern [k]: consume
    one more character when possible, and give it back when the rest
    fails. The result is the length of the match. *)
Fixpoint match_star (p : char -> bool)
    (k : option char -> str -> option nat)
    (prev : option char) (s : str) : option nat :=
  match s with
  | c :: s' =>
      if p c then
        match match_star p k (Some c) s' with
        | Some n => Some (S n)
        | None => k prev s
        end
      else k prev s
  | [] => k prev s
  end.

(** Match the pattern at the front of [s]; [prev] is the character
    before it. *)
Fixpoint match_here (r : regex) (prev : option char) (s : str)
    : option nat :=
  match r with
  | [] => Some O
  | WordBoundary :: r' =>
      if at_boundary prev (hd_error s) then match_here r' prev s
      else None
  | OneOf p :: r' =>
      match s with
      | c :: s' =>
          if p c then option_map S (match_here r' (Some c) s')
          else None
      | [] => None
      end
  | StarOf p :: r' => match_star p (match_here r') prev s
  end.

(** [re.search(r, s)]: the leftmost match, as [(start, text)];
    [None] is Python's [None]. *)
Fixpoint search_from (r : regex) (prev : option char) (s : str)
    (start : nat) : option (nat * str) :=
  match match_here r prev s with
  | Some n => Some (start, firstn n s)
  | None =>
      match s with
      | [] => None
      | c :: s' => search_from r (Some c) s' (S start)
      end
  end.

Definition re_search (r : regex) (s : str) : option (nat * str) :=
  search_from r None s O.

(** [re.findall(r, s)] for a pattern with one group around the whole:
    the matches from left to right, without overlap. [skip] counts the
    characters of the last match still to step over. (No pattern of the
    source matches the empty string.) *)
Fixpoint findall_from (r : regex) (prev : option char) (s : str)
    (skip : nat) : list str :=
  match skip with
  | S k =>
      match s with
      | c :: s' => findall_from r (Some c) s' k
      | [] => []
      end
  | O =>
      match match_here r prev s with
      | Some n =>
          firstn n s ::
            match s with
            | c :: s' => findall_from r (Some c) s' (pred n)
            | [] => []
            end
      | None =>
          match s with
          | c :: s' => findall_from r (Some c) s' O
          | [] => []
          end
      end
  end.

Definition re_findall (r : regex) (s : str) : list str :=
  findall_from r None s O.

End UnicodeTables.

(** [r'\b[1-5]\b'] *)
Definition is_digit_1_5 (c : char) : bool := in_range 49 53 c.
Definition SCORE_PATTERN : regex :=
  [WordBoundary; OneOf is_digit_1_5; WordBoundary].

(** [r"([^.!?]*\?)"] *)
Definition is_dot (c : char) : bool := char_eqb c 46.
Definition is_bang (c : char) : bool := char_eqb c 33.
Definition is_qmark (c : char) : bool := char_eqb c 63.
Definition not_terminator (c : char) : bool :=
  negb (is_dot c || is_bang c || is_qmark c).
Definition QUESTION_PATTERN : regex :=
  [StarOf not_terminator; OneOf is_qmark].

(** [str.isspace] on one code point. *)
Definition is_space (c : char) : bool :=
  (in_range 9 13 c || in_range 28 32 c || char_eqb c 133 || char_eqb c 160
   || char_eqb c 5760 || in_range 8192 8202 c || char_eqb c 8232
   || char_eqb c 8233 || char_eqb c 8239 || char_eqb c 8287
   || char_eqb c 12288)%bool.

Fixpoint lstrip (s : str) : str :=
  match s with
  | c :: s' => if is_space c then lstrip s' else s
  | [] => []
  end.

(** [s.strip()] *)
Definition strip (s : str) : str := rev (lstrip (rev (lstrip s))).

(** [int(d)] for a one-character string. *)
Definition int_of_digit (c : char) : Z := Z.of_N c - 48.

(** ** Python dictionaries

    Keys are bot names. A dictionary keeps its keys in insertion order and
    holds each key once ([dict_wf]). *)

Definition BotId := string.

Definition dict (V : Type) := list (BotId * V).

Definition dict_keys {V} (d : dict V) : list BotId := map fst d.
Definition dict_values {V} (d : dict V) : list V := map snd d.
Definition dict_wf {V} (d : dict V) : Prop := NoDup (dict_keys d).

(** [d.get(k)] *)
Fixpoint dict_get {V} (d : dict V) (k : BotId) : option V :=
  match d with
  | [] => None
  | (k', v) :: d' => if String.eqb k k' then Some v else dict_get d' k
  end.

(** [d[k]] *)
Definition dict_getitem {V} (d : dict V) (k : BotId) : result V :=
  match dict_get d k with
  | Some v => Returned v
  | None => Raised KeyError
  end.

(** [d[k] = v]: in place when the key is there, at the end otherwise. *)
Fixpoint dict_set {V} (d : dict V) (k : BotId) (v : V) : dict V :=
  match d with
  | [] => [(k, v)]
  | (k', v') :: d' =>
      if String.eqb k k' then (k', v) :: d'
      else (k', v') :: dict_set d' k v
  end.

(** Python's [min(xs, key=key)] and [max(xs, key=key)]: the first element
    is the candidate, and a later one replaces it only when its key is
    strictly smaller (resp. greater); an empty argument raises
    ValueError. *)
Section MinMax.
Variables (A B : Type) (key : A -> B) (lt : B -> B -> bool).

Fixpoint min_loop (best : A) (xs : list A) : A :=
  match xs with
  | [] => best
  | x :: xs' => min_loop (if lt (key x) (key best) then x else best) xs'
  end.

Definition py_min (xs : list A) : result A :=
  match xs with
  | [] => Raised ValueError
  | x :: xs' => Returned (min_loop x xs')
  end.

Fixpoint max_loop (best : A) (xs : list A) : A :=
  match xs with
  | [] => best
  | x :: xs' => max_loop (if lt (key best) (key x) then x else best) xs'
  end.

Definition py_max (xs : list A) : result A :=
  match xs with
  | [] => Raised ValueError
  | x :: xs' => Returned (max_loop x xs')
  end.
End MinMax.

(** ** JSON values and the objects the coroutines return *)

#[warnings="-register-all"]
Inductive json : Type :=
| JNull
| JBool (b : bool)
| JInt (z : Z)
| JFloat (digits : string)
| JStr (s : str)
| JArr (l : list json)
| JObj (o : list (str * json)).

Definition str_eq_dec : forall a b : str, {a = b} + {a <> b} :=
  list_eq_dec N.eq_dec.

Fixpoint obj_get (o : list (str * json)) (k : str) : option json :=
  match o with
  | [] => None
  | (k', v) :: o' => if str_eq_dec k k' then Some v else obj_get o' k
  end.

(** [j[k]] for a str key [k] *)
Definition getitem_key (j : json) (k : str) : result json :=
  match j with
  | JObj o =>
      match obj_get o k with
      | Some v => Returned v
      | None => Raised KeyError
      end
  | _ => Raised TypeError
  end.

(** [j[0]] *)
Definition getitem_0 (j : json) : result json :=
  match j with
  | JArr (x :: _) => Returned x
  | JArr [] => Raised IndexError
  | JStr (c :: _) => Returned (JStr [c])
  | JStr [] => Raised IndexError
  | JObj _ => Raised KeyError
  | _ => Raised TypeError
  end.

(** What a slot of [responses] holds: a decoded JSON body, or the
    exception instance that [asyncio.gather(..., return_exceptions=True)]
    put there. *)
Inductive pyval : Type :=
| Val (j : json)
| Exc (e : exn).

(** [isinstance(v, Exception)] *)
Definition is_exception (v : pyval) : bool :=
  match v with Exc _ => true | Val _ => false end.

(** [v['choices'][0]['text']] *)
Definition json_text (j : json) : result json :=
  rbind (getitem_key j (lit "choices")) (fun cs =>
  rbind (getitem_0 cs) (fun c0 =>
  getitem_key c0 (lit "text"))).

Definition choices_0_text (v : pyval) : result json :=
  match v with
  | Val j => json_text j
  | Exc _ => Raised TypeError
  end.

(** [{"choices": [{"text": t}]}] *)
Definition answer (t : str) : json :=
  JObj [(lit "choices", JArr [JObj [(lit "text", JStr t)]])].

(** The value [send_to_chatbot] returns from its handler. *)
Definition SENTINEL : json := answer (lit "Error processing request.").

(** ** [generate_clarification_question] and [select_best_response] *)

Section Pure.

Variable unicode_isalnum : char -> bool.

Definition generate_clarification_question (response : pyval)
    : result str :=
  rbind (choices_0_text response) (fun response_text =>
  match response_text with
  | JStr text =>
      let questions := re_findall unicode_isalnum QUESTION_PATTERN text in
      match questions with
      | q0 :: _ =>
          Returned (lit "Can you clarify the following: " ++ q0)
      | [] =>
          Returned (lit "Can you provide more details about: "
                    ++ firstn 100 text)
      end
  | _ => Raised TypeError
  end).

End Pure.

Definition sum_Z (l : list Z) : Z := fold_left Z.add l 0%Z.

(** *** Floats

    A float is the rational number it denotes. The binary64 format has 53
    significant bits, its least positive value is [2 ^ -1074], and its
    finite values are below [2 ^ 1024]. *)

Definition pow2 (e : Z) : Q := Qpower 2 e.

(** The integer part of the binary logarithm of [a / b]. *)
Definition log2_ratio (a b : positive) : Z :=
  let d := (Z.log2 (Z.pos a) - Z.log2 (Z.pos b))%Z in
  if Qle_bool (pow2 d) (Z.pos a # b) then d else (d - 1)%Z.

(** The integer nearest to [x]; of two at equal distance, the even one. *)
Definition round_half_even (x : Q) : Z :=
  let f := Qfloor x in
  match Qcompare (x - inject_Z f) (1 # 2) with
  | Lt => f
  | Gt => (f + 1)%Z
  | Eq => if Z.even f then f else (f + 1)%Z
  end.

(** The multiple of the unit in the last place nearest to [x]: the unit
    is [2 ^ (e - 52)] for [x] of magnitude in [2 ^ e, 2 ^ (e + 1)), and
    [2 ^ -1074] below the normal range. *)
Definition nearest_double (x : Q) : Q :=
  let x' := Qred x in
  match Qnum x' with
  | Z0 => 0%Q
  | Zpos a | Zneg a =>
      let e := Z.max (log2_ratio a (Qden x') - 52) (-1074) in
      (inject_Z (round_half_even (x' / pow2 e)) * pow2 e)%Q
  end.

(** [a / n] for an int [a] and a length [n]: ZeroDivisionError for
    [n = 0], else the correctly rounded quotient, OverflowError when it
    is too large for a float. *)
Definition true_div (a : Z) (n : nat) : result Q :=
  match n with
  | O => Raised ZeroDivisionError
  | S _ =>
      let x := nearest_double (a # Pos.of_nat n) in
      if Qle_bool (pow2 1024) (Qabs x) then Raised OverflowError
      else Returned x
  end.

Definition Qlt_bool (a b : Q) : bool := negb (Qle_bool b a).

Definition ScoreTable := dict (dict Z).

(** [{bot: sum(score.values()) / len(score) for bot, score in items}],
    the entries stored one after the other into [acc]. *)
Fixpoint avg_scores_loop (items : list (BotId * dict Z)) (acc : dict Q)
    : result (dict Q) :=
  match items with
  | [] => Returned acc
  | (bot, score) :: rest =>
      rbind (true_div (sum_Z (dict_values score)) (List.length score))
        (fun avg => avg_scores_loop rest (dict_set acc bot avg))
  end.

(** [avg_scores.get], for the keys of [avg_scores] itself. *)
Definition get_avg (avg_scores : dict Q) (bot : BotId) : Q :=
  match dict_get avg_scores bot with
  | Some q => q
  | None => 0%Q
  end.

Definition select_best_response (clarifications : dict pyval)
    (scores : ScoreTable) : result pyval :=
  rbind (avg_scores_loop scores []) (fun avg_scores =>
  rbind (py_max (get_avg avg_scores) Qlt_bool (dict_keys avg_scores))
    (fun best_bot =>
  dict_getitem clarifications best_bot)).

(** ** The coroutines

    [config.py] is not part of the sources: [CHATBOT_APIS] and [API_KEYS]
    are parameters. So are the transport and the way an f-string prints a
    value that is not a str. *)

Record request : Type := {
  req_url : str;
  req_authorization : str;
  req_prompt : str;
  req_max_tokens : Z
}.

Section Coroutines.

Variable unicode_isalnum : char -> bool.

(** [str(v)] for a JSON value that is not a str. *)
Variable py_str : json -> str.

Variable CHATBOT_APIS : dict str.
Variable API_KEYS : dict str.

(** The state of the network and of the backends. [transport w rq] is the
    outcome of
    [async with session.post(...) as response:
         response.raise_for_status(); await response.json()]
    in state [w]: the decoded body or the exception raised by one of
    the three calls, and the next state. *)
Variable World : Type.
Variable transport : World -> request -> result json * World.

Definition M (A : Type) : Type := World -> result A * World.

Definition ret {A} (a : A) : M A := fun w => (Returned a, w).

Definition bind {A B} (m : M A) (k : A -> M B) : M B :=
  fun w =>
    match m w with
    | (Returned a, w') => k a w'
    | (Raised e, w') => (Raised e, w')
    end.

Definition lift {A} (r : result A) : M A := fun w => (r, w).

(** [try: m  except (caught classes): handler] *)
Definition try_except {A} (m : M A) (caught : exn -> bool)
    (handler : M A) : M A :=
  fun w =>
    match m w with
    | (Returned a, w') => (Returned a, w')
    | (Raised e, w') => if caught e then handler w' else (Raised e, w')
    end.

Local Notation "x <- m ;; k" := (bind m (fun x => k))
  (at level 61, m at next level, right associativity).

Definition session_post (rq : request) : M json :=
  fun w => transport w rq.

Definition bearer (api_key : str) : str := lit "Bearer " ++ api_key.

Definition send_to_chatbot (chatbot : BotId) (url question : str)
    : M json :=
  api_key <- lift (dict_getitem API_KEYS chatbot) ;;
  try_except
    (session_post {| req_url := url;
                     req_authorization := bearer api_key;
                     req_prompt := question;
                     req_max_tokens := 150 |})
    is_ClientError
    (ret SENTINEL).

(** What [asyncio.gather] stores for a finished task when
    [return_exceptions=True]: its value, or the exception it raised. *)
Definition slot_of (r : result json) : pyval :=
  match r with
  | Returned j => Val j
  | Raised e => Exc e
  end.

(** [await asyncio.gather] of the tasks, with [return_exceptions=True].
    The tasks are run here one after the other, in the order of their
    creation. asyncio interleaves them at their suspension points, and the
    order in which their requests reach the transport is not fixed: what
    is stated of a gathered round holds for every such order (the slot of
    each task, the requests as a collection), and nothing is stated of
    the order itself. *)
Fixpoint gather (tasks : list (M json)) : M (list pyval) :=
  match tasks with
  | [] => ret []
  | t :: tasks' =>
      fun w =>
        let (r, w') := t w in
        match gather tasks' w' with
        | (Returned vs, w'') => (Returned (slot_of r :: vs), w'')
        | (Raised e, w'') => (Raised e, w'')
        end
  end.

(** [{k: v for k, v in pairs}], stored one after the other into [acc]. *)
Fixpoint dict_of_pairs {V} (pairs : list (BotId * V)) (acc : dict V)
    : dict V :=
  match pairs with
  | [] => acc
  | (k, v) :: rest => dict_of_pairs rest (dict_set acc k v)
  end.

Definition get_responses_from_chatbots (question : str)
    : M (dict pyval) :=
  let tasks :=
    map (fun '(chatbot, url) => send_to_chatbot chatbot url question)
        CHATBOT_APIS in
  responses <- gather tasks ;;
  ret (dict_of_pairs (combine (dict_keys CHATBOT_APIS) responses) []).

(** [f"{v}"] *)
Definition format_value (v : json) : str :=
  match v with
  | JStr s => s
  | _ => py_str v
  end.

(** [v.strip()] *)
Definition py_strip (v : json) : result str :=
  match v with
  | JStr s => Returned (strip s)
  | _ => Raised AttributeError
  end.

(** [re.search(r'\b[1-5]\b', score_text).group()] *)
Definition search_group (score_text : str) : result str :=
  match re_search unicode_isalnum SCORE_PATTERN score_text with
  | Some (_, g) => Returned g
  | None => Raised AttributeError
  end.

(** [int(g)], for the one-character strings [search_group] gives. *)
Definition py_int (g : str) : result Z :=
  match g with
  | [c] => if in_range 48 57 c then Returned (int_of_digit c)
           else Raised ValueError
  | _ => Raised ValueError
  end.

Definition caught_by_evaluate (e : exn) : bool :=
  (is_ClientError e || is_ValueError e || is_AttributeError e)%bool.

(** The request of [evaluate_response]: its headers and its payload,
    with [text] the value of [response_to_evaluate['choices'][0]['text']]. *)
Definition evaluation_request (url api_key : str) (text : json) : request :=
  {| req_url := url;
     req_authorization := bearer api_key;
     req_prompt :=
       lit "Please evaluate the following response on a scale of 1 to 5 for quality and relevance: "
       ++ format_value text;
     req_max_tokens := 50 |}.

Definition evaluate_response (evaluator_bot : BotId)
    (response_to_evaluate : pyval) : M Z :=
  api_key <- lift (dict_getitem API_KEYS evaluator_bot) ;;
  text <- lift (choices_0_text response_to_evaluate) ;;
  try_except
    (url <- lift (dict_getitem CHATBOT_APIS evaluator_bot) ;;
     evaluation_response <-
       session_post (evaluation_request url api_key text) ;;
     reply_text <- lift (json_text evaluation_response) ;;
     score_text <- lift (py_strip reply_text) ;;
     g <- lift (search_group score_text) ;;
     lift (py_int g))
    caught_by_evaluate
    (ret 3%Z).

(** [{chatbot: {} for chatbot in keys}] *)
Fixpoint empty_rows (keys : list BotId) (acc : ScoreTable) : ScoreTable :=
  match keys with
  | [] => acc
  | k :: keys' => empty_rows keys' (dict_set acc k [])
  end.

(** [scores[bot1][bot2] = score] *)
Definition table_set (scores : ScoreTable) (bot1 bot2 : BotId)
    (score : Z) : result ScoreTable :=
  match dict_get scores bot1 with
  | Some row => Returned (dict_set scores bot1 (dict_set row bot2 score))
  | None => Raised KeyError
  end.

(** The loop over [bot2, response2]. *)
Fixpoint evaluate_inner (bot1 : BotId) (items : list (BotId * pyval))
    (scores : ScoreTable) : M ScoreTable :=
  match items with
  | [] => ret scores
  | (bot2, response2) :: rest =>
      if (negb (String.eqb bot1 bot2) && negb (is_exception response2))%bool
      then
        score <- evaluate_response bot1 response2 ;;
        scores' <- lift (table_set scores bot1 bot2 score) ;;
        evaluate_inner bot1 rest scores'
      else evaluate_inner bot1 rest scores
  end.

(** The loop over [bot1, response1]. *)
Fixpoint evaluate_outer (items all : list (BotId * pyval))
    (scores : ScoreTable) : M ScoreTable :=
  match items with
  | [] => ret scores
  | (bot1, response1) :: rest =>
      if is_exception response1 then evaluate_outer rest all scores
      else
        scores' <- evaluate_inner bot1 all scores ;;
        evaluate_outer rest all scores'
  end.

Definition evaluate_responses (responses : dict pyval) : M ScoreTable :=
  evaluate_outer responses responses
    (empty_rows (dict_keys responses) []).

(** [score_dict.get], for the keys of [score_dict] itself. *)
Definition get_score (score_dict : dict Z) (bot : BotId) : Z :=
  match dict_get score_dict bot with
  | Some z => z
  | None => 0%Z
  end.

(** [min(score_dict, key=score_dict.get)] *)
Definition lowest_scored (score_dict : dict Z) : result BotId :=
  py_min (get_score score_dict) Z.ltb (dict_keys score_dict).

(** The body of the clarification loop for one [bot, score_dict]. *)
Definition clarify_one (responses : dict pyval) (bot : BotId)
    (score_dict : dict Z) : M json :=
  bot_to_ask <- lift (lowest_scored score_dict) ;;
  response <- lift (dict_getitem responses bot_to_ask) ;;
  clarification_question <-
    lift (generate_clarification_question unicode_isalnum response) ;;
  url <- lift (dict_getitem CHATBOT_APIS bot) ;;
  send_to_chatbot bot url clarification_question.

Fixpoint clarify_loop (responses : dict pyval)
    (items : list (BotId * dict Z)) (clarifications : dict pyval)
    : M (dict pyval) :=
  match items with
  | [] => ret clarifications
  | (bot, score_dict) :: rest =>
      a <- clarify_one responses bot score_dict ;;
      clarify_loop responses rest (dict_set clarifications bot (Val a))
  end.

Definition interact_between_bots (initial_question : str) : M pyval :=
  responses <- get_responses_from_chatbots initial_question ;;
  scores <- evaluate_responses responses ;;
  clarifications <- clarify_loop responses scores [] ;;
  final_scores <- evaluate_responses clarifications ;;
  lift (select_best_response clarifications final_scores).

(** The body of the [try] of [evaluate_response] once the reply is there:
    [int(re.search(...,
         evaluation_response['choices'][0]['text'].strip()).group())]. *)
Definition score_of_reply (evaluation_response : json) : result Z :=
  rbind (json_text evaluation_response) (fun reply_text =>
  rbind (py_strip reply_text) (fun score_text =>
  rbind (search_group score_text) py_int)).

End Coroutines.

(** ** Notions of the specification *)

(** The scores of a row added up. *)
Fixpoint row_total (row : dict Z) : Z :=
  match row with
  | [] => 0%Z
  | (_, z) :: rest => (z + row_total rest)%Z
  end.

(** The arithmetic mean of a row, as the specification words it: the sum of
    the values over their number. *)
Definition arithmetic_mean (row : dict Z) : Q :=
  (inject_Z (row_total row) / inject_Z (Z.of_nat (List.length row)))%Q.

(** The exact quotient of the operands of the division in
    [select_best_response], and the float the comprehension stores. *)
Definition row_average (row : dict Z) : Q :=
  Qmake (sum_Z (dict_values row)) (Pos.of_nat (List.length row)).

Definition float_average (row : dict Z) : Q :=
  nearest_double (row_average row).

(** The scores of a row are scores of the engine: integers from 1 to 5. *)
Definition row_in_range (row : dict Z) : Prop :=
  forall b z, In (b, z) row -> (1 <= z <= 5)%Z.

Definition scores_in_range (scores : ScoreTable) : Prop :=
  forall b row, In (b, row) scores -> row_in_range row.

(** A digit 1 to 5 stands alone at position [i] of [s] when neither the
    character before it nor the character after it is a word character;
    [prev] is the character before [s], if any. *)
Definition char_before (prev : option char) (s : str) (i : nat)
    : option char :=
  match i with
  | O => prev
  | S j => nth_error s j
  end.

Definition standalone_from (u : char -> bool) (prev : option char)
    (s : str) (i : nat) (d : char) : Prop :=
  nth_error s i = Some d /\
  is_digit_1_5 d = true /\
  is_word_opt u (char_before prev s i) = false /\
  is_word_opt u (nth_error s (S i)) = false.

Definition standalone_digit (u : char -> bool) (s : str) (i : nat)
    (d : char) : Prop :=
  standalone_from u None s i d.

(** The first standalone digit of [s], scanning from the left. *)
Fixpoint first_standalone (u : char -> bool) (prev : option char)
    (s : str) : option char :=
  match s with
  | [] => None
  | c :: s' =>
      if (is_digit_1_5 c && negb (is_word_opt u prev)
          && negb (is_word_opt u (hd_error s')))%bool
      then Some c
      else first_standalone u (Some c) s'
  end.

(** The clarification question the specification derives from the text
    [t]. When [t] has a question mark: the stretch [run] that ends at the
    first one and starts after the last full stop or exclamation mark
    before it (at the start of [t] when there is none), with the question
    mark, under "Can you clarify the following: ". Otherwise the first 100
    characters of [t] under "Can you provide more details about: ". *)
Definition clarifies (t question : str) : Prop :=
  (exists pre run rest,
      t = pre ++ run ++ 63%N :: rest /\
      ~ In 63%N pre /\
      (pre = [] \/ exists p x, pre = p ++ [x] /\ (x = 46%N \/ x = 33%N)) /\
      (forall c, In c run -> c <> 46%N /\ c <> 33%N /\ c <> 63%N) /\
      question = lit "Can you clarify the following: " ++ run ++ [63%N]) \/
  (~ In 63%N t /\
   question = lit "Can you provide more details about: " ++ firstn 100 t).

(** The digit [d] stands for the number [z]: it is the character of rank
    [z] in "0123456789". *)
Definition digit_value (d : char) (z : Z) : Prop :=
  (0 <= z)%Z /\ nth_error (lit "0123456789") (Z.to_nat z) = Some d.

(** The pair (evaluator [b1], subject [b2]) has a score in the table. *)
Definition has_entry (scores : ScoreTable) (b1 b2 : BotId) : Prop :=
  exists row score,
    dict_get scores b1 = Some row /\ dict_get row b2 = Some score.

(** The answer of bot [b] succeeded: its slot holds a body, not an
    exception. *)
Definition succeeded (responses : dict pyval) (b : BotId) : Prop :=
  exists j, dict_get responses b = Some (Val j).

(** Every slot holds the sentinel answer. *)
Definition all_sentinel (d : dict pyval) : Prop :=
  forall b r, In (b, r) d -> r = Val SENTINEL.

(** The subjects evaluator [b1] scores, in the order of [items]: the other
    bots whose slot is not an exception. *)
Definition subjects_of (b1 : BotId) (items : list (BotId * pyval))
    : list BotId :=
  map fst
    (filter (fun '(b2, r2) =>
               (negb (String.eqb b1 b2) && negb (is_exception r2))%bool)
            items).

(** A transport that keeps, beside its state, the list of the requests it
    received. *)
Definition logged {World : Type}
    (transport : World -> request -> result json * World)
    (st : World * list request) (rq : request)
    : result json * (World * list request) :=
  let (r, w') := transport (fst st) rq in
  (r, (w', snd st ++ [rq])).

(** The request [send_to_chatbot] sends for [chatbot]: none when the bot
    has no API key. *)
Definition requests_of_send (API_KEYS : dict str) (chatbot : BotId)
    (url question : str) : list request :=
  match dict_get API_KEYS chatbot with
  | Some api_key =>
      [{| req_url := url;
          req_authorization := bearer api_key;
          req_prompt := question;
          req_max_tokens := 150 |}]
  | None => []
  end.

(** The requests of the initial round, in the order of [CHATBOT_APIS]. *)
Definition initial_requests (CHATBOT_APIS API_KEYS : dict str)
    (question : str) : list request :=
  flat_map (fun '(chatbot, url) =>
              requests_of_send API_KEYS chatbot url question)
           CHATBOT_APIS.

(** The number of scores a table holds. *)
Definition count_scores (scores : ScoreTable) : nat :=
  list_sum (map (fun '(_, row) => List.length row) scores).

(** ** A sample configuration

    Three bots, and three transports: one that always answers, one whose
    bodies cannot be decoded, one that is down. *)

Module Sample.

Local Open Scope string_scope.

(** Texts within ASCII: no code point from 128 on occurs. *)
Definition ascii_only (c : char) : bool := false.

Definition py_str (j : json) : str := lit "None".

Definition CHATBOT_APIS : dict str :=
  [("A", lit "http://a.example/v1");
   ("B", lit "http://b.example/v1");
   ("C", lit "http://c.example/v1")].

Definition API_KEYS : dict str :=
  [("A", lit "key-a"); ("B", lit "key-b"); ("C", lit "key-c")].

Definition reply : json := answer (lit "Maybe 4. Why not?").

Definition transport_up (w : unit) (rq : request) : result json * unit :=
  (Returned reply, tt).

Definition transport_undecodable (w : unit) (rq : request)
    : result json * unit :=
  (Raised JSONDecodeError, tt).

Definition transport_down (w : unit) (rq : request)
    : result json * unit :=
  (Raised ClientError, tt).

(** A first round in which C failed. *)
Definition responses : dict pyval :=
  [("A", Val (answer (lit "It works. Have you tried restarting?")));
   ("B", Val (answer (lit "No idea.")));
   ("C", Exc JSONDecodeError)].

Definition scores : ScoreTable :=
  [("A", [("B", 4%Z)]); ("B", [("A", 4%Z)]); ("C", [])].

(** Two bots and their second round. *)
Definition scores_AB : ScoreTable :=
  [("A", [("B", 3%Z)]); ("B", [("A", 4%Z)])].

Definition clarifications_AB : dict pyval :=
  [("A", Val reply); ("B", Val reply)].

(** Three candidates for the selection. *)
Definition candidates : dict pyval :=
  [("A", Val reply); ("B", Val reply); ("C", Val SENTINEL)].

Definition all_failed : dict pyval :=
  [("A", Exc JSONDecodeError); ("B", Exc JSONDecodeError);
   ("C", Exc JSONDecodeError)].

End Sample.

(** Configurations and transports that lack something. *)
Module Degraded.

Local Open Scope string_scope.

(** A single bot. *)
Definition ONE_BOT : dict str := [("A", lit "http://a.example/v1")].

(** No key for C. *)
Definition KEYS_AB : dict str := [("A", lit "key-a"); ("B", lit "key-b")].

(** The backend of C sends bodies that cannot be decoded; the others
    answer. *)
Definition transport_c_undecodable (w : unit) (rq : request)
    : result json * unit :=
  if list_eq_dec N.eq_dec (req_url rq) (lit "http://c.example/v1")
  then (Raised JSONDecodeError, tt)
  else (Returned Sample.reply, tt).

(** Every backend answers with the JSON object [{}]. *)
Definition transport_empty_object (w : unit) (rq : request)
    : result json * unit :=
  (Returned (JObj []), tt).

(** Every request times out. *)
Definition transport_timeout (w : unit) (rq : request)
    : result json * unit :=
  (Raised TimeoutError, tt).

End Degraded.

(** Three bots that all answer, and what they think of each other. *)
Module Trio.

Local Open Scope string_scope.

Definition responses : dict pyval :=
  [("A", Val (answer (lit "It works. Have you tried restarting?")));
   ("B", Val (answer (lit "No idea.")));
   ("C", Val (answer (lit "Is it plugged in? Check the cable!")))].

Definition scores : ScoreTable :=
  [("A", [("B", 4%Z); ("C", 2%Z)]);
   ("B", [("A", 3%Z); ("C", 3%Z)]);
   ("C", [("A", 5%Z); ("B", 1%Z)])].

Definition clarifications : dict pyval :=
  [("A", Val (answer (lit "Yes, the cable is in.")));
   ("B", Val (answer (lit "Restarting helps.")));
   ("C", Val (answer (lit "No idea.")))].

(** A and B have the same mean, C a smaller one. *)
Definition final_scores : ScoreTable :=
  [("A", [("B", 2%Z); ("C", 5%Z)]);
   ("B", [("A", 4%Z); ("C", 3%Z)]);
   ("C", [("A", 3%Z); ("B", 3%Z)])].

End Trio.

(** * Properties *)

(** ** Dictionaries *)

Lemma dict_get_set {V} (d : dict V) k v k' :
  dict_get (dict_set d k v) k' =
  if String.eqb k' k then Some v else dict_get d k'.
Proof.
  induction d as [|[k0 v0] d IH]; simpl.
  - destruct (String.eqb k' k); reflexivity.
  - destruct (String.eqb_spec k k0) as [->|Hk]; simpl.
    + destruct (String.eqb k' k0); reflexivity.
    + rewrite IH. destruct (String.eqb_spec k' k0) as [->|Hk'].
      * destruct (String.eqb_spec k0 k); congruence.
      * reflexivity.
Qed.

Lemma dict_set_fresh {V} (d : dict V) k v :
  ~ In k (dict_keys d) -> dict_set d k v = d ++ [(k, v)].
Proof.
  induction d as [|[k0 v0] d IH]; simpl; intros Hn.
  - reflexivity.
  - destruct (String.eqb_spec k k0) as [->|Hk].
    + exfalso. apply Hn. now left.
    + rewrite IH by tauto. reflexivity.
Qed.

Lemma dict_keys_set_in {V} (d : dict V) k v :
  In k (dict_keys d) -> dict_keys (dict_set d k v) = dict_keys d.
Proof.
  induction d as [|[k0 v0] d IH]; simpl; intros Hin.
  - contradiction.
  - destruct (String.eqb_spec k k0) as [->|Hk]; simpl.
    + reflexivity.
    + f_equal. apply IH. destruct Hin; congruence.
Qed.

Lemma dict_get_in {V} (d : dict V) k v :
  dict_get d k = Some v -> In (k, v) d.
Proof.
  induction d as [|[k0 v0] d IH]; simpl; intros H.
  - discriminate.
  - destruct (String.eqb_spec k k0) as [->|Hk].
    + left. congruence.
    + right. auto.
Qed.

Lemma dict_get_none {V} (d : dict V) k :
  dict_get d k = None <-> ~ In k (dict_keys d).
Proof.
  induction d as [|[k0 v0] d IH]; simpl.
  - tauto.
  - destruct (String.eqb_spec k k0) as [->|Hk].
    + split; [discriminate | intros H; exfalso; apply H; now left].
    + rewrite IH. split; intros H; [intros [E|I]; [congruence|tauto] | tauto].
Qed.

Lemma in_dict_keys {V} (d : dict V) k v :
  In (k, v) d -> In k (dict_keys d).
Proof. intros H. apply (in_map fst) in H. exact H. Qed.

Lemma in_dict_get {V} (d : dict V) k v :
  dict_wf d -> In (k, v) d -> dict_get d k = Some v.
Proof.
  unfold dict_wf.
  induction d as [|[k0 v0] d IH]; simpl; intros Hwf Hin.
  - contradiction.
  - inversion Hwf as [|? ? Hnotin Hwf']; subst.
    destruct Hin as [E|Hin].
    + inversion E; subst. now rewrite String.eqb_refl.
    + destruct (String.eqb_spec k k0) as [->|Hk].
      * exfalso. apply Hnotin. eapply in_dict_keys; eauto.
      * auto.
Qed.

Lemma dict_get_some_key {V} (d : dict V) k v :
  dict_get d k = Some v -> In k (dict_keys d).
Proof. intros H. eapply in_dict_keys, dict_get_in; eauto. Qed.

Lemma dict_keys_app {V} (d1 d2 : dict V) :
  dict_keys (d1 ++ d2) = dict_keys d1 ++ dict_keys d2.
Proof. apply map_app. Qed.

(** ** [min] and [max] *)

Section MinMaxFacts.
Variables (A B : Type) (key : A -> B) (lt : B -> B -> bool).

Hypothesis lt_trans :
  forall a b c, lt a b = true -> lt b c = true -> lt a c = true.
Hypothesis le_lt_trans :
  forall a b c, lt b a = false -> lt b c = true -> lt a c = true.

(** [max] returns the first element whose key is the greatest: the keys
    before it are strictly smaller, the keys after it are not greater. *)
Lemma max_loop_split (xs : list A) : forall best,
  exists pre post,
    best :: xs = pre ++ max_loop key lt best xs :: post /\
    (forall x, In x pre -> lt (key x) (key (max_loop key lt best xs)) = true) /\
    (forall x, In x post -> lt (key (max_loop key lt best xs)) (key x) = false).
Proof using lt_trans le_lt_trans.
  induction xs as [|x xs IH]; intros best; simpl.
  - exists [], []. simpl. repeat split; intros ? [].
  - set (b' := if lt (key best) (key x) then x else best).
    destruct (IH b') as (pre & post & Heq & Hpre & Hpost).
    set (m := max_loop key lt b' xs) in *.
    destruct pre as [|p pre]; simpl in Heq.
    + injection Heq as Hm Hxs.
      destruct (lt (key best) (key x)) eqn:E.
      * exists [best], post. rewrite Hxs. split; [now rewrite <- Hm|].
        split; [|exact Hpost].
        intros y [<-|[]]. now rewrite <- Hm.
      * exists [], (x :: post). rewrite Hxs. split; [now rewrite <- Hm|].
        split; [intros ? []|].
        intros y [<-|Hy]; [now rewrite <- Hm|]. apply Hpost. exact Hy.
    + injection Heq as Hp Hxs.
      assert (Hb' : lt (key b') (key m) = true)
        by (apply Hpre; left; symmetry; exact Hp).
      exists (best :: x :: pre), post. rewrite Hxs.
      split; [reflexivity|].
      split; [|exact Hpost].
      intros y [<-|[<-|Hy]].
      * destruct (lt (key best) (key x)) eqn:E.
        -- eapply lt_trans; eauto.
        -- exact Hb'.
      * destruct (lt (key best) (key x)) eqn:E.
        -- exact Hb'.
        -- eapply le_lt_trans; eauto.
      * apply Hpre. right. exact Hy.
Qed.
End MinMaxFacts.

Lemma min_loop_as_max {A B} (key : A -> B) (lt : B -> B -> bool) xs :
  forall best,
    min_loop key lt best xs = max_loop key (fun a b => lt b a) best xs.
Proof. induction xs as [|x xs IH]; intros best; simpl; auto. Qed.

(** ** The selector *)

(** *** Rounding to a float *)

Lemma round_half_even_near x :
  (Qabs (inject_Z (round_half_even x) - x) <= 1 # 2)%Q.
Proof.
  unfold round_half_even.
  pose proof (Qfloor_le x) as Hlo. pose proof (Qlt_floor x) as Hhi.
  rewrite inject_Z_plus in Hhi. change (inject_Z 1) with 1%Q in Hhi.
  apply Qabs_Qle_condition.
  destruct (Qcompare (x - inject_Z (Qfloor x)) (1 # 2)) eqn:E.
  - apply Qeq_alt in E.
    destruct (Z.even (Qfloor x));
      [|rewrite inject_Z_plus; change (inject_Z 1) with 1%Q]; split; lra.
  - apply Qlt_alt in E. split; lra.
  - apply Qgt_alt in E. rewrite inject_Z_plus.
    change (inject_Z 1) with 1%Q. split; lra.
Qed.

Lemma pow2_pos e : (0 < pow2 e)%Q.
Proof. apply Qpower_0_lt. reflexivity. Qed.

Lemma pow2_le e1 e2 : (e1 <= e2)%Z -> (pow2 e1 <= pow2 e2)%Q.
Proof. intros H. apply Qpower_le_compat_l; [exact H | discriminate]. Qed.

Lemma log2_ratio_small (a b : positive) :
  (Z.pos a # b < 8)%Q -> (log2_ratio a b <= 2)%Z.
Proof.
  intros H. unfold log2_ratio.
  pose proof (Z.log2_spec (Z.pos a) eq_refl) as [Ha1 Ha2].
  pose proof (Z.log2_spec (Z.pos b) eq_refl) as [Hb1 Hb2].
  pose proof (Z.log2_nonneg (Z.pos a)) as Hna.
  pose proof (Z.log2_nonneg (Z.pos b)) as Hnb.
  set (la := Z.log2 (Z.pos a)) in *. set (lb := Z.log2 (Z.pos b)) in *.
  assert (Hab : (Z.pos a < 8 * Z.pos b)%Z).
  { unfold Qlt in H. simpl in H. lia. }
  assert (Hd : (la - lb <= 3)%Z).
  { assert (Hlt : (2 ^ la < 2 ^ (lb + 4))%Z).
    { replace (lb + 4)%Z with (Z.succ lb + 3)%Z by lia.
      rewrite Z.pow_add_r by lia. change (2 ^ 3)%Z with 8%Z. lia. }
    apply Z.pow_lt_mono_r_iff in Hlt; lia. }
  destruct (Qle_bool (pow2 (la - lb)) (Z.pos a # b)) eqn:E; [|lia].
  destruct (Z.eq_dec (la - lb) 3) as [E3|]; [|lia].
  rewrite E3 in E. apply Qle_bool_iff in E.
  exfalso. apply (Qlt_irrefl 8). eapply Qle_lt_trans; [|exact H]. exact E.
Qed.

(** The float of a quotient depends on its value only. *)
Lemma nearest_double_comp x y :
  (x == y)%Q -> nearest_double x = nearest_double y.
Proof. intros H. unfold nearest_double. now rewrite (Qred_complete _ _ H). Qed.

(** From 1 to 5 the unit in the last place is [2 ^ -50] at most, and the
    float is within half of it. *)
Lemma nearest_double_near x :
  (1 <= x)%Q -> (x <= 5)%Q ->
  (Qabs (nearest_double x - x) <= 1 # 2 ^ 51)%Q.
Proof.
  intros H1 H5. unfold nearest_double.
  pose proof (Qred_correct x) as Hred.
  set (x' := Qred x) in *.
  destruct x' as [n d] eqn:Ex. cbn [Qnum Qden].
  destruct n as [|a|a].
  - exfalso. rewrite <- Hred in H1. unfold Qle in H1. simpl in H1. lia.
  - set (e := Z.max (log2_ratio a d - 52) (-1074)).
    assert (He : (e <= -50)%Z).
    { assert (log2_ratio a d <= 2)%Z; [|lia].
      apply log2_ratio_small. rewrite Hred. lra. }
    pose proof (pow2_pos e) as Hp. pose proof (pow2_le He) as Hle.
    change (pow2 (-50)) with (1 # 2 ^ 50)%Q in Hle.
    pose proof (round_half_even_near ((Z.pos a # d) / pow2 e)) as Hr.
    set (r := inject_Z (round_half_even ((Z.pos a # d) / pow2 e))) in *.
    set (p := pow2 e) in *.
    assert (Hx : (x == ((Z.pos a # d) / p) * p)%Q).
    { rewrite <- Hred. field. lra. }
    set (t := ((Z.pos a # d) / p)%Q) in *.
    apply Qabs_Qle_condition in Hr. apply Qabs_Qle_condition.
    rewrite Hx.
    assert (Hm : ((r - t) * p <= (1 # 2) * p)%Q)
      by (apply Qmult_le_compat_r; lra).
    assert (Hm' : (- (1 # 2) * p <= (r - t) * p)%Q)
      by (apply Qmult_le_compat_r; lra).
    change (1 # 2 ^ 51)%Q with (1 # 2251799813685248)%Q.
    change (1 # 2 ^ 50)%Q with (1 # 1125899906842624)%Q in Hle.
    split.
    + ring_simplify in Hm'. ring_simplify. lra.
    + ring_simplify in Hm. lra.
  - exfalso. rewrite <- Hred in H1. unfold Qle in H1. simpl in H1. lia.
Qed.

Lemma pow2_1024_large (x : Q) :
  (Qabs x <= 6)%Q -> Qle_bool (pow2 1024) (Qabs x) = false.
Proof.
  intros H. destruct (Qle_bool (pow2 1024) (Qabs x)) eqn:E; [|reflexivity].
  apply Qle_bool_iff in E. exfalso.
  assert (H6 : (6 < pow2 1024)%Q) by (vm_compute; reflexivity).
  apply (Qlt_irrefl 6). eapply Qlt_le_trans; [exact H6|].
  eapply Qle_trans; eauto.
Qed.

(** Two quotients with denominators up to [2 ^ 24] that differ, differ by
    [2 ^ -48] at least. *)
Lemma fraction_gap (s1 s2 : Z) (n1 n2 : positive) :
  (Z.pos n1 <= 2 ^ 24)%Z -> (Z.pos n2 <= 2 ^ 24)%Z ->
  (s1 # n1 < s2 # n2)%Q ->
  ((s1 # n1) + (1 # 2 ^ 48) <= s2 # n2)%Q.
Proof.
  intros H1 H2 Hlt. unfold Qlt in Hlt. unfold Qle, Qplus.
  cbn [Qnum Qden] in *.
  rewrite Pos2Z.inj_mul.
  change (Z.pos (2 ^ 48)) with (2 ^ 48)%Z.
  change (2 ^ 24)%Z with 16777216%Z in *.
  change (2 ^ 48)%Z with (16777216 * 16777216)%Z.
  nia.
Qed.

(** *** The average of a row *)

Lemma fold_left_add (l : list Z) : forall a,
  fold_left Z.add l a = (a + fold_left Z.add l 0)%Z.
Proof.
  induction l as [|z l IH]; intros a; simpl.
  - lia.
  - rewrite IH, (IH z). lia.
Qed.

(** [sum] adds the scores up. *)
Lemma sum_Z_total (row : dict Z) : sum_Z (dict_values row) = row_total row.
Proof.
  unfold sum_Z, dict_values. induction row as [|[b z] row IH].
  - reflexivity.
  - cbn [map snd fold_left row_total]. rewrite fold_left_add, IH. lia.
Qed.

Lemma Zpos_of_nat n : n <> O -> Z.pos (Pos.of_nat n) = Z.of_nat n.
Proof.
  destruct n; [congruence|]. intros _. rewrite <- Pos.of_nat_succ. lia.
Qed.

Lemma row_length_pos {V} (row : dict V) : row <> [] -> List.length row <> O.
Proof. destruct row; [congruence | discriminate]. Qed.

Lemma row_average_mean (row : dict Z) :
  row <> [] -> (row_average row == arithmetic_mean row)%Q.
Proof.
  intros Hne. unfold row_average, arithmetic_mean.
  rewrite Qmake_Qdiv, sum_Z_total, Zpos_of_nat by now apply row_length_pos.
  reflexivity.
Qed.

Lemma row_total_bounds (row : dict Z) :
  row_in_range row ->
  (Z.of_nat (List.length row) <= row_total row
   <= 5 * Z.of_nat (List.length row))%Z.
Proof.
  induction row as [|[b z] row IH]; intros Hr.
  - simpl. lia.
  - assert (1 <= z <= 5)%Z by (apply (Hr b); now left).
    assert (Hr' : row_in_range row)
      by (intros b' z' H'; apply (Hr b'); now right).
    specialize (IH Hr'). cbn [row_total List.length]. lia.
Qed.

Lemma row_average_bounds (row : dict Z) :
  row <> [] -> row_in_range row ->
  (1 <= row_average row)%Q /\ (row_average row <= 5)%Q.
Proof.
  intros Hne Hr. pose proof (row_total_bounds Hr) as Hb.
  unfold row_average. rewrite sum_Z_total.
  unfold Qle. cbn [Qnum Qden].
  rewrite Zpos_of_nat by now apply row_length_pos.
  split; lia.
Qed.

(** On a row of scores from 1 to 5 the division raises nothing. *)
Lemma true_div_row (row : dict Z) :
  row <> [] -> row_in_range row ->
  true_div (sum_Z (dict_values row)) (List.length row) =
  Returned (float_average row).
Proof.
  intros Hne Hr. destruct (row_average_bounds Hne Hr) as [H1 H5].
  pose proof (nearest_double_near H1 H5) as Hn.
  unfold true_div. destruct (List.length row) eqn:El.
  - exfalso. now apply (row_length_pos Hne).
  - rewrite <- El. fold (row_average row). fold (float_average row).
    unfold float_average. rewrite pow2_1024_large; [reflexivity|].
    apply Qabs_Qle_condition in Hn. apply Qabs_Qle_condition.
    change (1 # 2 ^ 51)%Q with (1 # 2251799813685248)%Q in Hn.
    split; lra.
Qed.

(** On rows of scores from 1 to 5 with [2 ^ 24] entries at most, the
    floats are in the order of the arithmetic means. *)
Lemma float_average_lt (r1 r2 : dict Z) :
  r1 <> [] -> r2 <> [] -> row_in_range r1 -> row_in_range r2 ->
  (Z.of_nat (List.length r1) <= 2 ^ 24)%Z ->
  (Z.of_nat (List.length r2) <= 2 ^ 24)%Z ->
  ((arithmetic_mean r1 < arithmetic_mean r2)%Q <->
   (float_average r1 < float_average r2)%Q).
Proof.
  intros Hn1 Hn2 Hr1 Hr2 Hl1 Hl2.
  assert (Hsep : forall a b : dict Z,
             a <> [] -> b <> [] -> row_in_range a -> row_in_range b ->
             (Z.of_nat (List.length a) <= 2 ^ 24)%Z ->
             (Z.of_nat (List.length b) <= 2 ^ 24)%Z ->
             (row_average a < row_average b)%Q ->
             (float_average a < float_average b)%Q).
  { intros a b Ha Hb Hra Hrb Hla Hlb Hlt.
    destruct (row_average_bounds Ha Hra) as [A1 A5].
    destruct (row_average_bounds Hb Hrb) as [B1 B5].
    pose proof (nearest_double_near A1 A5) as Na.
    pose proof (nearest_double_near B1 B5) as Nb.
    apply Qabs_Qle_condition in Na, Nb.
    assert (Hgap : (row_average a + (1 # 2 ^ 48) <= row_average b)%Q).
    { apply fraction_gap; [| |exact Hlt].
      - rewrite Zpos_of_nat by now apply row_length_pos. exact Hla.
      - rewrite Zpos_of_nat by now apply row_length_pos. exact Hlb. }
    unfold float_average.
    change (1 # 2 ^ 51)%Q with (1 # 2251799813685248)%Q in *.
    change (1 # 2 ^ 48)%Q with (1 # 281474976710656)%Q in *.
    lra. }
  rewrite <- (row_average_mean Hn1), <- (row_average_mean Hn2).
  split; [apply Hsep; assumption|].
  intros Hf.
  destruct (Q_dec (row_average r1) (row_average r2)) as [[Hlt|Hgt]|Heq].
  - exact Hlt.
  - exfalso. apply (Hsep r2 r1) in Hgt; try assumption.
    apply (Qlt_irrefl (float_average r1)). eapply Qlt_trans; eauto.
  - exfalso. unfold float_average in Hf.
    rewrite (nearest_double_comp Heq) in Hf. apply (Qlt_irrefl _ Hf).
Qed.

Lemma Qlt_bool_iff (a b : Q) : Qlt_bool a b = true <-> (a < b)%Q.
Proof.
  unfold Qlt_bool. rewrite negb_true_iff.
  split; intros H.
  - apply Qnot_le_lt. intros Hle. apply Qle_bool_iff in Hle. congruence.
  - destruct (Qle_bool b a) eqn:E; [|reflexivity].
    apply Qle_bool_iff in E. exfalso. eapply Qlt_not_le; eauto.
Qed.

Lemma Qlt_bool_false_iff (a b : Q) : Qlt_bool a b = false <-> (b <= a)%Q.
Proof.
  unfold Qlt_bool. rewrite negb_false_iff. apply Qle_bool_iff.
Qed.

(** *** The comprehension *)

(** An empty row stops the comprehension with ZeroDivisionError, when the
    rows before it hold scores from 1 to 5. *)
Lemma avg_scores_loop_empty_row (items : list (BotId * dict Z)) :
  forall acc b,
    scores_in_range items ->
    In (b, []) items ->
    avg_scores_loop items acc = Raised ZeroDivisionError.
Proof.
  induction items as [|[bot score] rest IH]; intros acc b Hr Hin.
  - destruct Hin.
  - cbn [avg_scores_loop]. destruct score as [|entry score].
    + reflexivity.
    + rewrite true_div_row;
        [|discriminate | apply (Hr bot); now left].
      cbn [rbind]. apply IH with (b := b).
      * intros b' row' H'. apply (Hr b'). now right.
      * destruct Hin as [E|Hin]; [discriminate E | exact Hin].
Qed.

(** The comprehension raises nothing but the exceptions of the division,
    and ZeroDivisionError at an empty row only. *)
Lemma avg_scores_loop_raises (items : list (BotId * dict Z)) :
  forall acc e,
    avg_scores_loop items acc = Raised e ->
    (e = ZeroDivisionError /\ exists b, In (b, []) items) \/
    e = OverflowError.
Proof.
  induction items as [|[bot score] rest IH]; intros acc e H.
  - discriminate.
  - cbn [avg_scores_loop] in H. unfold true_div in H.
    destruct score as [|entry score].
    + cbn in H. left. split; [congruence|]. exists bot. now left.
    + cbn [List.length] in H.
      destruct (Qle_bool _ _) in H.
      * cbn in H. right. congruence.
      * cbn [rbind] in H. apply IH in H.
        destruct H as [[-> (b & Hb)] | ->]; [left|now right].
        split; [reflexivity|]. exists b. now right.
Qed.

(** What it returns has the keys of the table. *)
Lemma avg_scores_loop_keys (items : list (BotId * dict Z)) :
  forall acc avg,
    NoDup (dict_keys acc ++ dict_keys items) ->
    avg_scores_loop items acc = Returned avg ->
    dict_keys avg = dict_keys acc ++ dict_keys items.
Proof.
  induction items as [|[bot score] rest IH]; intros acc avg Hnd H.
  - cbn in H. inversion H. cbn. now rewrite app_nil_r.
  - cbn [avg_scores_loop] in H.
    destruct (true_div _ _) as [q|e]; [|discriminate].
    cbn [rbind] in H.
    assert (Hfresh : ~ In bot (dict_keys acc)).
    { intros Hin. simpl in Hnd. apply NoDup_remove_2 in Hnd. apply Hnd.
      apply in_or_app. now left. }
    rewrite dict_set_fresh in H by exact Hfresh.
    apply IH in H.
    + rewrite H, dict_keys_app. cbn. now rewrite <- app_assoc.
    + rewrite dict_keys_app. cbn. rewrite <- app_assoc. exact Hnd.
Qed.

(** With rows of scores from 1 to 5, none of them empty, the comprehension
    stores one float per key. *)
Lemma avg_scores_loop_rows (items : list (BotId * dict Z)) :
  forall acc,
    NoDup (dict_keys acc ++ dict_keys items) ->
    (forall b row, In (b, row) items -> row <> []) ->
    scores_in_range items ->
    avg_scores_loop items acc =
    Returned (acc ++ map (fun '(b, row) => (b, float_average row)) items).
Proof.
  induction items as [|[bot score] rest IH]; intros acc Hnd Hrows Hr.
  - simpl. now rewrite app_nil_r.
  - cbn [avg_scores_loop].
    rewrite true_div_row;
      [|apply (Hrows bot); now left | apply (Hr bot); now left].
    cbn [rbind]. rewrite dict_set_fresh.
    + rewrite IH.
      * cbn [map]. rewrite <- app_assoc. reflexivity.
      * rewrite dict_keys_app, <- app_assoc. exact Hnd.
      * intros b row Hin. apply (Hrows b row). now right.
      * intros b row Hin. apply (Hr b row). now right.
    + intros Hin. simpl in Hnd.
      apply NoDup_remove_2 in Hnd. apply Hnd.
      apply in_or_app. now left.
Qed.

Lemma dict_keys_averages (scores : ScoreTable) :
  dict_keys (map (fun '(b, row) => (b, float_average row)) scores) =
  dict_keys scores.
Proof.
  unfold dict_keys. rewrite map_map. apply map_ext. now intros [b row].
Qed.

Lemma get_avg_averages (scores : ScoreTable) b row :
  dict_wf scores -> In (b, row) scores ->
  get_avg (map (fun '(b, row) => (b, float_average row)) scores) b =
  float_average row.
Proof.
  intros Hwf Hin. unfold get_avg.
  rewrite (@in_dict_get Q _ b (float_average row)); [reflexivity| |].
  - unfold dict_wf. rewrite dict_keys_averages. exact Hwf.
  - apply (in_map (fun '(b, row) => (b, float_average row))) in Hin.
    exact Hin.
Qed.

(** What [select_best_response] returns on a table of scores from 1 to 5
    without empty row: the answer of the first bot of greatest float. *)
Lemma select_best_response_first_max clarifications (scores : ScoreTable) :
  dict_wf scores ->
  scores <> [] ->
  (forall b row, In (b, row) scores -> row <> []) ->
  scores_in_range scores ->
  exists pre best row post,
    scores = pre ++ (best, row) :: post /\
    (forall b r, In (b, r) pre -> (float_average r < float_average row)%Q) /\
    (forall b r, In (b, r) post -> (float_average r <= float_average row)%Q) /\
    select_best_response clarifications scores =
    dict_getitem clarifications best.
Proof.
  intros Hwf Hne Hrows Hrange. unfold select_best_response.
  rewrite avg_scores_loop_rows by (simpl; auto). simpl app.
  cbn [rbind]. rewrite dict_keys_averages.
  set (avg := map (fun '(b, row) => (b, float_average row)) scores).
  assert (Hkeys : exists b0 ks, dict_keys scores = b0 :: ks).
  { destruct scores as [|[b0 row0] rest]; [congruence|].
    exists b0, (dict_keys rest). reflexivity. }
  destruct Hkeys as (b0 & ks & Hkeys).
  rewrite Hkeys. cbn [py_max rbind].
  destruct (max_loop_split (get_avg avg) Qlt_bool) with
    (xs := ks) (best := b0)
    as (kpre & kpost & Heq & Hpre & Hpost).
  { intros a b c H1 H2. apply Qlt_bool_iff in H1, H2. apply Qlt_bool_iff.
    eapply Qlt_trans; eauto. }
  { intros a b c H1 H2. apply Qlt_bool_false_iff in H1.
    apply Qlt_bool_iff in H2. apply Qlt_bool_iff.
    eapply Qle_lt_trans; eauto. }
  set (best := max_loop (get_avg avg) Qlt_bool b0 ks) in *.
  rewrite <- Hkeys in Heq. unfold dict_keys in Heq.
  apply map_eq_app in Heq. destruct Heq as (pre & tl & Hsplit & Hkpre & Htl).
  apply map_eq_cons in Htl.
  destruct Htl as ([best' row] & post & -> & Hbest & Hkpost).
  simpl in Hbest. subst best'.
  assert (Hmid : get_avg avg best = float_average row).
  { apply get_avg_averages; [exact Hwf|].
    rewrite Hsplit. apply in_or_app. right. now left. }
  exists pre, best, row, post. split; [exact Hsplit|].
  split; [|split; [|reflexivity]].
  - intros b r Hin. rewrite <- Hmid.
    rewrite <- (@get_avg_averages scores b r Hwf).
    + apply Qlt_bool_iff. apply Hpre. rewrite <- Hkpre.
      apply (in_map fst) in Hin. exact Hin.
    + rewrite Hsplit. apply in_or_app. now left.
  - intros b r Hin. rewrite <- Hmid.
    rewrite <- (@get_avg_averages scores b r Hwf).
    + apply Qlt_bool_false_iff. apply Hpost. rewrite <- Hkpost.
      apply (in_map fst) in Hin. exact Hin.
    + rewrite Hsplit. apply in_or_app. right. now right.
Qed.

(** C1 (as amended): for every score table of scores from 1 to 5 in which
    some bot has an empty row, [select_best_response] raises
    ZeroDivisionError to its caller, whatever the other rows and the
    candidates are. No "unscored" condition is produced and the bot is not
    set aside. *)
Theorem select_best_response_empty_row :
  forall (clarifications : dict pyval) (scores : ScoreTable) (b : BotId),
    scores_in_range scores ->
    dict_get scores b = Some [] ->
    select_best_response clarifications scores = Raised ZeroDivisionError.
Proof.
  intros clarifications scores b Hrange Hrow. unfold select_best_response.
  rewrite (@avg_scores_loop_empty_row scores [] b).
  - reflexivity.
  - exact Hrange.
  - apply dict_get_in. exact Hrow.
Qed.

(** C9 (as amended): on a non-empty score table whose rows are non-empty,
    hold scores from 1 to 5 and have [2 ^ 24] entries at most, and whose
    bots all have a candidate, [select_best_response] returns the candidate
    of the bot [best] whose row has the greatest arithmetic mean; of the
    bots with that mean, [best] is the first in the order of the table. *)
Theorem select_best_response_max_mean :
  forall (clarifications : dict pyval) (scores : ScoreTable),
    dict_wf scores ->
    scores <> [] ->
    (forall b row, In (b, row) scores ->
       row <> [] /\ row_in_range row /\
       (Z.of_nat (List.length row) <= 2 ^ 24)%Z) ->
    (forall b, In b (dict_keys scores) -> In b (dict_keys clarifications)) ->
    exists pre best row post answer,
      scores = pre ++ (best, row) :: post /\
      (forall b r, In (b, r) pre ->
         (arithmetic_mean r < arithmetic_mean row)%Q) /\
      (forall b r, In (b, r) post ->
         (arithmetic_mean r <= arithmetic_mean row)%Q) /\
      dict_get clarifications best = Some answer /\
      select_best_response clarifications scores = Returned answer.
Proof.
  intros clarifications scores Hwf Hne Hrows Hsub.
  destruct (@select_best_response_first_max clarifications scores Hwf Hne)
    as (pre & best & row & post & Hsplit & Hpre & Hpost & Hres).
  { intros b row Hb. apply (Hrows b row Hb). }
  { intros b row Hb. apply (Hrows b row Hb). }
  assert (Hin : forall b r,
             In (b, r) pre \/ In (b, r) post \/ (b, r) = (best, row) ->
             In (b, r) scores).
  { intros b r H. rewrite Hsplit. apply in_or_app.
    destruct H as [H|[H|H]]; [now left | right; now right | right; now left]. }
  destruct (Hrows best row) as (Hrow & Hrange & Hlen); [apply Hin; auto|].
  destruct (dict_get clarifications best) as [answer|] eqn:Hget.
  - exists pre, best, row, post, answer.
    split; [exact Hsplit|]. split; [|split; [|split; [exact Hget|]]].
    + intros b r Hb.
      destruct (Hrows b r) as (Hr1 & Hr2 & Hr3); [apply Hin; auto|].
      apply float_average_lt; try assumption. eapply Hpre; eauto.
    + intros b r Hb.
      destruct (Hrows b r) as (Hr1 & Hr2 & Hr3); [apply Hin; auto|].
      apply Qnot_lt_le. intros Hlt.
      apply float_average_lt in Hlt; try assumption.
      apply (Qlt_not_le _ _ Hlt). eapply Hpost; eauto.
    + rewrite Hres. unfold dict_getitem. now rewrite Hget.
  - exfalso. apply dict_get_none in Hget. apply Hget, Hsub.
    apply in_dict_keys with (v := row). apply Hin. auto.
Qed.

(** ** The question pattern *)

Lemma not_terminator_true c :
  not_terminator c = true <-> c <> 46%N /\ c <> 33%N /\ c <> 63%N.
Proof.
  unfold not_terminator, is_dot, is_bang, is_qmark, char_eqb.
  rewrite negb_true_iff, !orb_false_iff, !N.eqb_neq. tauto.
Qed.

Lemma not_terminator_false c :
  not_terminator c = false <-> c = 46%N \/ c = 33%N \/ c = 63%N.
Proof.
  unfold not_terminator, is_dot, is_bang, is_qmark, char_eqb.
  rewrite negb_false_iff, !orb_true_iff, !N.eqb_eq. tauto.
Qed.

Lemma not_terminator_not_qmark c :
  not_terminator c = true -> is_qmark c = false.
Proof.
  unfold not_terminator. rewrite negb_true_iff.
  intros H. apply orb_false_iff in H. tauto.
Qed.

Lemma run_prefix (s : str) :
  exists run rest,
    s = run ++ rest /\
    Forall (fun c => not_terminator c = true) run /\
    match rest with
    | [] => True
    | c :: _ => not_terminator c = false
    end.
Proof.
  induction s as [|c s (run & rest & -> & Hrun & Hrest)].
  - exists [], []. simpl. auto.
  - destruct (not_terminator c) eqn:Hc.
    + exists (c :: run), rest. simpl. auto.
    + exists [], (c :: run ++ rest). simpl. auto.
Qed.

Section QuestionPattern.

Variable u : char -> bool.

Lemma question_match_unfold prev s :
  match_here u QUESTION_PATTERN prev s =
  match_star not_terminator (match_here u [OneOf is_qmark]) prev s.
Proof. reflexivity. Qed.

(** A run of ordinary characters followed by ['?'] is matched whole. *)
Lemma question_match_run (run : str) : forall prev rest,
  Forall (fun c => not_terminator c = true) run ->
  match_here u QUESTION_PATTERN prev (run ++ 63%N :: rest) =
  Some (S (List.length run)).
Proof.
  induction run as [|c run IH]; intros prev rest Hrun.
  - reflexivity.
  - inversion Hrun as [|? ? Hc Hrun']; subst.
    rewrite question_match_unfold. simpl app. cbn [match_star].
    rewrite Hc. rewrite <- question_match_unfold.
    rewrite IH by assumption. reflexivity.
Qed.

(** A run that ends at ['.'], at ['!'] or at the end of the text is not
    matched, at any of its lengths. *)
Lemma question_match_stop (run : str) : forall prev rest,
  Forall (fun c => not_terminator c = true) run ->
  match rest with
  | [] => True
  | c :: _ => is_qmark c = false /\ not_terminator c = false
  end ->
  match_here u QUESTION_PATTERN prev (run ++ rest) = None.
Proof.
  induction run as [|c run IH]; intros prev rest Hrun Hrest.
  - rewrite question_match_unfold. simpl app.
    destruct rest as [|c rest]; [reflexivity|].
    destruct Hrest as [Hq Ht]. cbn. rewrite Ht, Hq. reflexivity.
  - inversion Hrun as [|? ? Hc Hrun']; subst.
    rewrite question_match_unfold. simpl app. cbn [match_star].
    rewrite Hc. rewrite <- question_match_unfold.
    rewrite IH by assumption.
    cbn. rewrite (not_terminator_not_qmark _ Hc). reflexivity.
Qed.

Lemma question_match_no_qmark (s : str) prev :
  (forall c, In c s -> is_qmark c = false) ->
  match_here u QUESTION_PATTERN prev s = None.
Proof.
  intros Hq. destruct (run_prefix s) as (run & rest & -> & Hrun & Hrest).
  apply question_match_stop; [exact Hrun|].
  destruct rest as [|c rest]; [exact I|]. split; [|exact Hrest].
  apply Hq. apply in_or_app. right. now left.
Qed.

Lemma findall_from_match r prev s n :
  match_here u r prev s = Some n ->
  exists later, findall_from u r prev s O = firstn n s :: later.
Proof. intros H. destruct s; cbn [findall_from]; rewrite H; eauto. Qed.

Lemma findall_from_skip r prev c s :
  match_here u r prev (c :: s) = None ->
  findall_from u r prev (c :: s) O = findall_from u r (Some c) s O.
Proof. intros H. cbn [findall_from]. now rewrite H. Qed.

(** A text without ['?'] has no match at all. *)
Lemma findall_no_qmark (s : str) : forall prev,
  (forall c, In c s -> is_qmark c = false) ->
  findall_from u QUESTION_PATTERN prev s O = [].
Proof.
  induction s as [|c s IH]; intros prev Hq.
  - reflexivity.
  - cbn [findall_from].
    rewrite question_match_no_qmark by exact Hq.
    apply IH. intros c' Hc'. apply Hq. now right.
Qed.

(** The first match: the run of ordinary characters before the first
    ['?'], from the last ['.'] or ['!'] on (or from the start). *)
Lemma findall_first (pre : str) : forall prev run rest,
  (forall c, In c pre -> is_qmark c = false) ->
  (pre = [] \/ exists p t, pre = p ++ [t] /\ not_terminator t = false) ->
  Forall (fun c => not_terminator c = true) run ->
  exists later,
    findall_from u QUESTION_PATTERN prev (pre ++ run ++ 63%N :: rest) O =
    (run ++ [63%N]) :: later.
Proof.
  induction pre as [|c pre IH]; intros prev run rest Hq Hend Hrun.
  - simpl app.
    destruct (@findall_from_match _ _ _ _ (question_match_run prev rest Hrun))
      as (later & Hl).
    exists later. rewrite Hl. f_equal.
    replace (S (List.length run)) with (List.length run + 1)%nat by lia.
    rewrite firstn_app_2. reflexivity.
  - destruct Hend as [Hnil|(p & t & Hpt & Ht)]; [discriminate|].
    simpl app.
    assert (Hnone : match_here u QUESTION_PATTERN prev
                      (c :: pre ++ run ++ 63%N :: rest) = None).
    { change (c :: pre ++ run ++ 63%N :: rest)
        with ((c :: pre) ++ run ++ 63%N :: rest).
      rewrite Hpt, <- app_assoc. simpl app.
      destruct (run_prefix p) as (r0 & rest0 & -> & Hr0 & Hrest0).
      rewrite <- app_assoc.
      apply question_match_stop; [exact Hr0|].
      assert (Hqt : forall x, In x (r0 ++ rest0 ++ [t]) -> is_qmark x = false).
      { intros x Hx. apply Hq. rewrite Hpt, <- app_assoc. exact Hx. }
      destruct rest0 as [|c0 rest0]; simpl.
      - split; [|exact Ht]. apply Hqt. apply in_or_app. right. now left.
      - split; [|exact Hrest0]. apply Hqt. apply in_or_app. right. now left. }
    rewrite (@findall_from_skip _ _ _ _ Hnone).
    apply IH; [| |exact Hrun].
    + intros x Hx. apply Hq. now right.
    + destruct p as [|p0 p]; simpl in Hpt.
      * left. congruence.
      * right. exists p, t. split; [congruence|exact Ht].
Qed.

End QuestionPattern.

(** ** The score pattern *)

Lemma digit_1_5_range c :
  is_digit_1_5 c = true <-> (49 <= c <= 53)%N.
Proof.
  unfold is_digit_1_5, in_range. rewrite andb_true_iff, !N.leb_le. tauto.
Qed.

Lemma nth_error_0 (s : str) : nth_error s 0 = hd_error s.
Proof. destruct s; reflexivity. Qed.

Lemma int_of_digit_range d :
  is_digit_1_5 d = true -> (1 <= int_of_digit d <= 5)%Z.
Proof.
  intros H. apply digit_1_5_range in H. unfold int_of_digit. lia.
Qed.

Section ScorePattern.

Variable u : char -> bool.

Lemma digit_is_word c : is_digit_1_5 c = true -> is_word u c = true.
Proof.
  intros H. apply digit_1_5_range in H. unfold is_word.
  assert (Hlt : (c <? 128)%N = true) by (apply N.ltb_lt; lia).
  rewrite Hlt. unfold in_range.
  assert (H1 : (48 <=? c)%N = true) by (apply N.leb_le; lia).
  assert (H2 : (c <=? 57)%N = true) by (apply N.leb_le; lia).
  rewrite H1, H2. reflexivity.
Qed.

(** The pattern matches at the front of [s] exactly when [s] starts
    with a digit 1 to 5 between two non-word positions. *)
Lemma score_match_here prev (s : str) :
  match_here u SCORE_PATTERN prev s =
  match s with
  | c :: s' =>
      if (is_digit_1_5 c && negb (is_word_opt u prev)
          && negb (is_word_opt u (hd_error s')))%bool
      then Some 1%nat else None
  | [] => None
  end.
Proof.
  destruct s as [|c s']; cbn.
  - destruct (at_boundary u prev None); reflexivity.
  - unfold at_boundary. cbn [is_word_opt].
    destruct (is_digit_1_5 c) eqn:Hd.
    + rewrite (digit_is_word _ Hd). rewrite xorb_true_r. cbn [xorb].
      destruct (is_word_opt u prev); cbn; [reflexivity|].
      destruct (is_word_opt u (hd_error s')); reflexivity.
    + cbn. destruct (xorb _ _); reflexivity.
Qed.

Lemma standalone_from_cons prev c (s : str) j d :
  standalone_from u prev (c :: s) (S j) d <->
  standalone_from u (Some c) s j d.
Proof.
  unfold standalone_from. cbn [nth_error char_before].
  destruct j; cbn [nth_error char_before]; tauto.
Qed.

Lemma standalone_from_head prev c (s : str) d :
  standalone_from u prev (c :: s) 0 d <->
  d = c /\
  (is_digit_1_5 c && negb (is_word_opt u prev)
   && negb (is_word_opt u (hd_error s)))%bool = true.
Proof.
  unfold standalone_from. cbn [char_before].
  change (nth_error (c :: s) 1) with (nth_error s 0).
  change (nth_error (c :: s) 0) with (Some c).
  rewrite nth_error_0, !andb_true_iff, !negb_true_iff.
  split.
  - intros (E & Hd & Hp & Hn). inversion E; subst. tauto.
  - intros (-> & (Hd & Hp) & Hn). tauto.
Qed.

(** [re.search] stops at the first standalone digit, and finds nothing
    only when there is none. *)
Lemma search_from_first (s : str) : forall prev start,
  option_map snd (search_from u SCORE_PATTERN prev s start) =
  option_map (fun d => [d]) (first_standalone u prev s).
Proof.
  induction s as [|c s IH]; intros prev start.
  - cbn [search_from first_standalone]. rewrite score_match_here.
    reflexivity.
  - cbn [search_from first_standalone]. rewrite score_match_here.
    destruct (is_digit_1_5 c && negb (is_word_opt u prev)
              && negb (is_word_opt u (hd_error s)))%bool.
    + reflexivity.
    + apply IH.
Qed.

Lemma first_standalone_spec (s : str) : forall prev,
  match first_standalone u prev s with
  | Some d =>
      exists i,
        standalone_from u prev s i d /\
        (forall j d', (j < i)%nat -> ~ standalone_from u prev s j d')
  | None => forall j d', ~ standalone_from u prev s j d'
  end.
Proof.
  induction s as [|c s IH]; intros prev.
  - cbn [first_standalone].
    intros j d' (Hn & _). destruct j; discriminate.
  - cbn [first_standalone].
    destruct (is_digit_1_5 c && negb (is_word_opt u prev)
              && negb (is_word_opt u (hd_error s)))%bool eqn:Hc.
    + exists O. split; [apply standalone_from_head; auto|].
      intros j d' Hj. lia.
    + specialize (IH (Some c)).
      destruct (first_standalone u (Some c) s) as [d|].
      * destruct IH as (i & Hst & Hfirst).
        exists (S i). split; [apply standalone_from_cons; exact Hst|].
        intros j d' Hj Hs. destruct j.
        -- apply standalone_from_head in Hs. destruct Hs as [_ Hs].
           congruence.
        -- apply standalone_from_cons in Hs.
           apply (Hfirst j d'); [lia | exact Hs].
      * intros j d' Hs. destruct j.
        -- apply standalone_from_head in Hs. destruct Hs as [_ Hs].
           congruence.
        -- apply standalone_from_cons in Hs. apply (IH j d'). exact Hs.
Qed.

(** White space is never part of a word: no code point that
    [str.isspace] accepts is alphanumeric. *)
Hypothesis space_not_alnum :
  forall c, (128 <= c)%N -> is_space c = true -> u c = false.

Lemma space_not_word c : is_space c = true -> is_word u c = false.
Proof using space_not_alnum.
  intros Hs. unfold is_word.
  destruct (N.ltb_spec c 128) as [Hlt|Hge].
  - assert (Hc : (c <= 32)%N).
    { unfold is_space, in_range, char_eqb in Hs.
      rewrite !orb_true_iff, !andb_true_iff, !N.leb_le, !N.eqb_eq in Hs.
      lia. }
    unfold in_range, char_eqb.
    assert (H1 : (48 <=? c)%N = false) by (apply N.leb_gt; lia).
    assert (H2 : (65 <=? c)%N = false) by (apply N.leb_gt; lia).
    assert (H3 : (97 <=? c)%N = false) by (apply N.leb_gt; lia).
    assert (H4 : (c =? 95)%N = false) by (apply N.eqb_neq; lia).
    rewrite H1, H2, H3, H4. reflexivity.
  - apply space_not_alnum; assumption.
Qed.

Lemma space_not_digit c : is_space c = true -> is_digit_1_5 c = false.
Proof using space_not_alnum.
  intros Hs. destruct (is_digit_1_5 c) eqn:Hd; [|reflexivity].
  apply digit_is_word in Hd. rewrite (space_not_word _ Hs) in Hd.
  discriminate.
Qed.

Lemma first_standalone_prev (s : str) prev prev' :
  is_word_opt u prev = is_word_opt u prev' ->
  first_standalone u prev s = first_standalone u prev' s.
Proof.
  intros H. destruct s; cbn [first_standalone]; [reflexivity|].
  now rewrite H.
Qed.

Lemma first_standalone_leading (ws : str) : forall prev prev' s,
  Forall (fun c => is_space c = true) ws ->
  is_word_opt u prev = false ->
  is_word_opt u prev' = false ->
  first_standalone u prev (ws ++ s) = first_standalone u prev' s.
Proof using space_not_alnum.
  induction ws as [|c ws IH]; intros prev prev' s Hws Hp Hp'.
  - apply first_standalone_prev. congruence.
  - inversion Hws as [|? ? Hc Hws']; subst.
    simpl app. cbn [first_standalone].
    rewrite (space_not_digit _ Hc). cbn [andb].
    apply IH; [exact Hws'| |exact Hp'].
    cbn [is_word_opt]. apply space_not_word, Hc.
Qed.

Lemma first_standalone_spaces (ws : str) : forall prev,
  Forall (fun c => is_space c = true) ws ->
  first_standalone u prev ws = None.
Proof using space_not_alnum.
  induction ws as [|c ws IH]; intros prev Hws; [reflexivity|].
  inversion Hws as [|? ? Hc Hws']; subst.
  cbn [first_standalone]. rewrite (space_not_digit _ Hc). cbn [andb].
  apply IH, Hws'.
Qed.

Lemma first_standalone_trailing (s : str) : forall prev ws,
  Forall (fun c => is_space c = true) ws ->
  first_standalone u prev (s ++ ws) = first_standalone u prev s.
Proof using space_not_alnum.
  induction s as [|c s IH]; intros prev ws Hws.
  - simpl app. now rewrite first_standalone_spaces.
  - simpl app. cbn [first_standalone]. rewrite IH by exact Hws.
    replace (is_word_opt u (hd_error (s ++ ws)))
      with (is_word_opt u (hd_error s)); [reflexivity|].
    destruct s as [|c' s]; [|reflexivity].
    destruct Hws as [|c' ws Hc' _]; [reflexivity|].
    cbn. symmetry. apply space_not_word, Hc'.
Qed.

Lemma lstrip_split (s : str) :
  exists ws,
    s = ws ++ lstrip s /\ Forall (fun c => is_space c = true) ws.
Proof.
  induction s as [|c s (ws & Hs & Hws)].
  - exists []. simpl. auto.
  - cbn [lstrip]. destruct (is_space c) eqn:Hc.
    + exists (c :: ws). simpl. split; [congruence|auto].
    + exists []. simpl. auto.
Qed.

(** [strip] does not move the first standalone digit. *)
Lemma first_standalone_strip (s : str) :
  first_standalone u None (strip s) = first_standalone u None s.
Proof using space_not_alnum.
  unfold strip.
  destruct (lstrip_split s) as (ws1 & Hs & Hws1).
  destruct (lstrip_split (rev (lstrip s))) as (ws2 & Hr & Hws2).
  set (core := rev (lstrip (rev (lstrip s)))).
  assert (Ha : lstrip s = core ++ rev ws2).
  { unfold core. rewrite <- rev_app_distr, <- Hr. now rewrite rev_involutive. }
  rewrite Hs at 1. rewrite Ha.
  rewrite (@first_standalone_leading ws1 None None) by (auto).
  rewrite first_standalone_trailing; [reflexivity|].
  apply Forall_rev. exact Hws2.
Qed.

End ScorePattern.

(** ** Subscripts and conversions *)

Lemma getitem_key_raises j k e :
  getitem_key j k = Raised e -> e = KeyError \/ e = TypeError.
Proof.
  unfold getitem_key.
  destruct j; try (intros H; inversion H; auto; fail).
  destruct (obj_get o k); intros H; inversion H; auto.
Qed.

Lemma getitem_0_raises j e :
  getitem_0 j = Raised e ->
  e = KeyError \/ e = IndexError \/ e = TypeError.
Proof.
  unfold getitem_0.
  destruct j as [| | | |[|c s]|[|x l]|o]; intros H; inversion H; auto.
Qed.

(** What [json_text] can raise is not caught by [evaluate_response]. *)
Lemma json_text_raises j e :
  json_text j = Raised e ->
  e = KeyError \/ e = IndexError \/ e = TypeError.
Proof.
  unfold json_text.
  destruct (getitem_key j (lit "choices")) as [cs|e1] eqn:E1; cbn [rbind].
  - destruct (getitem_0 cs) as [c0|e2] eqn:E2; cbn [rbind].
    + intros H. apply getitem_key_raises in H. tauto.
    + intros H. inversion H; subst. apply getitem_0_raises in E2. exact E2.
  - intros H. inversion H; subst. apply getitem_key_raises in E1. tauto.
Qed.

Lemma py_int_digit d :
  is_digit_1_5 d = true -> py_int [d] = Returned (int_of_digit d).
Proof.
  intros H. apply digit_1_5_range in H. unfold py_int, in_range.
  assert (H1 : (48 <=? d)%N = true) by (apply N.leb_le; lia).
  assert (H2 : (d <=? 57)%N = true) by (apply N.leb_le; lia).
  rewrite H1, H2. reflexivity.
Qed.

(** ** Comprehensions *)

Lemma dict_of_pairs_fresh {V} (pairs : list (BotId * V)) :
  forall acc,
    NoDup (dict_keys acc ++ dict_keys pairs) ->
    dict_of_pairs pairs acc = acc ++ pairs.
Proof.
  induction pairs as [|[k v] pairs IH]; intros acc Hnd.
  - simpl. now rewrite app_nil_r.
  - simpl. rewrite dict_set_fresh.
    + rewrite IH.
      * now rewrite <- app_assoc.
      * rewrite dict_keys_app, <- app_assoc. exact Hnd.
    + intros Hin. simpl in Hnd. apply NoDup_remove_2 in Hnd.
      apply Hnd. apply in_or_app. now left.
Qed.

Lemma dict_keys_combine {V} (keys : list BotId) (vs : list V) :
  List.length keys = List.length vs ->
  dict_keys (combine keys vs) = keys.
Proof.
  revert vs. induction keys as [|k keys IH]; intros [|v vs] Hlen;
    simpl in *; try discriminate; [reflexivity|].
  f_equal. apply IH. congruence.
Qed.

Lemma empty_rows_fresh (keys : list BotId) :
  forall acc,
    NoDup (dict_keys acc ++ keys) ->
    empty_rows keys acc = acc ++ map (fun k => (k, [])) keys.
Proof.
  induction keys as [|k keys IH]; intros acc Hnd.
  - simpl. now rewrite app_nil_r.
  - simpl. rewrite dict_set_fresh.
    + rewrite IH.
      * now rewrite <- app_assoc.
      * rewrite dict_keys_app, <- app_assoc. exact Hnd.
    + intros Hin. apply NoDup_remove_2 in Hnd.
      apply Hnd. apply in_or_app. now left.
Qed.

(** ** Score tables *)

Lemma table_set_keys scores b1 b2 z scores' :
  table_set scores b1 b2 z = Returned scores' ->
  dict_keys scores' = dict_keys scores.
Proof.
  unfold table_set. destruct (dict_get scores b1) as [row|] eqn:E;
    [|discriminate].
  intros H. inversion H; subst.
  apply dict_keys_set_in. eapply dict_get_some_key; eauto.
Qed.

Lemma table_set_entry scores b1 b2 z scores' :
  table_set scores b1 b2 z = Returned scores' ->
  forall x y,
    has_entry scores' x y <-> has_entry scores x y \/ (x = b1 /\ y = b2).
Proof.
  unfold table_set. destruct (dict_get scores b1) as [row|] eqn:E;
    [|discriminate].
  intros H x y. inversion H; subst. clear H. unfold has_entry.
  split.
  - intros (r & s & Hr & Hs). rewrite dict_get_set in Hr.
    destruct (String.eqb_spec x b1) as [->|Hx].
    + inversion Hr; subst. rewrite dict_get_set in Hs.
      destruct (String.eqb_spec y b2) as [->|Hy].
      * right. split; reflexivity.
      * left. exists row, s. split; assumption.
    + left. exists r, s. split; assumption.
  - intros [(r & s & Hr & Hs)|[-> ->]].
    + destruct (String.eqb_spec x b1) as [->|Hx].
      * assert (r = row) by congruence. subst r.
        exists (dict_set row b2 z).
        exists (if String.eqb y b2 then z else s).
        rewrite !dict_get_set, String.eqb_refl. split; [reflexivity|].
        destruct (String.eqb y b2); [reflexivity|exact Hs].
      * exists r, s. rewrite dict_get_set.
        destruct (String.eqb_spec x b1); [contradiction|].
        split; assumption.
    + exists (dict_set row b2 z), z.
      rewrite !dict_get_set, !String.eqb_refl. split; reflexivity.
Qed.

Lemma empty_rows_no_entry (keys : list BotId) :
  NoDup keys ->
  dict_keys (empty_rows keys []) = keys /\
  (forall b row, In (b, row) (empty_rows keys []) -> row = []) /\
  (forall x y, ~ has_entry (empty_rows keys []) x y).
Proof.
  intros Hnd. rewrite empty_rows_fresh by exact Hnd. simpl app.
  assert (Hrows : forall b (row : dict Z),
             In (b, row) (map (fun k : BotId => (k, [])) keys) -> row = []).
  { intros b row Hin. apply in_map_iff in Hin.
    destruct Hin as (k & E & _). congruence. }
  split; [|split].
  - unfold dict_keys. rewrite map_map. simpl. apply map_id.
  - exact Hrows.
  - intros x y (row & s & Hr & Hs). apply dict_get_in in Hr.
    apply Hrows in Hr. subst row. discriminate.
Qed.

(** ** The lowest score of a row *)

Lemma get_score_in (row : dict Z) b z :
  dict_wf row -> In (b, z) row -> get_score row b = z.
Proof.
  intros Hwf Hin. unfold get_score. now rewrite (in_dict_get _ _ Hwf Hin).
Qed.

(** [min(score_dict, key=score_dict.get)] is the first subject of lowest
    score: the subjects before it score strictly more, the subjects after
    it score at least as much. *)
Lemma lowest_scored_first (row : dict Z) :
  dict_wf row ->
  row <> [] ->
  exists pre P z post,
    row = pre ++ (P, z) :: post /\
    lowest_scored row = Returned P /\
    (forall b s, In (b, s) pre -> (z < s)%Z) /\
    (forall b s, In (b, s) post -> (z <= s)%Z).
Proof.
  intros Hwf Hne. unfold lowest_scored.
  assert (Hkeys : exists b0 ks, dict_keys row = b0 :: ks).
  { destruct row as [|[b0 z0] rest]; [congruence|].
    exists b0, (dict_keys rest). reflexivity. }
  destruct Hkeys as (b0 & ks & Hkeys).
  rewrite Hkeys. cbn [py_min]. rewrite min_loop_as_max.
  destruct (max_loop_split (get_score row) (fun a b => Z.ltb b a)) with
    (xs := ks) (best := b0) as (kpre & kpost & Heq & Hpre & Hpost).
  { intros a b c H1 H2. apply Z.ltb_lt in H1, H2. apply Z.ltb_lt. lia. }
  { intros a b c H1 H2. apply Z.ltb_ge in H1. apply Z.ltb_lt in H2.
    apply Z.ltb_lt. lia. }
  set (P := max_loop (get_score row) (fun a b => Z.ltb b a) b0 ks) in *.
  rewrite <- Hkeys in Heq. unfold dict_keys in Heq.
  apply map_eq_app in Heq. destruct Heq as (pre & tl & Hsplit & Hkpre & Htl).
  apply map_eq_cons in Htl.
  destruct Htl as ([P' z] & post & -> & HP & Hkpost).
  simpl in HP. subst P'.
  assert (Hin : forall b s, In (b, s) pre \/ In (b, s) post \/ (b, s) = (P, z)
                       -> get_score row b = s).
  { intros b s H. apply get_score_in; [exact Hwf|].
    rewrite Hsplit. apply in_or_app.
    destruct H as [H|[H|H]]; [now left | right; now right | right; now left]. }
  exists pre, P, z, post. split; [exact Hsplit|]. split; [reflexivity|].
  split.
  - intros b s Hb. rewrite <- (Hin b s), <- (Hin P z) by auto.
    apply Z.ltb_lt. apply Hpre. rewrite <- Hkpre.
    apply (in_map fst) in Hb. exact Hb.
  - intros b s Hb. rewrite <- (Hin b s), <- (Hin P z) by auto.
    apply Z.ltb_ge. apply Hpost. rewrite <- Hkpost.
    apply (in_map fst) in Hb. exact Hb.
Qed.

Lemma lowest_scored_empty : lowest_scored [] = Raised ValueError.
Proof. reflexivity. Qed.

Lemma min_loop_in {A B} (key : A -> B) (lt : B -> B -> bool) xs :
  forall best, In (min_loop key lt best xs) (best :: xs).
Proof.
  induction xs as [|x xs IH]; intros best; simpl.
  - now left.
  - destruct (IH (if lt (key x) (key best) then x else best)) as [E|Hin].
    + destruct (lt (key x) (key best)); [right; left | left]; exact E.
    + right. right. exact Hin.
Qed.

Lemma lowest_scored_in (row : dict Z) :
  row <> [] ->
  exists P, lowest_scored row = Returned P /\ In P (dict_keys row).
Proof.
  intros Hne. unfold lowest_scored.
  destruct row as [|[b0 z0] rest]; [congruence|].
  cbn [dict_keys map fst py_min].
  eexists. split; [reflexivity|]. apply min_loop_in.
Qed.

Lemma in_dict_keys_inv {V} (d : dict V) k :
  In k (dict_keys d) -> exists v, In (k, v) d.
Proof.
  unfold dict_keys. intros H. apply in_map_iff in H.
  destruct H as ([k' v] & E & Hin). simpl in E. subst k'. eauto.
Qed.

Lemma dict_get_key {V} (d : dict V) k :
  In k (dict_keys d) -> exists v, dict_get d k = Some v.
Proof.
  intros H. destruct (dict_get d k) as [v|] eqn:E; [eauto|].
  apply dict_get_none in E. contradiction.
Qed.

(** Two keys at least: every key has another one beside it. *)
Lemma another_key (keys : list BotId) b :
  NoDup keys -> (2 <= List.length keys)%nat -> In b keys ->
  exists b', In b' keys /\ b' <> b.
Proof.
  intros Hnd Hlen Hin.
  destruct keys as [|k1 [|k2 keys]]; simpl in Hlen; try lia.
  inversion Hnd as [|? ? Hnot _]; subst.
  destruct (String.eqb_spec k1 b) as [->|Hne].
  - exists k2. split; [right; now left|].
    intros ->. apply Hnot. now left.
  - exists k1. split; [now left|exact Hne].
Qed.

(** ** The selector: which exception, and which value *)

Lemma dict_getitem_raises {V} (d : dict V) k e :
  dict_getitem d k = Raised e -> e = KeyError.
Proof.
  unfold dict_getitem. destruct (dict_get d k); [discriminate|]. congruence.
Qed.

Lemma max_loop_in {A B} (key : A -> B) (lt : B -> B -> bool) xs :
  forall best, In (max_loop key lt best xs) (best :: xs).
Proof.
  induction xs as [|x xs IH]; intros best; simpl.
  - now left.
  - destruct (IH (if lt (key best) (key x) then x else best)) as [E|Hin].
    + destruct (lt (key best) (key x)); [right; left | left]; exact E.
    + right. right. exact Hin.
Qed.

Lemma py_max_in {A B} (key : A -> B) (lt : B -> B -> bool) xs best :
  py_max key lt xs = Returned best -> In best xs.
Proof.
  destruct xs as [|x xs]; [discriminate|]. cbn. intros H. inversion H.
  apply max_loop_in.
Qed.

(** X1: for a score table without duplicate bots, [select_best_response]
    raises ZeroDivisionError only when some row of the table is empty,
    and always then when the scores lie from 1 to 5; it raises ValueError
    exactly when the table itself is empty; what it returns is the
    candidate of a bot of the table. *)
Theorem select_best_response_outcomes :
  forall (clarifications : dict pyval) (scores : ScoreTable),
    dict_wf scores ->
    (select_best_response clarifications scores = Raised ZeroDivisionError
     -> exists b, dict_get scores b = Some []) /\
    (scores_in_range scores ->
     (exists b, dict_get scores b = Some []) ->
     select_best_response clarifications scores = Raised ZeroDivisionError)
    /\
    (select_best_response clarifications scores = Raised ValueError
     <-> scores = []) /\
    (forall v,
        select_best_response clarifications scores = Returned v ->
        exists best,
          In best (dict_keys scores) /\
          dict_get clarifications best = Some v).
Proof.
  intros clarifications scores Hwf.
  assert (Hout :
    match avg_scores_loop scores [] with
    | Raised e =>
        select_best_response clarifications scores = Raised e /\
        ((e = ZeroDivisionError /\ exists b, In (b, []) scores) \/
         e = OverflowError)
    | Returned avg =>
        dict_keys avg = dict_keys scores /\
        select_best_response clarifications scores =
        rbind (py_max (get_avg avg) Qlt_bool (dict_keys avg))
          (dict_getitem clarifications)
    end).
  { unfold select_best_response.
    destruct (avg_scores_loop scores []) as [avg|e] eqn:E.
    - split; [|reflexivity].
      apply avg_scores_loop_keys in E; [exact E | exact Hwf].
    - split; [reflexivity|]. eapply avg_scores_loop_raises. exact E. }
  destruct (avg_scores_loop scores []) as [avg|e] eqn:Eavg.
  - destruct Hout as [Hkeys Hsel]. rewrite Hsel, Hkeys.
    destruct (py_max (get_avg avg) Qlt_bool (dict_keys scores))
      as [best|e] eqn:Emax; cbn [rbind].
    + apply py_max_in in Emax.
      split; [|split; [|split]].
      * intros H. apply dict_getitem_raises in H. discriminate.
      * intros Hrange (b & Hb). exfalso.
        apply dict_get_in in Hb.
        pose proof (@avg_scores_loop_empty_row scores [] b Hrange Hb) as Hz.
        congruence.
      * split.
        -- intros H. apply dict_getitem_raises in H. discriminate.
        -- intros ->. destruct Emax.
      * intros v Hv. exists best. split; [exact Emax|].
        unfold dict_getitem in Hv.
        destruct (dict_get clarifications best); congruence.
    + destruct scores as [|[b0 row0] rest]; [|discriminate Emax].
      cbn in Emax. inversion Emax; subst e.
      split; [|split; [|split]].
      * discriminate.
      * intros _ (b & Hb). discriminate.
      * split; reflexivity.
      * discriminate.
  - destruct Hout as [Hsel Hwhy]. rewrite Hsel.
    split; [|split; [|split]].
    + intros He. destruct Hwhy as [[_ (b & Hb)]|Hov].
      * exists b. now apply in_dict_get.
      * congruence.
    + intros Hrange (b & Hb). apply dict_get_in in Hb.
      pose proof (@avg_scores_loop_empty_row scores [] b Hrange Hb) as Hz.
      congruence.
    + split.
      * intros He. destruct Hwhy as [[Hz _]|Hov]; congruence.
      * intros ->. cbn in Eavg. discriminate.
    + discriminate.
Qed.

(** ** Where the first question of a text begins *)

Lemma is_qmark_eq c : is_qmark c = true <-> c = 63%N.
Proof. unfold is_qmark, char_eqb. apply N.eqb_eq. Qed.

Lemma first_qmark (t : str) :
  In 63%N t ->
  exists a rest,
    t = a ++ 63%N :: rest /\ (forall c, In c a -> is_qmark c = false).
Proof.
  induction t as [|c t IH]; intros Hin; [destruct Hin|].
  destruct (is_qmark c) eqn:Hc.
  - apply is_qmark_eq in Hc. subst c. exists [], t. split; [reflexivity|].
    intros ? [].
  - destruct Hin as [E|Hin].
    + subst c. discriminate.
    + destruct (IH Hin) as (a & rest & -> & Ha).
      exists (c :: a), rest. split; [reflexivity|].
      intros x [<-|Hx]; [exact Hc | now apply Ha].
Qed.

Lemma run_suffix (a : str) :
  exists pre run,
    a = pre ++ run /\
    Forall (fun c => not_terminator c = true) run /\
    (pre = [] \/ exists p x, pre = p ++ [x] /\ not_terminator x = false).
Proof.
  induction a as [|x a IH] using rev_ind.
  - exists [], []. simpl. auto.
  - destruct (not_terminator x) eqn:Hx.
    + destruct IH as (pre & run & -> & Hrun & Hpre).
      exists pre, (run ++ [x]). rewrite app_assoc. split; [reflexivity|].
      split; [|exact Hpre].
      apply Forall_app. split; [exact Hrun|]. now constructor.
    + exists (a ++ [x]), []. rewrite app_nil_r. split; [reflexivity|].
      split; [constructor|]. right. exists a, x. auto.
Qed.

Lemma at_most_one {A} (l : list A) :
  (List.length l <= 1)%nat -> l = [] \/ exists x, l = [x].
Proof.
  destruct l as [|x [|y l]]; simpl; intros H.
  - now left.
  - right. now exists x.
  - lia.
Qed.

Lemma select_best_response_member clarifications scores v :
  select_best_response clarifications scores = Returned v ->
  exists best, dict_get clarifications best = Some v.
Proof.
  unfold select_best_response.
  destruct (avg_scores_loop scores []) as [avg|e]; cbn [rbind];
    [|discriminate].
  destruct (py_max (get_avg avg) Qlt_bool (dict_keys avg)) as [best|e];
    cbn [rbind]; [|discriminate].
  unfold dict_getitem. intros H. exists best.
  destruct (dict_get clarifications best); congruence.
Qed.

(** ** The coroutines: facts

    The parameters of the program again, and its functions at these
    parameters. *)

Section CoroutineFacts.

Variable unicode_isalnum : char -> bool.
Variable py_str : json -> str.
Variable CHATBOT_APIS : dict str.
Variable API_KEYS : dict str.
Variable World : Type.
Variable transport : World -> request -> result json * World.

Local Abbreviation session_post := (session_post transport).
Local Abbreviation send_to_chatbot := (send_to_chatbot API_KEYS transport).
Local Abbreviation get_responses_from_chatbots :=
  (get_responses_from_chatbots CHATBOT_APIS API_KEYS transport).
Local Abbreviation format_value := (format_value py_str).
Local Abbreviation search_group := (search_group unicode_isalnum).
Local Abbreviation score_of_reply := (score_of_reply unicode_isalnum).
Local Abbreviation evaluation_request := (evaluation_request py_str).
Local Abbreviation evaluate_response :=
  (evaluate_response unicode_isalnum py_str CHATBOT_APIS API_KEYS
     transport).
Local Abbreviation evaluate_inner :=
  (evaluate_inner unicode_isalnum py_str CHATBOT_APIS API_KEYS transport).
Local Abbreviation evaluate_outer :=
  (evaluate_outer unicode_isalnum py_str CHATBOT_APIS API_KEYS transport).
Local Abbreviation evaluate_responses :=
  (evaluate_responses unicode_isalnum py_str CHATBOT_APIS API_KEYS
     transport).
Local Abbreviation generate_clarification_question :=
  (generate_clarification_question unicode_isalnum).
Local Abbreviation clarify_one :=
  (clarify_one unicode_isalnum CHATBOT_APIS API_KEYS transport).
Local Abbreviation clarify_loop :=
  (clarify_loop unicode_isalnum CHATBOT_APIS API_KEYS transport).
Local Abbreviation interact_between_bots :=
  (interact_between_bots unicode_isalnum py_str CHATBOT_APIS API_KEYS
     transport).

(** ** The clarification question *)

(** C7 (as amended): the question is a function of the answer text alone;
    the text "It works. Have you tried restarting?" gives
    "Can you clarify the following:  Have you tried restarting?", where the
    match keeps the blank that follows the full stop; and a text without
    a question mark gives "Can you provide more details about: " followed
    by its first 100 characters. *)
Theorem generate_clarification_question_spec :
  (forall r1 r2 t,
      choices_0_text r1 = Returned (JStr t) ->
      choices_0_text r2 = Returned (JStr t) ->
      generate_clarification_question r1 =
      generate_clarification_question r2) /\
  generate_clarification_question
    (Val (answer (lit "It works. Have you tried restarting?"))) =
  Returned (lit "Can you clarify the following:  Have you tried restarting?")
  /\
  (forall r t,
      choices_0_text r = Returned (JStr t) ->
      (forall c, In c t -> is_qmark c = false) ->
      generate_clarification_question r =
      Returned (lit "Can you provide more details about: " ++ firstn 100 t)).
Proof.
  split; [|split].
  - intros r1 r2 t H1 H2. unfold generate_clarification_question.
    rewrite H1, H2. reflexivity.
  - vm_compute. reflexivity.
  - intros r t Ht Hq. unfold generate_clarification_question.
    rewrite Ht. cbn [rbind]. unfold re_findall.
    rewrite findall_no_qmark by exact Hq. reflexivity.
Qed.

(** When the text has a question mark, the question quotes the characters
    from the last ['.'] or ['!'] before the first ['?'] up to that ['?']. *)
Lemma generate_clarification_question_first r (pre run rest : str) :
  choices_0_text r = Returned (JStr (pre ++ run ++ 63%N :: rest)) ->
  (forall c, In c pre -> is_qmark c = false) ->
  (pre = [] \/ exists p t, pre = p ++ [t] /\ not_terminator t = false) ->
  Forall (fun c => not_terminator c = true) run ->
  generate_clarification_question r =
  Returned (lit "Can you clarify the following: " ++ run ++ [63%N]).
Proof.
  intros Ht Hq Hend Hrun. unfold generate_clarification_question.
  rewrite Ht. cbn [rbind]. unfold re_findall.
  destruct (findall_first unicode_isalnum None rest Hq Hend Hrun)
    as (later & ->).
  reflexivity.
Qed.

(** ** The bot client *)

Lemma send_to_chatbot_unfold chatbot url question w :
  send_to_chatbot chatbot url question w =
  match dict_get API_KEYS chatbot with
  | None => (Raised KeyError, w)
  | Some api_key =>
      match transport w {| req_url := url;
                           req_authorization := bearer api_key;
                           req_prompt := question;
                           req_max_tokens := 150 |} with
      | (Returned j, w') => (Returned j, w')
      | (Raised e, w') =>
          if is_ClientError e then (Returned SENTINEL, w')
          else (Raised e, w')
      end
  end.
Proof.
  unfold send_to_chatbot, bind, lift, try_except, session_post, ret,
    dict_getitem.
  destruct (dict_get API_KEYS chatbot); reflexivity.
Qed.

(** A failure of class [aiohttp.ClientError] becomes the sentinel answer. *)
Lemma send_to_chatbot_client_error chatbot url question api_key w w' e :
  dict_get API_KEYS chatbot = Some api_key ->
  transport w {| req_url := url;
                 req_authorization := bearer api_key;
                 req_prompt := question;
                 req_max_tokens := 150 |} = (Raised e, w') ->
  is_ClientError e = true ->
  send_to_chatbot chatbot url question w = (Returned SENTINEL, w').
Proof.
  intros Hk Ht He. rewrite send_to_chatbot_unfold, Hk, Ht, He. reflexivity.
Qed.

(** A failure of any other class leaves [send_to_chatbot] as it is. *)
Lemma send_to_chatbot_other_error chatbot url question api_key w w' e :
  dict_get API_KEYS chatbot = Some api_key ->
  transport w {| req_url := url;
                 req_authorization := bearer api_key;
                 req_prompt := question;
                 req_max_tokens := 150 |} = (Raised e, w') ->
  is_ClientError e = false ->
  send_to_chatbot chatbot url question w = (Raised e, w').
Proof.
  intros Hk Ht He. rewrite send_to_chatbot_unfold, Hk, Ht, He. reflexivity.
Qed.

(** ** The peer evaluation of one answer *)

Lemma evaluate_response_unfold evaluator_bot response w :
  evaluate_response evaluator_bot response w =
  match dict_get API_KEYS evaluator_bot with
  | None => (Raised KeyError, w)
  | Some api_key =>
      match choices_0_text response with
      | Raised e => (Raised e, w)
      | Returned text =>
          match dict_get CHATBOT_APIS evaluator_bot with
          | None => (Raised KeyError, w)
          | Some url =>
              let (r, w') :=
                transport w (evaluation_request url api_key text) in
              match rbind r score_of_reply with
              | Returned z => (Returned z, w')
              | Raised e =>
                  if caught_by_evaluate e then (Returned 3%Z, w')
                  else (Raised e, w')
              end
          end
      end
  end.
Proof.
  unfold evaluate_response, bind, lift, try_except, session_post, ret,
    dict_getitem, score_of_reply, evaluation_request.
  destruct (dict_get API_KEYS evaluator_bot) as [api_key|]; [|reflexivity].
  destruct (choices_0_text response) as [text|e]; [|reflexivity].
  destruct (dict_get CHATBOT_APIS evaluator_bot) as [url|]; [|reflexivity].
  destruct (transport w _) as [[reply|e] w']; cbn [rbind]; [|reflexivity].
  destruct (json_text reply) as [reply_text|e]; cbn [rbind]; [|reflexivity].
  destruct (py_strip reply_text) as [score_text|e]; cbn [rbind];
    [|reflexivity].
  destruct (search_group score_text) as [g|e]; cbn [rbind]; [|reflexivity].
  destruct (py_int g); reflexivity.
Qed.

Lemma search_group_first (score_text : str) :
  search_group score_text =
  match first_standalone unicode_isalnum None score_text with
  | Some d => Returned [d]
  | None => Raised AttributeError
  end.
Proof.
  unfold search_group, re_search.
  pose proof (search_from_first unicode_isalnum score_text None O) as H.
  destruct (search_from unicode_isalnum SCORE_PATTERN None score_text 0)
    as [[k g]|];
    destruct (first_standalone unicode_isalnum None score_text);
    cbn in H; inversion H; reflexivity.
Qed.

Lemma first_standalone_digit prev (s : str) d :
  first_standalone unicode_isalnum prev s = Some d -> is_digit_1_5 d = true.
Proof.
  intros H. pose proof (first_standalone_spec unicode_isalnum s prev) as Hs.
  rewrite H in Hs. destruct Hs as (i & Hst & _). apply Hst.
Qed.

(** The score read in a reply whose text is the str [t]. *)
Lemma score_of_reply_text reply (t : str) :
  json_text reply = Returned (JStr t) ->
  score_of_reply reply =
  match first_standalone unicode_isalnum None (strip t) with
  | Some d => Returned (int_of_digit d)
  | None => Raised AttributeError
  end.
Proof.
  intros Ht. unfold score_of_reply. rewrite Ht. cbn [rbind py_strip].
  rewrite search_group_first.
  destruct (first_standalone unicode_isalnum None (strip t)) as [d|] eqn:E;
    cbn [rbind]; [|reflexivity].
  apply py_int_digit. eapply first_standalone_digit; eauto.
Qed.

Lemma score_of_reply_range reply z :
  score_of_reply reply = Returned z -> (1 <= z <= 5)%Z.
Proof.
  unfold score_of_reply.
  destruct (json_text reply) as [v|e]; cbn [rbind]; [|discriminate].
  destruct (py_strip v) as [st|e]; cbn [rbind]; [|discriminate].
  rewrite search_group_first.
  destruct (first_standalone unicode_isalnum None st) as [d|] eqn:E;
    cbn [rbind]; [|discriminate].
  apply first_standalone_digit in E. rewrite (@py_int_digit d E).
  intros H. inversion H. apply int_of_digit_range, E.
Qed.

Lemma standalone_first_unique (s : str) i d i' d' :
  standalone_digit unicode_isalnum s i d ->
  (forall j e, (j < i)%nat -> ~ standalone_digit unicode_isalnum s j e) ->
  standalone_digit unicode_isalnum s i' d' ->
  (forall j e, (j < i')%nat -> ~ standalone_digit unicode_isalnum s j e) ->
  d = d'.
Proof.
  intros Hs Hf Hs' Hf'.
  assert (i = i') as <-.
  { destruct (Nat.lt_trichotomy i i') as [Hlt|[E|Hlt]]; [|exact E|].
    - exfalso. apply (Hf' i d Hlt Hs).
    - exfalso. apply (Hf i' d' Hlt Hs'). }
  destruct Hs as [Hn _], Hs' as [Hn' _]. congruence.
Qed.

Lemma evaluate_response_in_range evaluator_bot response w z w' :
  evaluate_response evaluator_bot response w = (Returned z, w') ->
  (1 <= z <= 5)%Z.
Proof.
  intros H. rewrite evaluate_response_unfold in H.
  destruct (dict_get API_KEYS evaluator_bot); [|discriminate].
  destruct (choices_0_text response); [|discriminate].
  destruct (dict_get CHATBOT_APIS evaluator_bot); [|discriminate].
  destruct (transport w _) as [r w1].
  destruct (rbind r score_of_reply) as [z1|e1] eqn:E.
  - inversion H; subst. destruct r as [reply|e]; [|discriminate].
    eapply score_of_reply_range. exact E.
  - destruct (caught_by_evaluate e1); inversion H. lia.
Qed.

Lemma int_of_digit_value d :
  is_digit_1_5 d = true -> digit_value d (int_of_digit d).
Proof.
  intros H. apply digit_1_5_range in H.
  assert (Hd : d = 49%N \/ d = 50%N \/ d = 51%N \/ d = 52%N \/ d = 53%N)
    by lia.
  destruct Hd as [->|[->|[->|[->| ->]]]]; split; first [reflexivity | cbn; lia].
Qed.

(** C6 (as amended): a score [evaluate_response] returns is an integer
    from 1 to 5. When the evaluator's reply carries the text [t], the score
    is the number of the first standalone digit 1 to 5 of [t], and 3 when
    [t] has none; it is 3 when the text of the reply is not a str, and when
    the request fails with an [aiohttp.ClientError], a ValueError (a body
    that cannot be decoded) or an AttributeError. A reply without
    [choices[0].text] and any other failure of the request give no score:
    the exception leaves [evaluate_response]. *)
Theorem evaluate_response_score :
  (forall c, (128 <= c)%N -> is_space c = true -> unicode_isalnum c = false) ->
  forall evaluator_bot response w,
    (forall z w',
        evaluate_response evaluator_bot response w = (Returned z, w') ->
        (1 <= z <= 5)%Z) /\
    (forall api_key url text,
        dict_get API_KEYS evaluator_bot = Some api_key ->
        dict_get CHATBOT_APIS evaluator_bot = Some url ->
        choices_0_text response = Returned text ->
        (forall reply t w',
            transport w (evaluation_request url api_key text) =
              (Returned reply, w') ->
            json_text reply = Returned (JStr t) ->
            (forall i d,
                standalone_digit unicode_isalnum t i d ->
                (forall j d', (j < i)%nat ->
                   ~ standalone_digit unicode_isalnum t j d') ->
                exists z,
                  digit_value d z /\
                  evaluate_response evaluator_bot response w =
                    (Returned z, w')) /\
            ((forall i d, ~ standalone_digit unicode_isalnum t i d) ->
             evaluate_response evaluator_bot response w =
               (Returned 3%Z, w'))) /\
        (forall reply v w',
            transport w (evaluation_request url api_key text) =
              (Returned reply, w') ->
            json_text reply = Returned v ->
            (forall t, v <> JStr t) ->
            evaluate_response evaluator_bot response w =
              (Returned 3%Z, w')) /\
        (forall e w',
            transport w (evaluation_request url api_key text) =
              (Raised e, w') ->
            is_ClientError e = true \/ is_ValueError e = true \/
            is_AttributeError e = true ->
            evaluate_response evaluator_bot response w =
              (Returned 3%Z, w')) /\
        (forall reply e w',
            transport w (evaluation_request url api_key text) =
              (Returned reply, w') ->
            json_text reply = Raised e ->
            (e = KeyError \/ e = IndexError \/ e = TypeError) /\
            evaluate_response evaluator_bot response w = (Raised e, w')) /\
        (forall e w',
            transport w (evaluation_request url api_key text) =
              (Raised e, w') ->
            is_ClientError e = false ->
            is_ValueError e = false ->
            is_AttributeError e = false ->
            evaluate_response evaluator_bot response w = (Raised e, w'))).
Proof.
  intros Hspace evaluator_bot response w. split.
  - intros z w' H. eapply evaluate_response_in_range. exact H.
  - intros api_key url text Hk Hu Ht. split; [|split; [|split; [|split]]].
    + intros reply t w' Htr Hjt.
      assert (Hev : evaluate_response evaluator_bot response w =
                    match first_standalone unicode_isalnum None t with
                    | Some d => (Returned (int_of_digit d), w')
                    | None => (Returned 3%Z, w')
                    end).
      { rewrite evaluate_response_unfold, Hk, Ht, Hu, Htr. cbn [rbind].
        rewrite (@score_of_reply_text _ _ Hjt).
        rewrite (@first_standalone_strip _ Hspace).
        destruct (first_standalone unicode_isalnum None t); reflexivity. }
      pose proof (first_standalone_spec unicode_isalnum t None) as Hspec.
      destruct (first_standalone unicode_isalnum None t) as [d0|].
      * destruct Hspec as (i0 & Hs0 & Hf0). split.
        -- intros i d Hs Hf. exists (int_of_digit d). split.
           ++ apply int_of_digit_value. apply Hs.
           ++ rewrite Hev.
              now rewrite (standalone_first_unique Hs Hf Hs0 Hf0).
        -- intros Hno. exfalso. apply (Hno i0 d0). exact Hs0.
      * split.
        -- intros i d Hs _. exfalso. apply (Hspec i d). exact Hs.
        -- intros _. exact Hev.
    + intros reply v w' Htr Hjt Hv.
      rewrite evaluate_response_unfold, Hk, Ht, Hu, Htr. cbn [rbind].
      unfold score_of_reply. rewrite Hjt. cbn [rbind].
      destruct v; try reflexivity. exfalso. now apply (Hv s).
    + intros e w' Htr He.
      rewrite evaluate_response_unfold, Hk, Ht, Hu, Htr. cbn [rbind].
      unfold caught_by_evaluate.
      destruct He as [-> |[-> | ->]]; [reflexivity| |].
      * rewrite orb_true_r. reflexivity.
      * rewrite orb_true_r. reflexivity.
    + intros reply e w' Htr Hjt.
      pose proof (json_text_raises _ Hjt) as He. split; [exact He|].
      rewrite evaluate_response_unfold, Hk, Ht, Hu, Htr. cbn [rbind].
      unfold score_of_reply. rewrite Hjt. cbn [rbind].
      destruct He as [->|[->| ->]]; reflexivity.
    + intros e w' Htr H1 H2 H3.
      rewrite evaluate_response_unfold, Hk, Ht, Hu, Htr. cbn [rbind].
      unfold caught_by_evaluate. rewrite H1, H2, H3. reflexivity.
Qed.

(** ** The responder pool *)

(** [gather] never raises and fills one slot per task, each from the run
    of its own task. *)
Lemma gather_slots (tasks : list (M World json)) : forall w,
  exists vs w',
    gather tasks w = (Returned vs, w') /\
    Forall2 (fun t v => exists wt, v = slot_of (fst (t wt))) tasks vs.
Proof.
  induction tasks as [|t tasks IH]; intros w.
  - exists [], w. split; [reflexivity|constructor].
  - cbn [gather]. destruct (t w) as [r w1] eqn:Et.
    destruct (IH w1) as (vs & w2 & -> & Hall).
    exists (slot_of r :: vs), w2. split; [reflexivity|].
    constructor; [|exact Hall].
    exists w. now rewrite Et.
Qed.

Lemma slots_of_bots question (bots : dict str) : forall vs,
  Forall2 (fun t v => exists wt, v = slot_of (fst (t wt)))
    (map (fun '(chatbot, url) => send_to_chatbot chatbot url question) bots)
    vs ->
  List.length (dict_keys bots) = List.length vs /\
  forall chatbot url,
    In (chatbot, url) bots ->
    exists wb,
      In (chatbot,
          slot_of (fst (send_to_chatbot chatbot url question wb)))
         (combine (dict_keys bots) vs).
Proof.
  induction bots as [|[b u] bots IH]; intros vs Hall.
  - inversion Hall; subst. split; [reflexivity|]. intros ? ? [].
  - inversion Hall as [|t v ts vs' Hhead Htail]; subst.
    destruct (IH vs' Htail) as [Hlen Hin].
    split; [simpl; congruence|].
    intros chatbot url [E|Hrest].
    + inversion E; subst. destruct Hhead as (wt & ->).
      exists wt. now left.
    + destruct (Hin chatbot url Hrest) as (wb & Hwb).
      exists wb. now right.
Qed.

Lemma get_responses_from_chatbots_unfold question w :
  dict_wf CHATBOT_APIS ->
  exists vs w',
    get_responses_from_chatbots question w =
      (Returned (combine (dict_keys CHATBOT_APIS) vs), w') /\
    List.length (dict_keys CHATBOT_APIS) = List.length vs /\
    forall chatbot url,
      In (chatbot, url) CHATBOT_APIS ->
      exists wb,
        In (chatbot,
            slot_of (fst (send_to_chatbot chatbot url question wb)))
           (combine (dict_keys CHATBOT_APIS) vs).
Proof.
  intros Hwf. unfold get_responses_from_chatbots, bind, ret.
  destruct (gather_slots
              (map (fun '(chatbot, url) =>
                      send_to_chatbot chatbot url question) CHATBOT_APIS) w)
    as (vs & w' & Hg & Hall).
  rewrite Hg.
  destruct (slots_of_bots question CHATBOT_APIS Hall) as [Hlen Hin].
  exists vs, w'. split; [|split; assumption].
  rewrite dict_of_pairs_fresh; [reflexivity|].
  simpl. rewrite dict_keys_combine by exact Hlen. exact Hwf.
Qed.

(** C5: [get_responses_from_chatbots] always returns, and its result has
    exactly the keys of [CHATBOT_APIS], each once and in the same order.
    The entry of a bot is the outcome of that bot's own
    [send_to_chatbot]; in particular a bot whose request is answered with
    the body [j] has the entry [j], whatever happens to the other bots. *)
Theorem get_responses_from_chatbots_keys :
  dict_wf CHATBOT_APIS ->
  forall question w,
  exists responses w',
    get_responses_from_chatbots question w = (Returned responses, w') /\
    dict_keys responses = dict_keys CHATBOT_APIS /\
    dict_wf responses /\
    (forall chatbot url,
        In (chatbot, url) CHATBOT_APIS ->
        exists wb,
          dict_get responses chatbot =
          Some (slot_of (fst (send_to_chatbot chatbot url question wb))))
    /\
    (forall chatbot url api_key j,
        In (chatbot, url) CHATBOT_APIS ->
        dict_get API_KEYS chatbot = Some api_key ->
        (forall w0,
            fst (transport w0 {| req_url := url;
                                 req_authorization := bearer api_key;
                                 req_prompt := question;
                                 req_max_tokens := 150 |}) = Returned j) ->
        dict_get responses chatbot = Some (Val j)).
Proof.
  intros Hwf question w.
  destruct (get_responses_from_chatbots_unfold question w Hwf)
    as (vs & w' & Hrun & Hlen & Hin).
  set (responses := combine (dict_keys CHATBOT_APIS) vs) in *.
  assert (Hkeys : dict_keys responses = dict_keys CHATBOT_APIS)
    by (apply dict_keys_combine; exact Hlen).
  assert (Hwf' : dict_wf responses)
    by (unfold dict_wf; rewrite Hkeys; exact Hwf).
  assert (Hown : forall chatbot url,
             In (chatbot, url) CHATBOT_APIS ->
             exists wb,
               dict_get responses chatbot =
               Some (slot_of (fst (send_to_chatbot chatbot url question wb)))).
  { intros chatbot url Hbot. destruct (Hin chatbot url Hbot) as (wb & Hwb).
    exists wb. apply in_dict_get; assumption. }
  exists responses, w'. repeat split; try assumption.
  intros chatbot url api_key j Hbot Hkey Hok.
  destruct (Hown chatbot url Hbot) as (wb & ->).
  rewrite send_to_chatbot_unfold, Hkey.
  specialize (Hok wb).
  destruct (transport wb _) as [r w1]. simpl in Hok. subst r. reflexivity.
Qed.

(** ** The peer evaluator *)

(** One turn of the inner loop: the keys stay, and evaluator [b1] gains an
    entry for every other bot of [items] whose slot is not an exception. *)
Lemma evaluate_inner_entries b1 (items : list (BotId * pyval)) :
  forall scores w scores' w',
    evaluate_inner b1 items scores w = (Returned scores', w') ->
    dict_keys scores' = dict_keys scores /\
    forall x y,
      has_entry scores' x y <->
      has_entry scores x y \/
      (x = b1 /\ y <> b1 /\
       exists r, In (y, r) items /\ is_exception r = false).
Proof.
  induction items as [|[b2 r2] rest IH]; intros scores w scores' w' Hrun.
  - cbn in Hrun. inversion Hrun; subst. split; [reflexivity|].
    intros x y. split; [auto|].
    intros [H|(_ & _ & r & [] & _)]. exact H.
  - cbn [evaluate_inner] in Hrun.
    destruct (negb (String.eqb b1 b2) && negb (is_exception r2))%bool eqn:C.
    + apply andb_true_iff in C. destruct C as [Cb Cr].
      apply negb_true_iff in Cb, Cr. apply String.eqb_neq in Cb.
      unfold bind at 1 in Hrun.
      destruct (evaluate_response b1 r2 w) as [[z|e] w1]; [|discriminate].
      unfold bind at 1 in Hrun. unfold lift in Hrun.
      destruct (table_set scores b1 b2 z) as [scores1|e] eqn:Ets;
        [|discriminate].
      destruct (IH _ _ _ _ Hrun) as [Hkeys Hent].
      split; [rewrite Hkeys; eapply table_set_keys; eauto|].
      assert (Hts : forall x y,
                 has_entry scores1 x y <->
                 has_entry scores x y \/ (x = b1 /\ y = b2))
        by (eapply table_set_entry; eauto).
      intros x y. rewrite Hent, Hts.
      split.
      * intros [[H|[-> ->]]|(-> & Hy & r & Hin & Hr)].
        -- now left.
        -- right. split; [reflexivity|]. split; [congruence|].
           exists r2. split; [now left|exact Cr].
        -- right. split; [reflexivity|]. split; [exact Hy|].
           exists r. split; [now right|exact Hr].
      * intros [H|(-> & Hy & r & [E|Hin] & Hr)].
        -- left. now left.
        -- inversion E; subst. left. right. split; reflexivity.
        -- right. split; [reflexivity|]. split; [exact Hy|].
           exists r. split; assumption.
    + destruct (IH _ _ _ _ Hrun) as [Hkeys Hent].
      split; [exact Hkeys|].
      intros x y. rewrite Hent. split.
      * intros [H|(-> & Hy & r & Hin & Hr)]; [now left|].
        right. split; [reflexivity|]. split; [exact Hy|].
        exists r. split; [now right|exact Hr].
      * intros [H|(-> & Hy & r & [E|Hin] & Hr)]; [now left| |].
        -- inversion E; subst. exfalso.
           apply String.eqb_neq in Hy. rewrite String.eqb_sym in Hy.
           rewrite Hy, Hr in C. discriminate.
        -- right. split; [reflexivity|]. split; [exact Hy|].
           exists r. split; assumption.
Qed.

(** The outer loop: every evaluator of [items] whose own slot is not an
    exception gets its turn of the inner loop over [all]. *)
Lemma evaluate_outer_entries (all items : list (BotId * pyval)) :
  forall scores w scores' w',
    evaluate_outer items all scores w = (Returned scores', w') ->
    dict_keys scores' = dict_keys scores /\
    forall x y,
      has_entry scores' x y <->
      has_entry scores x y \/
      ((exists r1, In (x, r1) items /\ is_exception r1 = false) /\
       y <> x /\
       exists r2, In (y, r2) all /\ is_exception r2 = false).
Proof.
  induction items as [|[b1 r1] rest IH]; intros scores w scores' w' Hrun.
  - cbn in Hrun. inversion Hrun; subst. split; [reflexivity|].
    intros x y. split; [auto|].
    intros [H|((r & [] & _) & _)]. exact H.
  - cbn [evaluate_outer] in Hrun.
    destruct (is_exception r1) eqn:C.
    + destruct (IH _ _ _ _ Hrun) as [Hkeys Hent].
      split; [exact Hkeys|].
      intros x y. rewrite Hent. split.
      * intros [H|((r & Hin & Hr) & Hy & H2)]; [now left|].
        right. split; [|split; assumption].
        exists r. split; [now right|exact Hr].
      * intros [H|((r & [E|Hin] & Hr) & Hy & H2)]; [now left| |].
        -- inversion E; subst. congruence.
        -- right. split; [|split; assumption].
           exists r. split; assumption.
    + unfold bind at 1 in Hrun.
      destruct (evaluate_inner b1 all scores w) as [[scores1|e] w1] eqn:Ein;
        [|discriminate].
      apply evaluate_inner_entries in Ein. destruct Ein as [Hkeys1 Hent1].
      destruct (IH _ _ _ _ Hrun) as [Hkeys Hent].
      split; [congruence|].
      intros x y. rewrite Hent, Hent1. split.
      * intros [[H|(-> & Hy & H2)]|((r & Hin & Hr) & Hy & H2)].
        -- now left.
        -- right. split; [|split; assumption].
           exists r1. split; [now left|exact C].
        -- right. split; [|split; assumption].
           exists r. split; [now right|exact Hr].
      * intros [H|((r & [E|Hin] & Hr) & Hy & H2)].
        -- left. now left.
        -- inversion E; subst. left. right.
           split; [reflexivity|]. split; assumption.
        -- right. split; [|split; assumption].
           exists r. split; assumption.
Qed.

Lemma not_exception_succeeded (responses : dict pyval) b :
  dict_wf responses ->
  (exists r, In (b, r) responses /\ is_exception r = false) <->
  succeeded responses b.
Proof.
  intros Hwf. unfold succeeded. split.
  - intros (r & Hin & Hr). destruct r as [j|e]; [|discriminate].
    exists j. apply in_dict_get; assumption.
  - intros (j & Hj). exists (Val j). split; [|reflexivity].
    apply dict_get_in. exact Hj.
Qed.

Lemma evaluate_responses_entries responses w scores w' :
  dict_wf responses ->
  evaluate_responses responses w = (Returned scores, w') ->
  dict_keys scores = dict_keys responses /\
  forall b1 b2,
    has_entry scores b1 b2 <->
    b1 <> b2 /\ succeeded responses b1 /\ succeeded responses b2.
Proof.
  intros Hwf Hrun. unfold evaluate_responses in Hrun.
  apply evaluate_outer_entries in Hrun. destruct Hrun as [Hkeys Hent].
  destruct (empty_rows_no_entry Hwf) as (Hk0 & _ & Hno).
  split; [congruence|].
  intros b1 b2. rewrite Hent.
  rewrite <- !(not_exception_succeeded _ Hwf).
  split.
  - intros [H|(H1 & Hne & H2)]; [exfalso; eapply Hno; eauto|].
    split; [congruence|]. split; assumption.
  - intros (Hne & H1 & H2). right. split; [exact H1|].
    split; [congruence|exact H2].
Qed.

(** *** When the peer evaluator returns *)

Lemma score_of_reply_caught reply :
  (exists v, json_text reply = Returned v) ->
  match score_of_reply reply with
  | Returned _ => True
  | Raised e => caught_by_evaluate e = true
  end.
Proof.
  intros (v & Hv). unfold score_of_reply. rewrite Hv. cbn [rbind].
  destruct v; cbn [py_strip rbind]; try reflexivity.
  rewrite search_group_first.
  destruct (first_standalone unicode_isalnum None (strip s)) as [d|] eqn:E;
    cbn [rbind]; [|reflexivity].
  apply first_standalone_digit in E. now rewrite (@py_int_digit d E).
Qed.

Lemma evaluate_response_returns evaluator_bot response w :
  (forall w0 rq,
      match fst (transport w0 rq) with
      | Returned reply => exists v, json_text reply = Returned v
      | Raised e => caught_by_evaluate e = true
      end) ->
  (exists api_key, dict_get API_KEYS evaluator_bot = Some api_key) ->
  (exists url, dict_get CHATBOT_APIS evaluator_bot = Some url) ->
  (exists text, choices_0_text response = Returned text) ->
  exists z w', evaluate_response evaluator_bot response w = (Returned z, w').
Proof.
  intros Hnet (api_key & Hk) (url & Hu) (text & Ht).
  rewrite evaluate_response_unfold, Hk, Ht, Hu.
  specialize (Hnet w (evaluation_request url api_key text)).
  destruct (transport w _) as [[reply|e] w1]; cbn [fst rbind] in *.
  - pose proof (@score_of_reply_caught reply Hnet) as Hc.
    destruct (score_of_reply reply) as [z|e]; [eauto|].
    rewrite Hc. eauto.
  - rewrite Hnet. eauto.
Qed.

Lemma evaluate_inner_returns b1 (items : list (BotId * pyval)) :
  (forall w0 rq,
      match fst (transport w0 rq) with
      | Returned reply => exists v, json_text reply = Returned v
      | Raised e => caught_by_evaluate e = true
      end) ->
  (exists api_key, dict_get API_KEYS b1 = Some api_key) ->
  (exists url, dict_get CHATBOT_APIS b1 = Some url) ->
  (forall b r, In (b, r) items -> is_exception r = false ->
               exists text, choices_0_text r = Returned text) ->
  forall scores w,
    In b1 (dict_keys scores) ->
    exists scores' w',
      evaluate_inner b1 items scores w = (Returned scores', w').
Proof.
  intros Hnet Hk Hu.
  induction items as [|[b2 r2] rest IH]; intros Htext scores w Hin.
  - cbn. unfold ret. eauto.
  - cbn [evaluate_inner].
    assert (Hrest : forall b r, In (b, r) rest -> is_exception r = false ->
                                exists text, choices_0_text r = Returned text)
      by (intros b r Hb; apply (Htext b r); now right).
    destruct (negb (String.eqb b1 b2) && negb (is_exception r2))%bool eqn:C.
    + apply andb_true_iff in C. destruct C as [_ Cr].
      apply negb_true_iff in Cr.
      destruct (@evaluate_response_returns b1 r2 w Hnet Hk Hu)
        as (z & w1 & Hz).
      { apply (Htext b2 r2); [now left|exact Cr]. }
      unfold bind at 1. rewrite Hz. unfold bind at 1. unfold lift.
      destruct (dict_get scores b1) as [row|] eqn:Erow.
      * unfold table_set. rewrite Erow.
        apply IH; [exact Hrest|].
        rewrite dict_keys_set_in; exact Hin.
      * apply dict_get_none in Erow. contradiction.
    + apply IH; assumption.
Qed.

Lemma evaluate_outer_returns (all items : list (BotId * pyval)) :
  (forall w0 rq,
      match fst (transport w0 rq) with
      | Returned reply => exists v, json_text reply = Returned v
      | Raised e => caught_by_evaluate e = true
      end) ->
  (forall b r, In (b, r) all -> is_exception r = false ->
               exists text, choices_0_text r = Returned text) ->
  (forall b r, In (b, r) items -> is_exception r = false ->
               (exists api_key, dict_get API_KEYS b = Some api_key) /\
               (exists url, dict_get CHATBOT_APIS b = Some url)) ->
  forall scores w,
    (forall b r, In (b, r) items -> In b (dict_keys scores)) ->
    exists scores' w',
      evaluate_outer items all scores w = (Returned scores', w').
Proof.
  intros Hnet Htext.
  induction items as [|[b1 r1] rest IH]; intros Hconf scores w Hin.
  - cbn. unfold ret. eauto.
  - cbn [evaluate_outer].
    assert (Hconf' : forall b r, In (b, r) rest -> is_exception r = false ->
               (exists api_key, dict_get API_KEYS b = Some api_key) /\
               (exists url, dict_get CHATBOT_APIS b = Some url))
      by (intros b r Hb; apply (Hconf b r); now right).
    destruct (is_exception r1) eqn:C.
    + apply IH; [exact Hconf'|].
      intros b r Hb. apply (Hin b r). now right.
    + destruct (Hconf b1 r1 (or_introl eq_refl) C) as [Hk Hu].
      destruct (@evaluate_inner_returns b1 all Hnet Hk Hu Htext scores w)
        as (scores1 & w1 & H1).
      { apply (Hin b1 r1). now left. }
      unfold bind at 1. rewrite H1.
      apply evaluate_inner_entries in H1. destruct H1 as [Hkeys _].
      apply IH; [exact Hconf'|].
      intros b r Hb. rewrite Hkeys. apply (Hin b r). now right.
Qed.

(** [evaluate_responses] returns a table when every bot whose slot holds
    an answer is configured, every such answer has a text, and the
    transport only fails in the ways [evaluate_response] catches. *)
Lemma evaluate_responses_returns responses w :
  dict_wf responses ->
  (forall w0 rq,
      match fst (transport w0 rq) with
      | Returned reply => exists v, json_text reply = Returned v
      | Raised e => caught_by_evaluate e = true
      end) ->
  (forall b r, In (b, r) responses -> is_exception r = false ->
               (exists text, choices_0_text r = Returned text) /\
               (exists api_key, dict_get API_KEYS b = Some api_key) /\
               (exists url, dict_get CHATBOT_APIS b = Some url)) ->
  exists scores w',
    evaluate_responses responses w = (Returned scores, w').
Proof.
  intros Hwf Hnet Hok. unfold evaluate_responses.
  apply evaluate_outer_returns.
  - exact Hnet.
  - intros b r Hb Hr. apply (Hok b r Hb Hr).
  - intros b r Hb Hr. apply (Hok b r Hb Hr).
  - intros b r Hb. destruct (empty_rows_no_entry Hwf) as (-> & _).
    eapply in_dict_keys; eauto.
Qed.

(** C3: in the table [evaluate_responses] returns, the pair (evaluator,
    subject) has a score exactly when the two bots differ and both of
    their slots hold an answer, not an exception. In particular no bot
    scores itself, and the bots that take part in the scoring are the bots
    whose answer succeeded. The table is returned when the bots that
    answered are configured, their answers have a text, and the transport
    only fails in the ways [evaluate_response] catches. *)
Theorem evaluate_responses_pairs :
  forall responses w,
    dict_wf responses ->
    (forall scores w',
        evaluate_responses responses w = (Returned scores, w') ->
        (forall b, ~ has_entry scores b b) /\
        (forall b1 b2,
            has_entry scores b1 b2 <->
            b1 <> b2 /\ succeeded responses b1 /\ succeeded responses b2))
    /\
    ((forall w0 rq,
         match fst (transport w0 rq) with
         | Returned reply => exists v, json_text reply = Returned v
         | Raised e => caught_by_evaluate e = true
         end) ->
     (forall b r, In (b, r) responses -> is_exception r = false ->
                  (exists text, choices_0_text r = Returned text) /\
                  (exists api_key, dict_get API_KEYS b = Some api_key) /\
                  (exists url, dict_get CHATBOT_APIS b = Some url)) ->
     exists scores w',
       evaluate_responses responses w = (Returned scores, w')).
Proof.
  intros responses w Hwf. split.
  - intros scores w' Hrun.
    destruct (evaluate_responses_entries _ Hwf Hrun) as [_ Hent].
    split; [|exact Hent].
    intros b Hb. apply Hent in Hb. destruct Hb as [Hne _]. now apply Hne.
  - intros Hnet Hok. apply evaluate_responses_returns; assumption.
Qed.

Lemma no_entry_empty_row (row : dict Z) :
  (forall b, dict_get row b = None) -> row = [].
Proof.
  destruct row as [|[k v] row]; [reflexivity|].
  intros H. specialize (H k). simpl in H. rewrite String.eqb_refl in H.
  discriminate.
Qed.

(** C10: the table [evaluate_responses] returns has the keys of
    [responses], in the same order: every bot has a row, and the row of a
    bot whose slot holds an exception is empty. The table is returned
    under the conditions given for C3. *)
Theorem evaluate_responses_rows :
  forall responses w,
    dict_wf responses ->
    (forall scores w',
        evaluate_responses responses w = (Returned scores, w') ->
        dict_keys scores = dict_keys responses /\
        (forall b r, dict_get responses b = Some r ->
                     exists row, dict_get scores b = Some row) /\
        (forall b e, dict_get responses b = Some (Exc e) ->
                     dict_get scores b = Some []))
    /\
    ((forall w0 rq,
         match fst (transport w0 rq) with
         | Returned reply => exists v, json_text reply = Returned v
         | Raised e => caught_by_evaluate e = true
         end) ->
     (forall b r, In (b, r) responses -> is_exception r = false ->
                  (exists text, choices_0_text r = Returned text) /\
                  (exists api_key, dict_get API_KEYS b = Some api_key) /\
                  (exists url, dict_get CHATBOT_APIS b = Some url)) ->
     exists scores w',
       evaluate_responses responses w = (Returned scores, w')).
Proof.
  intros responses w Hwf. split.
  - intros scores w' Hrun.
    destruct (evaluate_responses_entries _ Hwf Hrun) as [Hkeys Hent].
    assert (Hrow : forall b r, dict_get responses b = Some r ->
                               exists row, dict_get scores b = Some row).
    { intros b r Hb. apply dict_get_some_key in Hb. rewrite <- Hkeys in Hb.
      destruct (dict_get scores b) as [row|] eqn:E; [eauto|].
      apply dict_get_none in E. contradiction. }
    split; [exact Hkeys|]. split; [exact Hrow|].
    intros b e Hb. destruct (Hrow _ _ Hb) as (row & Hr).
    rewrite Hr. f_equal. apply no_entry_empty_row.
    intros b2. destruct (dict_get row b2) as [s|] eqn:E; [|reflexivity].
    exfalso.
    assert (He : has_entry scores b b2) by (exists row, s; auto).
    apply Hent in He. destruct He as (_ & (j & Hj) & _). congruence.
  - intros Hnet Hok. apply evaluate_responses_returns; assumption.
Qed.

(** ** The clarification step *)

Lemma clarify_one_unfold responses bot score_dict w a w' :
  clarify_one responses bot score_dict w = (Returned a, w') ->
  exists P response question url,
    lowest_scored score_dict = Returned P /\
    dict_get responses P = Some response /\
    generate_clarification_question response = Returned question /\
    dict_get CHATBOT_APIS bot = Some url /\
    send_to_chatbot bot url question w = (Returned a, w').
Proof.
  unfold clarify_one, bind, lift, dict_getitem.
  destruct (lowest_scored score_dict) as [P|e] eqn:E1; [|discriminate].
  destruct (dict_get responses P) as [response|] eqn:E2; [|discriminate].
  destruct (generate_clarification_question response) as [question|e] eqn:E3;
    [|discriminate].
  destruct (dict_get CHATBOT_APIS bot) as [url|] eqn:E4; [|discriminate].
  intros H. exists P, response, question, url.
  repeat split; assumption.
Qed.

(** The loop stores, for each bot [B] of [items] in turn, the answer [B]
    gives to the question derived from the answer of the subject [B]
    scored lowest. *)
Lemma clarify_loop_entries responses (items : list (BotId * dict Z)) :
  forall acc w clarifications w',
    NoDup (dict_keys acc ++ dict_keys items) ->
    clarify_loop responses items acc w = (Returned clarifications, w') ->
    exists new,
      clarifications = acc ++ new /\
      dict_keys new = dict_keys items /\
      forall B row,
        In (B, row) items ->
        exists P response question url wB a,
          lowest_scored row = Returned P /\
          dict_get responses P = Some response /\
          generate_clarification_question response = Returned question /\
          dict_get CHATBOT_APIS B = Some url /\
          fst (send_to_chatbot B url question wB) = Returned a /\
          In (B, Val a) new.
Proof.
  induction items as [|[bot row0] rest IH];
    intros acc w clarifications w' Hnd Hrun.
  - cbn in Hrun. inversion Hrun; subst. exists [].
    rewrite app_nil_r. split; [reflexivity|]. split; [reflexivity|].
    intros ? ? [].
  - cbn [clarify_loop] in Hrun. unfold bind at 1 in Hrun.
    destruct (clarify_one responses bot row0 w) as [[a|e] w1] eqn:Eone;
      [|discriminate].
    assert (Hfresh : ~ In bot (dict_keys acc)).
    { intros Hin. simpl in Hnd. apply NoDup_remove_2 in Hnd. apply Hnd.
      apply in_or_app. now left. }
    rewrite (@dict_set_fresh _ acc bot (Val a) Hfresh) in Hrun.
    apply IH in Hrun.
    2:{ rewrite dict_keys_app, <- app_assoc. exact Hnd. }
    destruct Hrun as (new & -> & Hkeys & Hall).
    exists ((bot, Val a) :: new). rewrite <- app_assoc.
    split; [reflexivity|]. split; [simpl; now rewrite Hkeys|].
    intros B row [E|Hin].
    + inversion E; subst.
      apply clarify_one_unfold in Eone.
      destruct Eone as (P & response & question & url & H1 & H2 & H3 & H4 & H5).
      exists P, response, question, url, w, a.
      rewrite H5. repeat split; try assumption. now left.
    + destruct (Hall B row Hin)
        as (P & response & question & url & wB & a' & H1 & H2 & H3 & H4 & H5 & H6).
      exists P, response, question, url, wB, a'.
      repeat split; try assumption. now right.
Qed.

(** The body of the loop returns when the row is not empty, the answer of
    the lowest-scored subject has a str text, the bot is configured, and
    the transport answers or fails with a ClientError. *)
Lemma clarify_one_returns responses bot row w :
  row <> [] ->
  (forall P, In P (dict_keys row) ->
     exists response t,
       dict_get responses P = Some response /\
       choices_0_text response = Returned (JStr t)) ->
  (exists url, dict_get CHATBOT_APIS bot = Some url) ->
  (exists api_key, dict_get API_KEYS bot = Some api_key) ->
  (forall w0 rq e, fst (transport w0 rq) = Raised e ->
                   is_ClientError e = true) ->
  exists a w', clarify_one responses bot row w = (Returned a, w').
Proof.
  intros Hne Htext (url & Hurl) (api_key & Hkey) Hnet.
  destruct (lowest_scored_in Hne) as (P & HP & HPin).
  destruct (Htext P HPin) as (response & t & Hresp & Ht).
  unfold clarify_one, bind, lift, dict_getitem.
  rewrite HP, Hresp, Hurl.
  unfold generate_clarification_question. rewrite Ht. cbn [rbind].
  set (q := match re_findall unicode_isalnum QUESTION_PATTERN t with
            | [] => _ | _ :: _ => _ end).
  assert (Hq : exists question, q = Returned question).
  { unfold q. destruct (re_findall unicode_isalnum QUESTION_PATTERN t);
      eauto. }
  destruct Hq as (question & ->).
  rewrite send_to_chatbot_unfold, Hkey.
  pose proof (Hnet w {| req_url := url;
                        req_authorization := bearer api_key;
                        req_prompt := question;
                        req_max_tokens := 150 |}) as Hw.
  destruct (transport w _) as [[j|e] w']; [eauto|].
  rewrite (Hw e eq_refl). eauto.
Qed.

Lemma clarify_loop_returns responses (items : list (BotId * dict Z)) :
  (forall B row, In (B, row) items ->
     forall w, exists a w',
       clarify_one responses B row w = (Returned a, w')) ->
  forall acc w,
    exists clarifications w',
      clarify_loop responses items acc w = (Returned clarifications, w').
Proof.
  induction items as [|[bot row0] rest IH]; intros Hone acc w.
  - exists acc, w. reflexivity.
  - cbn [clarify_loop]. unfold bind at 1.
    destruct (Hone bot row0 (or_introl eq_refl) w) as (a & w1 & ->).
    apply IH. intros B row H. apply (Hone B row). now right.
Qed.

(** The question the code derives from a text is the question of the
    specification. *)
Lemma generate_clarification_question_clarifies r (t : str) :
  choices_0_text r = Returned (JStr t) ->
  exists question,
    generate_clarification_question r = Returned question /\
    clarifies t question.
Proof.
  intros Ht. destruct (in_dec N.eq_dec 63%N t) as [Hin|Hno].
  - destruct (first_qmark t Hin) as (a & rest & -> & Ha).
    destruct (run_suffix a) as (pre & run & -> & Hrun & Hpre).
    assert (Hq : forall c, In c pre -> is_qmark c = false)
      by (intros c Hc; apply Ha, in_or_app; now left).
    rewrite <- app_assoc in Ht.
    exists (lit "Can you clarify the following: " ++ run ++ [63%N]). split.
    + apply (@generate_clarification_question_first r pre run rest);
        assumption.
    + left. exists pre, run, rest. rewrite <- app_assoc.
      split; [reflexivity|]. split; [|split; [|split; [|reflexivity]]].
      * intros H63. apply Hq in H63. discriminate.
      * destruct Hpre as [->|(p0 & x & -> & Hx)]; [now left|right].
        exists p0, x. split; [reflexivity|].
        apply not_terminator_false in Hx.
        destruct Hx as [Hx|[Hx|Hx]]; [now left | now right |].
        exfalso. subst x.
        assert (H63 : is_qmark 63%N = false)
          by (apply Hq, in_or_app; right; now left).
        discriminate.
      * intros c Hc. apply not_terminator_true.
        rewrite Forall_forall in Hrun. now apply Hrun.
  - exists (lit "Can you provide more details about: " ++ firstn 100 t).
    split; [|right; split; [exact Hno | reflexivity]].
    unfold generate_clarification_question.
    rewrite Ht. cbn [rbind]. unfold re_findall.
    rewrite findall_no_qmark; [reflexivity|].
    intros c Hc. destruct (is_qmark c) eqn:E; [|reflexivity].
    apply is_qmark_eq in E. subst c. contradiction.
Qed.

(** What [send_to_chatbot] returns is the body the transport returned to
    its request, or the sentinel answer after a ClientError. *)
Lemma send_to_chatbot_returned chatbot url question api_key w a :
  dict_get API_KEYS chatbot = Some api_key ->
  fst (send_to_chatbot chatbot url question w) = Returned a ->
  exists w',
    transport w {| req_url := url;
                   req_authorization := bearer api_key;
                   req_prompt := question;
                   req_max_tokens := 150 |} = (Returned a, w') \/
    (exists e,
        transport w {| req_url := url;
                       req_authorization := bearer api_key;
                       req_prompt := question;
                       req_max_tokens := 150 |} = (Raised e, w') /\
        is_ClientError e = true /\ a = SENTINEL).
Proof.
  intros Hk. rewrite send_to_chatbot_unfold, Hk.
  destruct (transport w _) as [[j|e] w']; cbn.
  - intros H. inversion H; subst. exists w'. now left.
  - destruct (is_ClientError e) eqn:E; cbn; intros H; [|discriminate].
    inversion H; subst. exists w'. right. exists e. auto.
Qed.

(** The loop stops with ValueError at the first empty row, when the steps
    before it return. *)
Lemma clarify_loop_stops responses (items : list (BotId * dict Z)) :
  (forall B row, In (B, row) items -> row <> [] ->
     forall w, exists a w',
       clarify_one responses B row w = (Returned a, w')) ->
  (exists B, In (B, []) items) ->
  forall acc w,
    exists w', clarify_loop responses items acc w = (Raised ValueError, w').
Proof.
  induction items as [|[bot row0] rest IH]; intros Hone (B & HB) acc w.
  - destruct HB.
  - destruct row0 as [|entry row0].
    + exists w. reflexivity.
    + cbn [clarify_loop]. unfold bind at 1.
      destruct (Hone bot (entry :: row0) (or_introl eq_refl)
                  ltac:(discriminate) w) as (a & w1 & ->).
      apply IH.
      * intros B' row H. apply (Hone B' row). now right.
      * exists B. destruct HB as [E|HB]; [discriminate E | exact HB].
Qed.

(** C8 (as amended): take a first score table whose subjects have an
    answer with a str text and whose bots are configured, and a transport
    that answers or fails with a ClientError. When no row is empty, the
    clarification loop returns a dictionary keyed by the bots of the
    table; for each bot [B] it holds the body the transport returned (the
    sentinel answer after a ClientError) to the request sent to the URL of
    [B] with the key of [B], whose prompt is the clarification question
    of the text of [P], the first subject to which [B] gave its lowest
    score. When some row is empty the loop raises ValueError and there is
    no dictionary. *)
Theorem clarify_loop_asks_evaluator :
  forall responses (scores : ScoreTable) w,
    dict_wf scores ->
    (forall B row, In (B, row) scores ->
        dict_wf row /\
        (forall P, In P (dict_keys row) ->
           exists response t,
             dict_get responses P = Some response /\
             choices_0_text response = Returned (JStr t)) /\
        (exists url, dict_get CHATBOT_APIS B = Some url) /\
        (exists api_key, dict_get API_KEYS B = Some api_key)) ->
    (forall w0 rq e, fst (transport w0 rq) = Raised e ->
                     is_ClientError e = true) ->
    ((forall B row, In (B, row) scores -> row <> []) ->
     exists clarifications w',
       clarify_loop responses scores [] w = (Returned clarifications, w') /\
       dict_keys clarifications = dict_keys scores /\
       forall B row,
         In (B, row) scores ->
         exists pre P z post response t question url api_key wB wB' a,
           row = pre ++ (P, z) :: post /\
           (forall b s, In (b, s) pre -> (z < s)%Z) /\
           (forall b s, In (b, s) post -> (z <= s)%Z) /\
           dict_get responses P = Some response /\
           choices_0_text response = Returned (JStr t) /\
           clarifies t question /\
           dict_get CHATBOT_APIS B = Some url /\
           dict_get API_KEYS B = Some api_key /\
           dict_get clarifications B = Some (Val a) /\
           (transport wB {| req_url := url;
                            req_authorization := bearer api_key;
                            req_prompt := question;
                            req_max_tokens := 150 |} = (Returned a, wB') \/
            (exists e,
                transport wB {| req_url := url;
                                req_authorization := bearer api_key;
                                req_prompt := question;
                                req_max_tokens := 150 |} = (Raised e, wB')
                /\ a = SENTINEL))) /\
    ((exists B, In (B, []) scores) ->
     exists w',
       clarify_loop responses scores [] w = (Raised ValueError, w')).
Proof.
  intros responses scores w Hwf Hok Hnet.
  assert (Hone : forall B row, In (B, row) scores -> row <> [] ->
                 forall w0, exists a w',
                   clarify_one responses B row w0 = (Returned a, w')).
  { intros B row Hin Hne w0.
    destruct (Hok B row Hin) as (_ & Htext & Hurl & Hkey).
    apply clarify_one_returns; assumption. }
  split.
  - intros Hrows.
    destruct (@clarify_loop_returns responses scores) with
      (acc := @nil (BotId * pyval)) (w := w) as (clarifications & w' & Hrun).
    { intros B row Hin. apply Hone; [exact Hin|]. eapply Hrows; eauto. }
    exists clarifications, w'. split; [exact Hrun|].
    apply clarify_loop_entries in Hrun; [|exact Hwf].
    destruct Hrun as (new & -> & Hkeys & Hall). simpl app.
    split; [exact Hkeys|].
    intros B row Hin.
    destruct (Hall B row Hin)
      as (P & response & question & url & wB & a
          & H1 & H2 & H3 & H4 & H5 & H6).
    destruct (Hok B row Hin) as (Hrow & Htext & _ & (api_key & Hkey)).
    destruct (lowest_scored_first Hrow (Hrows B row Hin))
      as (pre & P' & z & post & Hsplit & HP & Hpre & Hpost).
    assert (P' = P) by congruence. subst P'.
    assert (HPin : In P (dict_keys row)).
    { rewrite Hsplit, dict_keys_app. apply in_or_app. right. now left. }
    destruct (Htext P HPin) as (response' & t & Hr' & Ht).
    assert (response' = response) by congruence. subst response'.
    destruct (generate_clarification_question_clarifies _ Ht)
      as (question' & Hq' & Hclar).
    assert (question' = question) by congruence. subst question'.
    destruct (send_to_chatbot_returned _ _ _ _ Hkey H5) as (wB' & Hsent).
    exists pre, P, z, post, response, t, question, url, api_key, wB, wB', a.
    repeat (split; [assumption|]).
    split.
    + apply in_dict_get; [|exact H6].
      unfold dict_wf. rewrite Hkeys. exact Hwf.
    + destruct Hsent as [Hs|(e & Hs & _ & Ha)]; [now left|].
      right. exists e. split; assumption.
  - intros Hempty. apply clarify_loop_stops; assumption.
Qed.

(** ** The orchestration *)

Lemma evaluate_outer_all_exceptions (all items : list (BotId * pyval)) :
  (forall b r, In (b, r) items -> is_exception r = true) ->
  forall scores w,
    evaluate_outer items all scores w = (Returned scores, w).
Proof.
  induction items as [|[b1 r1] rest IH]; intros Hexc scores w.
  - reflexivity.
  - cbn [evaluate_outer]. rewrite (Hexc b1 r1) by now left.
    apply IH. intros b r Hb. apply (Hexc b r). now right.
Qed.

Lemma clarify_loop_empty_row responses bot rest acc w :
  clarify_loop responses ((bot, []) :: rest) acc w = (Raised ValueError, w).
Proof. reflexivity. Qed.

(** C2 (as amended): when the slot of every configured bot holds an
    exception after the initial round, and at least one bot is configured,
    [interact_between_bots] raises ValueError to its caller: every row of
    the first score table is empty and [min] is applied to the first of
    them. There is no "no answer available" result. *)
Theorem interact_between_bots_all_failed :
  dict_wf CHATBOT_APIS ->
  forall initial_question w responses w1,
    get_responses_from_chatbots initial_question w =
      (Returned responses, w1) ->
    responses <> [] ->
    (forall b r, In (b, r) responses -> is_exception r = true) ->
    interact_between_bots initial_question w = (Raised ValueError, w1).
Proof.
  intros Hwf initial_question w responses w1 Hrun Hne Hexc.
  assert (Hwf' : dict_wf responses).
  { destruct (get_responses_from_chatbots_unfold initial_question w Hwf)
      as (vs & w' & Hrun' & Hlen & _).
    rewrite Hrun in Hrun'. inversion Hrun'; subst.
    unfold dict_wf. rewrite dict_keys_combine by exact Hlen. exact Hwf. }
  unfold interact_between_bots. unfold bind at 1. rewrite Hrun.
  unfold bind at 1. unfold evaluate_responses.
  rewrite evaluate_outer_all_exceptions by exact Hexc.
  rewrite empty_rows_fresh by exact Hwf'. simpl app.
  destruct responses as [|[b0 r0] rest]; [congruence|].
  reflexivity.
Qed.

(** *** The scores of a table lie from 1 to 5 *)

Lemma in_dict_set {V} (d : dict V) k v k' v' :
  In (k', v') (dict_set d k v) -> (k', v') = (k, v) \/ In (k', v') d.
Proof.
  induction d as [|[k0 v0] d IH]; simpl.
  - intros [E|[]]. left. symmetry. exact E.
  - destruct (String.eqb_spec k k0) as [->|Hk]; simpl.
    + intros [E|Hin]; [left; symmetry; exact E | right; right; exact Hin].
    + intros [E|Hin]; [right; left; exact E|].
      destruct (IH Hin) as [E|Hd]; [left; exact E | right; right; exact Hd].
Qed.

Lemma table_set_in_range scores b1 b2 z scores' :
  table_set scores b1 b2 z = Returned scores' ->
  (1 <= z <= 5)%Z ->
  scores_in_range scores -> scores_in_range scores'.
Proof.
  unfold table_set. destruct (dict_get scores b1) as [row|] eqn:E;
    [|discriminate].
  intros H Hz Hr. inversion H; subst. clear H.
  intros b row' Hb. apply in_dict_set in Hb. destruct Hb as [Eb|Hb].
  - inversion Eb; subst. intros y s Hy. apply in_dict_set in Hy.
    destruct Hy as [Ey|Hy]; [inversion Ey; subst; exact Hz|].
    apply dict_get_in in E. eapply Hr; eauto.
  - eapply Hr; eauto.
Qed.

Lemma evaluate_inner_scores_in_range b1 (items : list (BotId * pyval)) :
  forall scores w scores' w',
    evaluate_inner b1 items scores w = (Returned scores', w') ->
    scores_in_range scores -> scores_in_range scores'.
Proof.
  induction items as [|[b2 r2] rest IH]; intros scores w scores' w' Hrun Hr.
  - cbn in Hrun. inversion Hrun; subst. exact Hr.
  - cbn [evaluate_inner] in Hrun.
    destruct (negb (String.eqb b1 b2) && negb (is_exception r2))%bool.
    + unfold bind at 1 in Hrun.
      destruct (evaluate_response b1 r2 w) as [[s|e] w1] eqn:Es;
        [|discriminate].
      unfold bind at 1, lift in Hrun.
      destruct (table_set scores b1 b2 s) as [scores1|e] eqn:Et;
        [|discriminate].
      apply (IH _ _ _ _ Hrun).
      eapply table_set_in_range; eauto.
      eapply evaluate_response_in_range; eauto.
    + apply (IH _ _ _ _ Hrun). exact Hr.
Qed.

Lemma evaluate_outer_scores_in_range (all items : list (BotId * pyval)) :
  forall scores w scores' w',
    evaluate_outer items all scores w = (Returned scores', w') ->
    scores_in_range scores -> scores_in_range scores'.
Proof.
  induction items as [|[b1 r1] rest IH]; intros scores w scores' w' Hrun Hr.
  - cbn in Hrun. inversion Hrun; subst. exact Hr.
  - cbn [evaluate_outer] in Hrun. destruct (is_exception r1).
    + apply (IH _ _ _ _ Hrun). exact Hr.
    + unfold bind at 1 in Hrun.
      destruct (evaluate_inner b1 all scores w) as [[scores1|e] w1] eqn:E1;
        [|discriminate].
      apply (IH _ _ _ _ Hrun).
      eapply evaluate_inner_scores_in_range; eauto.
Qed.

Lemma empty_rows_in_range (keys : list BotId) :
  forall acc, scores_in_range acc -> scores_in_range (empty_rows keys acc).
Proof.
  induction keys as [|k keys IH]; intros acc Hacc; [exact Hacc|].
  cbn [empty_rows]. apply IH.
  intros b row Hb. apply in_dict_set in Hb. destruct Hb as [E|Hb].
  - inversion E; subst. intros y z [].
  - eapply Hacc; eauto.
Qed.

(** Every table [evaluate_responses] returns is a table of scores from 1
    to 5. *)
Lemma evaluate_responses_scores_in_range responses w scores w' :
  evaluate_responses responses w = (Returned scores, w') ->
  scores_in_range scores.
Proof.
  intros Hrun. unfold evaluate_responses in Hrun.
  eapply evaluate_outer_scores_in_range; [exact Hrun|].
  apply empty_rows_in_range. intros b row [].
Qed.

(** *** A run in which every request fails with a ClientError *)

Section TransportDown.

Hypothesis Hdown :
  forall w rq, exists e w',
    transport w rq = (Raised e, w') /\ is_ClientError e = true.

Hypothesis Hkeyed :
  forall b, In b (dict_keys CHATBOT_APIS) ->
            exists api_key, dict_get API_KEYS b = Some api_key.

Hypothesis Hwf : dict_wf CHATBOT_APIS.

Lemma send_to_chatbot_down chatbot url question w :
  In chatbot (dict_keys CHATBOT_APIS) ->
  exists w', send_to_chatbot chatbot url question w = (Returned SENTINEL, w').
Proof using Hdown Hkeyed.
  intros Hin. destruct (Hkeyed _ Hin) as (api_key & Hk).
  rewrite send_to_chatbot_unfold, Hk.
  destruct (Hdown w {| req_url := url;
                       req_authorization := bearer api_key;
                       req_prompt := question;
                       req_max_tokens := 150 |}) as (e & w' & -> & ->).
  eauto.
Qed.

Lemma transport_down_caught :
  forall w0 rq,
    match fst (transport w0 rq) with
    | Returned reply => exists v, json_text reply = Returned v
    | Raised e => caught_by_evaluate e = true
    end.
Proof using Hdown.
  intros w0 rq. destruct (Hdown w0 rq) as (e & w' & -> & He).
  cbn [fst]. unfold caught_by_evaluate. now rewrite He.
Qed.

Lemma get_responses_down question w :
  exists responses w',
    get_responses_from_chatbots question w = (Returned responses, w') /\
    dict_keys responses = dict_keys CHATBOT_APIS /\
    all_sentinel responses.
Proof using Hdown Hkeyed Hwf.
  destruct (get_responses_from_chatbots_unfold question w Hwf)
    as (vs & w' & Hrun & Hlen & Hin).
  set (responses := combine (dict_keys CHATBOT_APIS) vs) in *.
  assert (Hkeys : dict_keys responses = dict_keys CHATBOT_APIS)
    by (apply dict_keys_combine; exact Hlen).
  exists responses, w'. split; [exact Hrun|]. split; [exact Hkeys|].
  intros b r Hb.
  assert (Hwf' : dict_wf responses)
    by (unfold dict_wf; rewrite Hkeys; exact Hwf).
  assert (Hbk : In b (dict_keys CHATBOT_APIS))
    by (rewrite <- Hkeys; eapply in_dict_keys; eauto).
  destruct (in_dict_keys_inv _ _ Hbk) as (url & Hurl).
  destruct (Hin b url Hurl) as (wb & Hslot).
  destruct (@send_to_chatbot_down b url question wb Hbk) as (w1 & Hs).
  rewrite Hs in Hslot. cbn [fst slot_of] in Hslot.
  pose proof (in_dict_get _ _ Hwf' Hb) as H1.
  pose proof (in_dict_get _ _ Hwf' Hslot) as H2.
  congruence.
Qed.

Lemma sentinel_succeeded (d : dict pyval) b :
  dict_wf d -> all_sentinel d -> In b (dict_keys d) -> succeeded d b.
Proof.
  intros Hd Hall Hb. destruct (in_dict_keys_inv _ _ Hb) as (r & Hr).
  exists SENTINEL. rewrite <- (Hall b r Hr) at 1.
  apply in_dict_get; assumption.
Qed.

(** The peer evaluation of sentinel answers returns a table whose rows are
    not empty when there are two bots at least. *)
Lemma evaluate_responses_down (d : dict pyval) w :
  dict_wf d ->
  dict_keys d = dict_keys CHATBOT_APIS ->
  all_sentinel d ->
  (2 <= List.length d)%nat ->
  exists scores w',
    evaluate_responses d w = (Returned scores, w') /\
    dict_keys scores = dict_keys d /\
    forall b row,
      In (b, row) scores ->
      row <> [] /\ forall P, In P (dict_keys row) -> In P (dict_keys d).
Proof using Hdown Hkeyed.
  intros Hd Hkeys Hall Hlen.
  destruct (@evaluate_responses_returns d w Hd transport_down_caught)
    as (scores & w' & Hrun).
  { intros b r Hb _. rewrite (Hall b r Hb).
    assert (Hbk : In b (dict_keys CHATBOT_APIS))
      by (rewrite <- Hkeys; eapply in_dict_keys; eauto).
    split; [eexists; reflexivity|]. split.
    - apply Hkeyed, Hbk.
    - apply dict_get_key, Hbk. }
  exists scores, w'. split; [exact Hrun|].
  destruct (evaluate_responses_entries _ Hd Hrun) as [Hk Hent].
  split; [exact Hk|].
  intros b row Hb.
  assert (Hsc : dict_wf scores) by (unfold dict_wf; rewrite Hk; exact Hd).
  pose proof (in_dict_get _ _ Hsc Hb) as Hrow.
  assert (Hbd : In b (dict_keys d))
    by (rewrite <- Hk; eapply in_dict_keys; eauto).
  split.
  - destruct (@another_key (dict_keys d) b Hd) as (b' & Hb' & Hne);
      [unfold dict_keys; rewrite length_map; exact Hlen | exact Hbd |].
    assert (He : has_entry scores b b').
    { apply Hent. split; [congruence|].
      split; apply sentinel_succeeded; assumption. }
    destruct He as (row' & s & Hr' & Hs).
    assert (row' = row) by congruence. subst row'.
    intros ->. discriminate.
  - intros P HP. destruct (dict_get_key _ _ HP) as (s & Hs).
    assert (He : has_entry scores b P) by (exists row, s; auto).
    apply Hent in He. destruct He as (_ & _ & (j & Hj)).
    eapply dict_get_some_key; eauto.
Qed.

Lemma clarify_one_down (responses : dict pyval) bot row w :
  dict_wf responses ->
  dict_keys responses = dict_keys CHATBOT_APIS ->
  all_sentinel responses ->
  In bot (dict_keys CHATBOT_APIS) ->
  row <> [] ->
  (forall P, In P (dict_keys row) -> In P (dict_keys responses)) ->
  exists w', clarify_one responses bot row w = (Returned SENTINEL, w').
Proof using Hdown Hkeyed.
  intros Hd Hkeys Hall Hbot Hne Hsub.
  destruct (lowest_scored_in Hne) as (P & HP & HPin).
  destruct (@sentinel_succeeded responses P Hd Hall (Hsub P HPin)) as (j & Hj).
  assert (j = SENTINEL).
  { apply dict_get_in in Hj. apply Hall in Hj. congruence. }
  subst j.
  destruct (dict_get_key _ _ Hbot) as (url & Hurl).
  unfold clarify_one, bind, lift, dict_getitem.
  rewrite HP, Hj, Hurl.
  change (generate_clarification_question (Val SENTINEL))
    with (Returned (A := str)
            (lit "Can you provide more details about: Error processing request.")).
  apply send_to_chatbot_down. exact Hbot.
Qed.

Lemma clarify_loop_down (responses : dict pyval)
    (items : list (BotId * dict Z)) :
  (forall B row, In (B, row) items ->
     forall w, exists w',
       clarify_one responses B row w = (Returned SENTINEL, w')) ->
  forall acc w,
    NoDup (dict_keys acc ++ dict_keys items) ->
    exists w',
      clarify_loop responses items acc w =
      (Returned (acc ++ map (fun '(B, _) => (B, Val SENTINEL)) items), w').
Proof.
  induction items as [|[bot row0] rest IH]; intros Hone acc w Hnd.
  - exists w. cbn. unfold ret. now rewrite app_nil_r.
  - cbn [clarify_loop]. unfold bind at 1.
    destruct (Hone bot row0 (or_introl eq_refl) w) as (w1 & ->).
    rewrite dict_set_fresh.
    + destruct (IH (fun B row H => Hone B row (or_intror H))
                  (acc ++ [(bot, Val SENTINEL)]) w1) as (w' & ->).
      * rewrite dict_keys_app, <- app_assoc. exact Hnd.
      * exists w'. cbn [map]. now rewrite <- app_assoc.
    + intros Hin. simpl in Hnd. apply NoDup_remove_2 in Hnd. apply Hnd.
      apply in_or_app. now left.
Qed.

Lemma dict_keys_sentinels (scores : ScoreTable) :
  dict_keys (map (fun '(B, _) => (B, Val SENTINEL)) scores) =
  dict_keys scores.
Proof.
  unfold dict_keys. rewrite map_map. apply map_ext. now intros [B row].
Qed.

Lemma all_sentinel_sentinels (scores : ScoreTable) :
  all_sentinel (map (fun '(B, _) => (B, Val SENTINEL)) scores).
Proof.
  intros b r Hin. apply in_map_iff in Hin.
  destruct Hin as ([B row] & E & _). congruence.
Qed.

(** With two bots at least, all of them with a key, and a transport that
    fails every request with a ClientError, the orchestration goes through
    its five steps on sentinel answers and returns the sentinel answer. *)
Lemma interact_between_bots_down :
  (2 <= List.length CHATBOT_APIS)%nat ->
  forall initial_question w,
  exists w',
    interact_between_bots initial_question w = (Returned (Val SENTINEL), w').
Proof using Hdown Hkeyed Hwf.
  intros Htwo initial_question w.
  destruct (get_responses_down initial_question w)
    as (responses & w1 & Hrun & Hkeys & Hall).
  assert (Hd : dict_wf responses)
    by (unfold dict_wf; rewrite Hkeys; exact Hwf).
  assert (Hlen : (2 <= List.length responses)%nat).
  { rewrite <- (length_map fst responses).
    change (map fst responses) with (dict_keys responses).
    rewrite Hkeys. unfold dict_keys. now rewrite length_map. }
  destruct (evaluate_responses_down w1 Hd Hkeys Hall Hlen)
    as (scores & w2 & Hev & Hk & Hrows).
  assert (Hsc : dict_wf scores) by (unfold dict_wf; rewrite Hk; exact Hd).
  destruct (@clarify_loop_down responses scores) with (acc := @nil (BotId * pyval))
    (w := w2) as (w3 & Hcl).
  { intros B row HB w0.
    destruct (Hrows B row HB) as [Hne Hsub].
    apply clarify_one_down; try assumption.
    rewrite <- Hkeys, <- Hk. eapply in_dict_keys; eauto. }
  { exact Hsc. }
  simpl app in Hcl.
  set (clarifications := map (fun '(B, _) => (B, Val SENTINEL)) scores) in *.
  assert (Hck : dict_keys clarifications = dict_keys scores)
    by apply dict_keys_sentinels.
  assert (Hcs : all_sentinel clarifications)
    by apply all_sentinel_sentinels.
  assert (Hcd : dict_wf clarifications)
    by (unfold dict_wf; rewrite Hck; exact Hsc).
  assert (Hclen : (2 <= List.length clarifications)%nat)
    by (unfold clarifications; rewrite length_map;
        rewrite <- (length_map fst scores);
        change (map fst scores) with (dict_keys scores);
        rewrite Hk; unfold dict_keys; now rewrite length_map).
  destruct (@evaluate_responses_down clarifications w3 Hcd)
    as (final & w4 & Hfin & Hfk & Hfrows); try assumption.
  { congruence. }
  assert (Hfd : dict_wf final) by (unfold dict_wf; rewrite Hfk; exact Hcd).
  assert (Hfne : final <> []).
  { intros ->. apply (f_equal (@List.length _)) in Hfk.
    unfold dict_keys in Hfk. rewrite !length_map in Hfk.
    simpl in Hfk. lia. }
  destruct (@select_best_response_first_max clarifications final Hfd Hfne)
    as (pre & best & row & post & Hsplit & _ & _ & Hbest).
  { intros b row Hb. apply (Hfrows b row Hb). }
  { eapply evaluate_responses_scores_in_range. exact Hfin. }
  assert (Hbk : In best (dict_keys clarifications)).
  { rewrite <- Hfk, Hsplit, dict_keys_app. apply in_or_app.
    right. now left. }
  destruct (@sentinel_succeeded clarifications best Hcd Hcs Hbk) as (j & Hj).
  assert (j = SENTINEL).
  { apply dict_get_in in Hj. apply Hcs in Hj. congruence. }
  subst j.
  exists w4. unfold interact_between_bots.
  unfold bind at 1. rewrite Hrun.
  unfold bind at 1. rewrite Hev.
  unfold bind at 1. rewrite Hcl.
  unfold bind at 1. rewrite Hfin.
  unfold lift. rewrite Hbest. unfold dict_getitem. now rewrite Hj.
Qed.

End TransportDown.

(** ** Further properties of the clarification question *)

Lemma choices_0_text_raises v e :
  choices_0_text v = Raised e ->
  e = KeyError \/ e = IndexError \/ e = TypeError.
Proof.
  destruct v as [j|e0]; cbn.
  - apply json_text_raises.
  - intros H. inversion H. auto.
Qed.

(** X2: when the answer text contains a question mark, the question
    quotes the text from the character after the last full stop or
    exclamation mark that precedes the first question mark, up to that
    question mark. *)
Theorem generate_clarification_question_quotes_first :
  forall r (t : str),
    choices_0_text r = Returned (JStr t) ->
    In 63%N t ->
    exists pre run rest,
      t = pre ++ run ++ 63%N :: rest /\
      (forall c, In c pre -> is_qmark c = false) /\
      (pre = [] \/ exists p x, pre = p ++ [x] /\ not_terminator x = false) /\
      Forall (fun c => not_terminator c = true) run /\
      generate_clarification_question r =
      Returned (lit "Can you clarify the following: " ++ run ++ [63%N]).
Proof.
  intros r t Ht Hin.
  destruct (first_qmark t Hin) as (a & rest & -> & Ha).
  destruct (run_suffix a) as (pre & run & -> & Hrun & Hpre).
  assert (Hq : forall c, In c pre -> is_qmark c = false)
    by (intros c Hc; apply Ha, in_or_app; now left).
  exists pre, run, rest. rewrite <- app_assoc.
  split; [reflexivity|]. split; [exact Hq|]. split; [exact Hpre|].
  split; [exact Hrun|].
  rewrite <- app_assoc in Ht.
  unfold generate_clarification_question. rewrite Ht. cbn [rbind].
  unfold re_findall.
  destruct (findall_first unicode_isalnum None rest Hq Hpre Hrun)
    as (later & ->).
  reflexivity.
Qed.

(** X3: [generate_clarification_question] returns a question exactly when
    [response['choices'][0]['text']] exists and is a str; otherwise it
    raises KeyError, IndexError or TypeError. *)
Theorem generate_clarification_question_returns :
  forall r,
    ((exists question, generate_clarification_question r = Returned question)
     <-> exists t, choices_0_text r = Returned (JStr t)) /\
    (forall e, generate_clarification_question r = Raised e ->
               e = KeyError \/ e = IndexError \/ e = TypeError).
Proof.
  intros r. unfold generate_clarification_question.
  destruct (choices_0_text r) as [v|e0] eqn:E; cbn [rbind].
  - destruct v as [| | | |t| |];
      try (split;
           [split; [intros (q & Hq); discriminate
                   |intros (t & Ht); discriminate]
           |intros e He; inversion He; auto]).
    split.
    + split; [intros _; eauto|]. intros _.
      destruct (re_findall unicode_isalnum QUESTION_PATTERN t); eauto.
    + intros e He.
      destruct (re_findall unicode_isalnum QUESTION_PATTERN t);
        discriminate.
  - split.
    + split; [intros (q & Hq); discriminate|intros (t & Ht); discriminate].
    + intros e He. inversion He; subst.
      apply choices_0_text_raises in E. exact E.
Qed.

(** ** Further properties of the bot client and of the peer evaluation *)

(** X4: a failure of class [aiohttp.ClientError] becomes the sentinel
    answer, and no exception that leaves [send_to_chatbot] is of that
    class. *)
Theorem send_to_chatbot_client_errors :
  forall chatbot url question w,
    (forall api_key e w',
        dict_get API_KEYS chatbot = Some api_key ->
        transport w {| req_url := url;
                       req_authorization := bearer api_key;
                       req_prompt := question;
                       req_max_tokens := 150 |} = (Raised e, w') ->
        is_ClientError e = true ->
        send_to_chatbot chatbot url question w = (Returned SENTINEL, w')) /\
    (forall e w',
        send_to_chatbot chatbot url question w = (Raised e, w') ->
        is_ClientError e = false).
Proof.
  intros chatbot url question w. split.
  - intros api_key e w' Hk Ht He.
    rewrite send_to_chatbot_unfold, Hk, Ht, He. reflexivity.
  - intros e w' H. rewrite send_to_chatbot_unfold in H.
    destruct (dict_get API_KEYS chatbot) as [api_key|].
    + destruct (transport w _) as [[j|e0] w0]; [discriminate|].
      destruct (is_ClientError e0) eqn:He0; [discriminate|].
      inversion H; subst. exact He0.
    + inversion H. reflexivity.
Qed.

(** X5: no exception that leaves [evaluate_response] is of a class its
    [except] clause names: what it raises is a KeyError, an IndexError or a
    TypeError of a subscript, or an exception of the transport outside
    those classes. *)
Theorem evaluate_response_raises :
  forall evaluator_bot response w e w',
    evaluate_response evaluator_bot response w = (Raised e, w') ->
    caught_by_evaluate e = false.
Proof.
  intros evaluator_bot response w e w' H.
  rewrite evaluate_response_unfold in H.
  destruct (dict_get API_KEYS evaluator_bot) as [api_key|];
    [|inversion H; reflexivity].
  destruct (choices_0_text response) as [text|e0] eqn:Et.
  - destruct (dict_get CHATBOT_APIS evaluator_bot) as [url|];
      [|inversion H; reflexivity].
    destruct (transport w _) as [r w1].
    destruct (rbind r score_of_reply) as [z|e1]; [discriminate|].
    destruct (caught_by_evaluate e1) eqn:Ec; [discriminate|].
    inversion H; subst. exact Ec.
  - inversion H; subst. apply choices_0_text_raises in Et.
    destruct Et as [->|[->| ->]]; reflexivity.
Qed.

Lemma evaluate_inner_in_range b1 (items : list (BotId * pyval)) :
  forall scores w scores' w',
    evaluate_inner b1 items scores w = (Returned scores', w') ->
    (forall x row y z, dict_get scores x = Some row ->
                       dict_get row y = Some z -> (1 <= z <= 5)%Z) ->
    forall x row y z, dict_get scores' x = Some row ->
                      dict_get row y = Some z -> (1 <= z <= 5)%Z.
Proof.
  induction items as [|[b2 r2] rest IH]; intros scores w scores' w' Hrun Hin.
  - cbn in Hrun. inversion Hrun; subst. exact Hin.
  - cbn [evaluate_inner] in Hrun.
    destruct (negb (String.eqb b1 b2) && negb (is_exception r2))%bool.
    + unfold bind at 1 in Hrun.
      destruct (evaluate_response b1 r2 w) as [[s|e] w1] eqn:Es;
        [|discriminate].
      apply evaluate_response_in_range in Es.
      unfold bind at 1 in Hrun. unfold lift, table_set in Hrun.
      destruct (dict_get scores b1) as [row1|] eqn:Er; [|discriminate].
      apply (IH _ _ _ _ Hrun).
      intros x row y z Hx Hy. rewrite dict_get_set in Hx.
      destruct (String.eqb x b1) eqn:Exb.
      * inversion Hx; subst. rewrite dict_get_set in Hy.
        destruct (String.eqb y b2).
        -- inversion Hy; subst. exact Es.
        -- eapply Hin; eauto.
      * eapply Hin; eauto.
    + apply (IH _ _ _ _ Hrun). exact Hin.
Qed.

Lemma evaluate_outer_in_range (all items : list (BotId * pyval)) :
  forall scores w scores' w',
    evaluate_outer items all scores w = (Returned scores', w') ->
    (forall x row y z, dict_get scores x = Some row ->
                       dict_get row y = Some z -> (1 <= z <= 5)%Z) ->
    forall x row y z, dict_get scores' x = Some row ->
                      dict_get row y = Some z -> (1 <= z <= 5)%Z.
Proof.
  induction items as [|[b1 r1] rest IH]; intros scores w scores' w' Hrun Hin.
  - cbn in Hrun. inversion Hrun; subst. exact Hin.
  - cbn [evaluate_outer] in Hrun. destruct (is_exception r1).
    + apply (IH _ _ _ _ Hrun). exact Hin.
    + unfold bind at 1 in Hrun.
      destruct (evaluate_inner b1 all scores w) as [[scores1|e] w1] eqn:E1;
        [|discriminate].
      apply (IH _ _ _ _ Hrun).
      eapply evaluate_inner_in_range; eauto.
Qed.

Lemma empty_rows_all_empty (keys : list BotId) :
  forall acc,
    (forall x row, dict_get acc x = Some row -> row = []) ->
    forall x row, dict_get (empty_rows keys acc) x = Some row -> row = [].
Proof.
  induction keys as [|k keys IH]; intros acc Hacc; [exact Hacc|].
  cbn [empty_rows]. apply IH.
  intros x row Hx. rewrite dict_get_set in Hx.
  destruct (String.eqb x k); [congruence|eauto].
Qed.

(** X6: every score of the table [evaluate_responses] returns lies
    between 1 and 5. *)
Theorem evaluate_responses_in_range :
  forall responses w scores w',
    evaluate_responses responses w = (Returned scores, w') ->
    forall b1 row b2 z,
      dict_get scores b1 = Some row ->
      dict_get row b2 = Some z ->
      (1 <= z <= 5)%Z.
Proof.
  intros responses w scores w' Hrun. unfold evaluate_responses in Hrun.
  eapply evaluate_outer_in_range; [exact Hrun|].
  intros x row y z Hx Hy.
  apply empty_rows_all_empty in Hx; [|intros ? ? H; discriminate H].
  subst row. discriminate.
Qed.

(** ** The order of the subjects in a row *)

Lemma subjects_of_cons_scored b1 b2 r2 rest :
  (negb (String.eqb b1 b2) && negb (is_exception r2))%bool = true ->
  subjects_of b1 ((b2, r2) :: rest) = b2 :: subjects_of b1 rest.
Proof. intros H. unfold subjects_of. cbn [filter]. now rewrite H. Qed.

Lemma subjects_of_cons_skipped b1 b2 r2 rest :
  (negb (String.eqb b1 b2) && negb (is_exception r2))%bool = false ->
  subjects_of b1 ((b2, r2) :: rest) = subjects_of b1 rest.
Proof. intros H. unfold subjects_of. cbn [filter]. now rewrite H. Qed.

Lemma subjects_of_keys b1 items b :
  In b (subjects_of b1 items) -> In b (dict_keys items).
Proof.
  unfold subjects_of, dict_keys. intros H. apply in_map_iff in H.
  destruct H as (p & E & Hp). apply filter_In in Hp.
  apply in_map_iff. exists p. split; [exact E|apply Hp].
Qed.

Lemma subjects_of_nodup b1 (items : list (BotId * pyval)) :
  NoDup (dict_keys items) -> NoDup (subjects_of b1 items).
Proof.
  induction items as [|[b2 r2] rest IH]; intros Hnd; [constructor|].
  inversion Hnd as [|? ? Hnot Hnd']; subst.
  destruct (negb (String.eqb b1 b2) && negb (is_exception r2))%bool eqn:C.
  - rewrite subjects_of_cons_scored by exact C. constructor; [|auto].
    intros Hin. apply Hnot. eapply subjects_of_keys; eauto.
  - rewrite subjects_of_cons_skipped by exact C. auto.
Qed.

(** One turn of the inner loop appends the subjects of [b1] to its row, in
    the order of [items], and leaves the other rows alone. *)
Lemma evaluate_inner_row b1 (items : list (BotId * pyval)) :
  forall scores w scores' w' row,
    evaluate_inner b1 items scores w = (Returned scores', w') ->
    dict_get scores b1 = Some row ->
    NoDup (dict_keys row ++ dict_keys items) ->
    (exists row',
        dict_get scores' b1 = Some row' /\
        dict_keys row' = dict_keys row ++ subjects_of b1 items) /\
    (forall x, x <> b1 -> dict_get scores' x = dict_get scores x).
Proof.
  induction items as [|[b2 r2] rest IH];
    intros scores w scores' w' row Hrun Hrow Hnd.
  - cbn in Hrun. inversion Hrun; subst. split; [|reflexivity].
    exists row. split; [exact Hrow|]. unfold subjects_of. cbn.
    now rewrite app_nil_r.
  - cbn [evaluate_inner] in Hrun.
    assert (Hfresh : ~ In b2 (dict_keys row)).
    { intros Hin. cbn in Hnd. apply NoDup_remove_2 in Hnd. apply Hnd.
      apply in_or_app. now left. }
    assert (Hnd' : NoDup (dict_keys row ++ dict_keys rest))
      by (cbn in Hnd; apply NoDup_remove_1 in Hnd; exact Hnd).
    destruct (negb (String.eqb b1 b2) && negb (is_exception r2))%bool eqn:C.
    + unfold bind at 1 in Hrun.
      destruct (evaluate_response b1 r2 w) as [[z|e] w1]; [|discriminate].
      unfold bind at 1 in Hrun. unfold lift, table_set in Hrun.
      rewrite Hrow in Hrun.
      rewrite (@dict_set_fresh _ row b2 z Hfresh) in Hrun.
      destruct (IH _ _ _ _ (row ++ [(b2, z)]) Hrun) as [(row' & Hr' & Hk) Hoth].
      * rewrite dict_get_set, String.eqb_refl. reflexivity.
      * rewrite dict_keys_app, <- app_assoc. exact Hnd.
      * split.
        -- exists row'. split; [exact Hr'|].
           rewrite Hk, dict_keys_app, <- app_assoc.
           now rewrite subjects_of_cons_scored by exact C.
        -- intros x Hx. rewrite (Hoth x Hx), dict_get_set.
           destruct (String.eqb_spec x b1); [contradiction|reflexivity].
    + rewrite subjects_of_cons_skipped by exact C.
      eapply IH; eauto.
Qed.

(** The outer loop fills the rows of the evaluators of [items] and leaves
    the other rows alone. *)
Lemma evaluate_outer_rows (all items : list (BotId * pyval)) :
  NoDup (dict_keys all) ->
  forall scores w scores' w',
    evaluate_outer items all scores w = (Returned scores', w') ->
    NoDup (dict_keys items) ->
    (forall b r, In (b, r) items -> dict_get scores b = Some []) ->
    (forall b r, In (b, r) items ->
       exists row,
         dict_get scores' b = Some row /\
         dict_keys row =
           if is_exception r then [] else subjects_of b all) /\
    (forall x, ~ In x (dict_keys items) ->
               dict_get scores' x = dict_get scores x).
Proof.
  intros Hall.
  induction items as [|[b1 r1] rest IH];
    intros scores w scores' w' Hrun Hnd Hempty.
  - cbn in Hrun. inversion Hrun; subst. split; [intros ? ? []|reflexivity].
  - cbn [evaluate_outer] in Hrun.
    inversion Hnd as [|? ? Hnot Hnd']; subst.
    assert (Hb1 : dict_get scores b1 = Some [])
      by (apply (Hempty b1 r1); now left).
    destruct (is_exception r1) eqn:C.
    + destruct (IH _ _ _ _ Hrun Hnd') as [Hrows Hoth].
      { intros b r Hb. apply (Hempty b r). now right. }
      split.
      * intros b r [E|Hb].
        -- inversion E; subst. exists []. rewrite C.
           split; [|reflexivity]. now rewrite (Hoth b Hnot).
        -- apply Hrows. exact Hb.
      * intros x Hx. apply Hoth. intros Hin. apply Hx. now right.
    + unfold bind at 1 in Hrun.
      destruct (evaluate_inner b1 all scores w) as [[scores1|e] w1] eqn:E1;
        [|discriminate].
      destruct (evaluate_inner_row _ _ _ _ E1 Hb1) as [(row1 & Hr1 & Hk1) Hoth1];
        [exact Hall|].
      destruct (IH _ _ _ _ Hrun Hnd') as [Hrows Hoth].
      { intros b r Hb. rewrite Hoth1; [apply (Hempty b r); now right|].
        intros ->. apply Hnot. eapply in_dict_keys; eauto. }
      split.
      * intros b r [E|Hb].
        -- inversion E; subst. exists row1. rewrite C.
           split; [|exact Hk1]. now rewrite (Hoth b Hnot).
        -- apply Hrows. exact Hb.
      * intros x Hx. rewrite Hoth.
        -- apply Hoth1. intros ->. apply Hx. now left.
        -- intros Hin. apply Hx. now right.
Qed.

Lemma empty_rows_get (keys : list BotId) b :
  NoDup keys -> In b keys -> dict_get (empty_rows keys []) b = Some [].
Proof.
  intros Hnd Hin. rewrite empty_rows_fresh by exact Hnd. simpl app.
  apply in_dict_get.
  - unfold dict_wf, dict_keys. rewrite map_map. simpl. now rewrite map_id.
  - apply in_map_iff. exists b. auto.
Qed.

Lemma evaluate_responses_row_keys responses w scores w' :
  dict_wf responses ->
  evaluate_responses responses w = (Returned scores, w') ->
  forall b r,
    In (b, r) responses ->
    exists row,
      dict_get scores b = Some row /\
      dict_keys row =
        if is_exception r then [] else subjects_of b responses.
Proof.
  intros Hwf Hrun. unfold evaluate_responses in Hrun.
  apply evaluate_outer_rows in Hrun; try exact Hwf.
  - apply Hrun.
  - intros b r Hb. apply empty_rows_get; [exact Hwf|].
    eapply in_dict_keys; eauto.
Qed.

(** X7: in the table [evaluate_responses] returns, the row of a bot that
    answered lists the other bots that answered, in the order of
    [responses]; the rows are dictionaries (no key twice). This is the
    order in which [min] meets them when scores tie. *)
Theorem evaluate_responses_row_order :
  forall responses w scores w',
    dict_wf responses ->
    evaluate_responses responses w = (Returned scores, w') ->
    forall b r,
      In (b, r) responses ->
      exists row,
        dict_get scores b = Some row /\
        dict_wf row /\
        dict_keys row =
          if is_exception r then [] else subjects_of b responses.
Proof.
  intros responses w scores w' Hwf Hrun b r Hb.
  destruct (evaluate_responses_row_keys _ Hwf Hrun b r Hb) as (row & Hr & Hk).
  exists row. split; [exact Hr|]. split; [|exact Hk].
  unfold dict_wf. rewrite Hk. destruct (is_exception r); [constructor|].
  apply subjects_of_nodup. exact Hwf.
Qed.

(** ** Further properties of the orchestration *)

(** The row of a bot whose slot holds an exception is empty. *)
Lemma exception_row_empty responses w scores w' b e :
  dict_wf responses ->
  evaluate_responses responses w = (Returned scores, w') ->
  In (b, Exc e) responses ->
  In (b, []) scores.
Proof.
  intros Hwf Hrun Hb.
  destruct (evaluate_responses_row_keys _ Hwf Hrun b (Exc e) Hb)
    as (row & Hr & Hk).
  cbn in Hk. destruct row as [|[k z] row]; [|discriminate].
  apply dict_get_in. exact Hr.
Qed.

(** The clarification loop does not return when a row is empty. *)
Lemma clarify_loop_blocked responses (scores : ScoreTable) b w :
  dict_wf scores ->
  In (b, []) scores ->
  forall clarifications w',
    clarify_loop responses scores [] w <> (Returned clarifications, w').
Proof.
  intros Hwf Hb clarifications w' Hrun.
  apply clarify_loop_entries in Hrun; [|exact Hwf].
  destruct Hrun as (new & _ & _ & Hall).
  destruct (Hall b [] Hb) as (P & ? & ? & ? & ? & ? & HP & _).
  rewrite lowest_scored_empty in HP. discriminate.
Qed.

Lemma responses_of_run question w responses w1 :
  dict_wf CHATBOT_APIS ->
  get_responses_from_chatbots question w = (Returned responses, w1) ->
  dict_wf responses /\
  dict_keys responses = dict_keys CHATBOT_APIS /\
  forall chatbot url,
    In (chatbot, url) CHATBOT_APIS ->
    exists wb,
      In (chatbot, slot_of (fst (send_to_chatbot chatbot url question wb)))
         responses.
Proof.
  intros Hwf Hrun.
  destruct (get_responses_from_chatbots_unfold question w Hwf)
    as (vs & w' & Hrun' & Hlen & Hin).
  rewrite Hrun in Hrun'. inversion Hrun'; subst.
  assert (Hk : dict_keys (combine (dict_keys CHATBOT_APIS) vs) =
               dict_keys CHATBOT_APIS)
    by (apply dict_keys_combine; exact Hlen).
  split; [unfold dict_wf; rewrite Hk; exact Hwf|].
  split; [exact Hk|exact Hin].
Qed.

Lemma interact_blocked initial_question w responses w1 b e :
  dict_wf CHATBOT_APIS ->
  get_responses_from_chatbots initial_question w =
    (Returned responses, w1) ->
  In (b, Exc e) responses ->
  forall v w', interact_between_bots initial_question w <> (Returned v, w').
Proof.
  intros Hwf Hrun Hb v w' Hi.
  destruct (responses_of_run _ _ Hwf Hrun) as (Hwf' & _ & _).
  unfold interact_between_bots in Hi. unfold bind at 1 in Hi.
  rewrite Hrun in Hi. unfold bind at 1 in Hi.
  destruct (evaluate_responses responses w1) as [[scores|e1] w2] eqn:Ev;
    [|discriminate].
  unfold bind at 1 in Hi.
  destruct (clarify_loop responses scores [] w2) as [[clar|e2] w3] eqn:Ec;
    [|discriminate].
  apply (@clarify_loop_blocked responses scores b w2) in Ec; [exact Ec| |].
  - destruct (evaluate_responses_entries _ Hwf' Ev) as [Hk _].
    unfold dict_wf. rewrite Hk. exact Hwf'.
  - eapply exception_row_empty; eauto.
Qed.

(** X8: when the slot of some bot holds an exception after the initial
    round, [interact_between_bots] returns no answer: the run ends with an
    exception (the row of that bot is empty and [min] cannot be taken). *)
Theorem interact_between_bots_one_failure :
  dict_wf CHATBOT_APIS ->
  forall initial_question w responses w1 b e,
    get_responses_from_chatbots initial_question w =
      (Returned responses, w1) ->
    In (b, Exc e) responses ->
    exists e' w', interact_between_bots initial_question w = (Raised e', w').
Proof.
  intros Hwf initial_question w responses w1 b e Hrun Hb.
  destruct (interact_between_bots initial_question w) as [[v|e'] w'] eqn:Hi.
  - exfalso. eapply interact_blocked; eauto.
  - eauto.
Qed.

(** X9: when a configured bot has no API key, [interact_between_bots]
    returns no answer, whatever the transport does. *)
Theorem interact_between_bots_missing_key :
  dict_wf CHATBOT_APIS ->
  forall chatbot url,
    In (chatbot, url) CHATBOT_APIS ->
    dict_get API_KEYS chatbot = None ->
    forall initial_question w,
    exists e' w', interact_between_bots initial_question w = (Raised e', w').
Proof.
  intros Hwf chatbot url Hbot Hkey initial_question w.
  destruct (get_responses_from_chatbots_unfold initial_question w Hwf)
    as (vs & w1 & Hrun & _ & Hin).
  destruct (Hin chatbot url Hbot) as (wb & Hslot).
  rewrite send_to_chatbot_unfold, Hkey in Hslot. cbn in Hslot.
  destruct (interact_between_bots initial_question w) as [[v|e'] w'] eqn:Hi.
  - exfalso. eapply interact_blocked; eauto.
  - eauto.
Qed.

(** X10: with no bot or a single bot configured, [interact_between_bots]
    raises ValueError, whatever the transport answers: a single bot has
    no peer to score, and [min] is taken over its empty row. *)
Theorem interact_between_bots_needs_two_bots :
  (List.length CHATBOT_APIS <= 1)%nat ->
  forall initial_question w,
  exists w',
    interact_between_bots initial_question w = (Raised ValueError, w').
Proof.
  intros Hlen initial_question w.
  unfold interact_between_bots, get_responses_from_chatbots.
  destruct (at_most_one CHATBOT_APIS Hlen) as [E|([b url] & E)]; rewrite E.
  - exists w. reflexivity.
  - cbn [map dict_keys fst gather]. unfold bind at 1. unfold bind at 1.
    cbn [gather].
    destruct (send_to_chatbot b url initial_question w) as [r w1].
    exists w1. cbn. unfold evaluate_responses, bind. cbn.
    rewrite String.eqb_refl. cbn.
    destruct (is_exception (slot_of r)); reflexivity.
Qed.

(** X11: with two bots at least, all of them with a key, and a transport
    that fails every request with an [aiohttp.ClientError], the
    orchestration runs to its end on sentinel answers and returns the
    sentinel answer. *)
Theorem interact_between_bots_absorbs_client_errors :
  dict_wf CHATBOT_APIS ->
  (2 <= List.length CHATBOT_APIS)%nat ->
  (forall b, In b (dict_keys CHATBOT_APIS) ->
             exists api_key, dict_get API_KEYS b = Some api_key) ->
  (forall w rq, exists e w',
      transport w rq = (Raised e, w') /\ is_ClientError e = true) ->
  forall initial_question w,
  exists w',
    interact_between_bots initial_question w = (Returned (Val SENTINEL), w').
Proof.
  intros Hwf Htwo Hkeyed Hdown initial_question w.
  apply interact_between_bots_down; assumption.
Qed.

(** X12: the value [interact_between_bots] returns is never an initial
    answer nor an exception object: it is the sentinel answer or the body
    the transport returned to a clarification request, sent with the URL
    and the key of one configured bot. *)
Theorem interact_between_bots_returns_clarification :
  dict_wf CHATBOT_APIS ->
  forall initial_question w v w',
    interact_between_bots initial_question w = (Returned v, w') ->
    exists bot url api_key response question a,
      dict_get CHATBOT_APIS bot = Some url /\
      dict_get API_KEYS bot = Some api_key /\
      generate_clarification_question response = Returned question /\
      v = Val a /\
      (a = SENTINEL \/
       exists w0 w1,
         transport w0 {| req_url := url;
                         req_authorization := bearer api_key;
                         req_prompt := question;
                         req_max_tokens := 150 |} = (Returned a, w1)).
Proof.
  intros Hwf initial_question w v w' Hi.
  unfold interact_between_bots in Hi. unfold bind at 1 in Hi.
  destruct (get_responses_from_chatbots initial_question w)
    as [[responses|e0] w1] eqn:Hrun; [|discriminate].
  destruct (responses_of_run _ _ Hwf Hrun) as (Hwf' & _ & _).
  unfold bind at 1 in Hi.
  destruct (evaluate_responses responses w1) as [[scores|e1] w2] eqn:Ev;
    [|discriminate].
  assert (Hsc : dict_wf scores).
  { destruct (evaluate_responses_entries _ Hwf' Ev) as [Hk _].
    unfold dict_wf. rewrite Hk. exact Hwf'. }
  unfold bind at 1 in Hi.
  destruct (clarify_loop responses scores [] w2) as [[clar|e2] w3] eqn:Ec;
    [|discriminate].
  unfold bind at 1 in Hi.
  destruct (evaluate_responses clar w3) as [[final|e3] w4]; [|discriminate].
  unfold lift in Hi.
  destruct (select_best_response clar final) as [v0|e4] eqn:Es;
    [|discriminate].
  inversion Hi; subst v0 w4. clear Hi.
  apply select_best_response_member in Es. destruct Es as (best & Hbest).
  apply clarify_loop_entries in Ec; [|exact Hsc].
  destruct Ec as (new & -> & Hkeys & Hall). simpl app in Hbest.
  assert (Hnew : dict_wf new) by (unfold dict_wf; rewrite Hkeys; exact Hsc).
  assert (Hin : In best (dict_keys scores))
    by (rewrite <- Hkeys; eapply dict_get_some_key; eauto).
  destruct (in_dict_keys_inv _ _ Hin) as (row & Hrow).
  destruct (Hall best row Hrow)
    as (P & response & question & url & wB & a
        & _ & _ & Hq & Hurl & Hsend & Hmem).
  pose proof (in_dict_get _ _ Hnew Hmem) as Hget.
  assert (v = Val a) by congruence. subst v.
  rewrite send_to_chatbot_unfold in Hsend.
  destruct (dict_get API_KEYS best) as [api_key|] eqn:Hkey;
    [|discriminate].
  exists best, url, api_key, response, question, a.
  repeat split; try assumption; try reflexivity.
  destruct (transport wB _) as [[j|e] w0] eqn:Ht.
  - cbn in Hsend. inversion Hsend; subst. right. eauto.
  - destruct (is_ClientError e); cbn in Hsend; [|discriminate].
    inversion Hsend. now left.
Qed.

(** X13: white space around the text of the evaluator's reply does not
    change the outcome of the parsing (the score, or the AttributeError
    that makes the score 3). *)
Theorem score_of_reply_ignores_padding :
  (forall c, (128 <= c)%N -> is_space c = true -> unicode_isalnum c = false) ->
  forall (before t after : str) reply padded,
    Forall (fun c => is_space c = true) before ->
    Forall (fun c => is_space c = true) after ->
    json_text reply = Returned (JStr t) ->
    json_text padded = Returned (JStr (before ++ t ++ after)) ->
    score_of_reply padded = score_of_reply reply.
Proof.
  intros Hspace before t after reply padded Hb Ha Hr Hp.
  rewrite (@score_of_reply_text _ _ Hr), (@score_of_reply_text _ _ Hp).
  rewrite !(@first_standalone_strip _ Hspace).
  rewrite (@first_standalone_leading _ Hspace before None None)
    by (auto; reflexivity).
  now rewrite (@first_standalone_trailing _ Hspace).
Qed.

End CoroutineFacts.

(** * The requests a run sends

    The program at a transport that logs its requests: in this section the
    names of the coroutines stand for the coroutines at [logged transport],
    and a state is a pair of a state of [transport] and the log. *)

Lemma subjects_of_length b (items : list (BotId * pyval)) :
  NoDup (dict_keys items) ->
  (forall b' r, In (b', r) items -> is_exception r = false) ->
  List.length (subjects_of b items) =
  if in_dec string_dec b (dict_keys items)
  then pred (List.length items) else List.length items.
Proof.
  induction items as [|[b2 r2] rest IH]; intros Hnd Hok.
  - reflexivity.
  - inversion Hnd as [|? ? Hnot Hnd']; subst.
    assert (Hr2 : is_exception r2 = false) by (apply (Hok b2 r2); now left).
    assert (Hok' : forall b' r, In (b', r) rest -> is_exception r = false)
      by (intros b' r H; apply (Hok b' r); now right).
    specialize (IH Hnd' Hok').
    destruct (String.eqb_spec b b2) as [->|Hne].
    + rewrite subjects_of_cons_skipped
        by (rewrite String.eqb_refl; reflexivity).
      rewrite IH.
      destruct (in_dec string_dec b2 (dict_keys rest)); [contradiction|].
      destruct (in_dec string_dec b2 (dict_keys ((b2, r2) :: rest)))
        as [_|Hn]; [reflexivity|].
      exfalso. apply Hn. now left.
    + rewrite subjects_of_cons_scored.
      2:{ apply String.eqb_neq in Hne. rewrite Hne, Hr2. reflexivity. }
      cbn [List.length]. rewrite IH.
      destruct (in_dec string_dec b (dict_keys rest)) as [Hin|Hn].
      * destruct (in_dec string_dec b (dict_keys ((b2, r2) :: rest)))
          as [_|Hn']; [|exfalso; apply Hn'; now right].
        destruct rest; [destruct Hin|reflexivity].
      * destruct (in_dec string_dec b (dict_keys ((b2, r2) :: rest)))
          as [[E|Hin]|_]; [|contradiction|reflexivity].
        cbn in E. congruence.
Qed.

Lemma list_sum_const {A} (f : A -> nat) (l : list A) k :
  (forall x, In x l -> f x = k) ->
  list_sum (map f l) = (List.length l * k)%nat.
Proof.
  induction l as [|x l IH]; intros H; [reflexivity|].
  change (list_sum (map f (x :: l))) with (f x + list_sum (map f l))%nat.
  rewrite (H x) by now left. rewrite IH; [cbn; lia|].
  intros y Hy. apply H. now right.
Qed.

Section RequestLog.

Variable unicode_isalnum : char -> bool.
Variable py_str : json -> str.
Variable CHATBOT_APIS : dict str.
Variable API_KEYS : dict str.
Variable World : Type.
Variable transport : World -> request -> result json * World.

Local Abbreviation send_to_chatbot :=
  (send_to_chatbot API_KEYS (logged transport)).
Local Abbreviation get_responses_from_chatbots :=
  (get_responses_from_chatbots CHATBOT_APIS API_KEYS (logged transport)).
Local Abbreviation evaluate_response :=
  (evaluate_response unicode_isalnum py_str CHATBOT_APIS API_KEYS
     (logged transport)).
Local Abbreviation evaluate_inner :=
  (evaluate_inner unicode_isalnum py_str CHATBOT_APIS API_KEYS
     (logged transport)).
Local Abbreviation evaluate_outer :=
  (evaluate_outer unicode_isalnum py_str CHATBOT_APIS API_KEYS
     (logged transport)).
Local Abbreviation evaluate_responses :=
  (evaluate_responses unicode_isalnum py_str CHATBOT_APIS API_KEYS
     (logged transport)).
Local Abbreviation clarify_one :=
  (clarify_one unicode_isalnum CHATBOT_APIS API_KEYS (logged transport)).
Local Abbreviation clarify_loop :=
  (clarify_loop unicode_isalnum CHATBOT_APIS API_KEYS (logged transport)).
Local Abbreviation interact_between_bots :=
  (interact_between_bots unicode_isalnum py_str CHATBOT_APIS API_KEYS
     (logged transport)).

Lemma send_to_chatbot_log chatbot url question w log r w' log' :
  send_to_chatbot chatbot url question (w, log) = (r, (w', log')) ->
  log' = log ++ requests_of_send API_KEYS chatbot url question.
Proof.
  rewrite send_to_chatbot_unfold. unfold requests_of_send.
  destruct (dict_get API_KEYS chatbot) as [api_key|].
  - unfold logged. cbn [fst snd].
    destruct (transport w _) as [[j|e] w0].
    + intros H. inversion H. reflexivity.
    + destruct (is_ClientError e); intros H; inversion H; reflexivity.
  - intros H. inversion H. now rewrite app_nil_r.
Qed.

Lemma gather_log question (bots : dict str) : forall w log,
  exists vs w',
    gather
      (map (fun '(chatbot, url) => send_to_chatbot chatbot url question)
           bots) (w, log) =
    (Returned vs,
     (w', log ++ flat_map (fun '(chatbot, url) =>
                             requests_of_send API_KEYS chatbot url question)
                          bots)).
Proof.
  induction bots as [|[b url] bots IH]; intros w log.
  - exists [], w. cbn. unfold ret. now rewrite app_nil_r.
  - cbn [map gather flat_map].
    destruct (send_to_chatbot b url question (w, log)) as [r [w1 log1]] eqn:Es.
    apply send_to_chatbot_log in Es. subst log1.
    destruct (IH w1 (log ++ requests_of_send API_KEYS b url question))
      as (vs & w' & ->).
    exists (slot_of r :: vs), w'. now rewrite <- app_assoc.
Qed.

Lemma get_responses_log question w log :
  exists responses w',
    get_responses_from_chatbots question (w, log) =
    (Returned responses,
     (w', log ++ initial_requests CHATBOT_APIS API_KEYS question)).
Proof.
  unfold get_responses_from_chatbots, bind, ret.
  destruct (gather_log question CHATBOT_APIS w log) as (vs & w' & ->).
  eexists. exists w'. reflexivity.
Qed.

(** X14: the initial round always returns, and the requests it sends are,
    in some order, one request per configured bot that has an API key: to
    the URL of the bot, with its key, the question as its prompt and a
    limit of 150 tokens; a bot without a key sends nothing. *)
Theorem get_responses_from_chatbots_requests :
  forall question w log,
  exists responses w' sent,
    get_responses_from_chatbots question (w, log) =
    (Returned responses, (w', log ++ sent)) /\
    Permutation sent (initial_requests CHATBOT_APIS API_KEYS question).
Proof.
  intros question w log.
  destruct (get_responses_log question w log) as (responses & w' & Hrun).
  exists responses, w', (initial_requests CHATBOT_APIS API_KEYS question).
  split; [exact Hrun | apply Permutation_refl].
Qed.

Lemma evaluate_response_log evaluator_bot response w log z w' log' :
  evaluate_response evaluator_bot response (w, log) =
    (Returned z, (w', log')) ->
  List.length log' = S (List.length log).
Proof.
  rewrite evaluate_response_unfold.
  destruct (dict_get API_KEYS evaluator_bot) as [api_key|]; [|discriminate].
  destruct (choices_0_text response) as [text|e]; [|discriminate].
  destruct (dict_get CHATBOT_APIS evaluator_bot) as [url|]; [|discriminate].
  unfold logged. cbn [fst snd].
  destruct (transport w _) as [r w1].
  destruct (rbind r (score_of_reply unicode_isalnum)) as [z1|e1].
  - intros H. inversion H. rewrite length_app. cbn. lia.
  - destruct (caught_by_evaluate e1); intros H; inversion H.
    rewrite length_app. cbn. lia.
Qed.

Lemma evaluate_inner_log b1 (items : list (BotId * pyval)) :
  forall scores w log scores' w' log',
    evaluate_inner b1 items scores (w, log) =
      (Returned scores', (w', log')) ->
    List.length log' =
    (List.length log + List.length (subjects_of b1 items))%nat.
Proof.
  induction items as [|[b2 r2] rest IH];
    intros scores w log scores' w' log' Hrun.
  - cbn in Hrun. inversion Hrun. cbn. lia.
  - cbn [evaluate_inner] in Hrun.
    destruct (negb (String.eqb b1 b2) && negb (is_exception r2))%bool eqn:C.
    + rewrite subjects_of_cons_scored by exact C.
      unfold bind at 1 in Hrun.
      destruct (evaluate_response b1 r2 (w, log)) as [[z|e] [w1 log1]] eqn:Ez;
        [|discriminate].
      apply evaluate_response_log in Ez.
      unfold bind at 1 in Hrun. unfold lift in Hrun.
      destruct (table_set scores b1 b2 z) as [scores1|e]; [|discriminate].
      apply IH in Hrun. cbn [List.length]. lia.
    + rewrite subjects_of_cons_skipped by exact C.
      eapply IH; eauto.
Qed.

Lemma evaluate_outer_log (all items : list (BotId * pyval)) :
  forall scores w log scores' w' log',
    evaluate_outer items all scores (w, log) =
      (Returned scores', (w', log')) ->
    List.length log' =
    (List.length log +
     list_sum (map (fun '(b1, r1) =>
                      if is_exception r1 then O
                      else List.length (subjects_of b1 all)) items))%nat.
Proof.
  induction items as [|[b1 r1] rest IH];
    intros scores w log scores' w' log' Hrun.
  - cbn in Hrun. inversion Hrun. cbn. lia.
  - cbn [evaluate_outer] in Hrun. cbn [map].
    change (list_sum (?x :: ?l)) with (x + list_sum l)%nat.
    destruct (is_exception r1).
    + apply IH in Hrun. lia.
    + unfold bind at 1 in Hrun.
      destruct (evaluate_inner b1 all scores (w, log))
        as [[scores1|e] [w1 log1]] eqn:E1; [|discriminate].
      apply evaluate_inner_log in E1. apply IH in Hrun. lia.
Qed.

Lemma list_sum_keys {V} (d : dict V) (g : BotId * V -> nat)
    (f : BotId -> nat) :
  (forall b v, In (b, v) d -> g (b, v) = f b) ->
  list_sum (map g d) = list_sum (map f (dict_keys d)).
Proof.
  induction d as [|[b v] d IH]; intros H; [reflexivity|].
  cbn [map dict_keys fst].
  change (list_sum (?x :: ?l)) with (x + list_sum l)%nat.
  rewrite (H b v) by now left.
  f_equal. apply IH. intros b' v' Hin. apply H. now right.
Qed.

Lemma evaluate_responses_log responses w log scores w' log' :
  dict_wf responses ->
  evaluate_responses responses (w, log) = (Returned scores, (w', log')) ->
  List.length log' = (List.length log + count_scores scores)%nat.
Proof.
  intros Hwf Hrun.
  pose proof (@evaluate_responses_row_keys unicode_isalnum py_str
                CHATBOT_APIS API_KEYS _ (logged transport) responses
                (w, log) scores (w', log') Hwf Hrun) as Hrows.
  pose proof Hrun as Hkeys.
  apply evaluate_responses_entries in Hkeys; [|exact Hwf].
  destruct Hkeys as [Hkeys _].
  unfold evaluate_responses in Hrun. apply evaluate_outer_log in Hrun.
  rewrite Hrun. f_equal.
  set (f := fun b => match dict_get scores b with
                     | Some row => List.length row
                     | None => O
                     end).
  unfold count_scores.
  rewrite (@list_sum_keys _ scores _ f).
  - rewrite (@list_sum_keys _ responses _ f); [now rewrite Hkeys|].
    intros b r Hb. destruct (Hrows b r Hb) as (row & Hr & Hk).
    unfold f. rewrite Hr.
    rewrite <- (length_map fst row). change (map fst row) with (dict_keys row).
    rewrite Hk. destruct (is_exception r); reflexivity.
  - intros b row Hb. unfold f.
    rewrite (@in_dict_get _ scores b row); [reflexivity| |exact Hb].
    unfold dict_wf. rewrite Hkeys. exact Hwf.
Qed.

(** X15: when the peer evaluation returns, it has sent exactly one request
    per score of the table it returns. *)
Theorem evaluate_responses_requests :
  forall responses w log scores w' log',
    dict_wf responses ->
    evaluate_responses responses (w, log) =
      (Returned scores, (w', log')) ->
    List.length log' = (List.length log + count_scores scores)%nat.
Proof.
  intros responses w log scores w' log' Hwf Hrun.
  eapply evaluate_responses_log; eauto.
Qed.

Lemma clarify_one_log responses bot row w log a w' log' :
  clarify_one responses bot row (w, log) = (Returned a, (w', log')) ->
  List.length log' = S (List.length log).
Proof.
  intros H. apply clarify_one_unfold in H.
  destruct H as (P & response & question & url & _ & _ & _ & _ & Hs).
  pose proof (send_to_chatbot_log _ _ _ _ _ Hs) as Hlog.
  rewrite send_to_chatbot_unfold in Hs. unfold requests_of_send in Hlog.
  destruct (dict_get API_KEYS bot); [|discriminate].
  subst log'. rewrite length_app. cbn. lia.
Qed.

Lemma clarify_loop_log responses (items : list (BotId * dict Z)) :
  forall acc w log clarifications w' log',
    clarify_loop responses items acc (w, log) =
      (Returned clarifications, (w', log')) ->
    List.length log' = (List.length log + List.length items)%nat.
Proof.
  induction items as [|[bot row] rest IH];
    intros acc w log clarifications w' log' Hrun.
  - cbn in Hrun. inversion Hrun. cbn. lia.
  - cbn [clarify_loop] in Hrun. unfold bind at 1 in Hrun.
    destruct (clarify_one responses bot row (w, log))
      as [[a|e] [w1 log1]] eqn:E1; [|discriminate].
    apply clarify_one_log in E1. apply IH in Hrun. cbn [List.length]. lia.
Qed.

(** A table over slots that all hold an answer has a score for every
    ordered pair of distinct bots. *)
Lemma full_table_count responses st scores st' :
  dict_wf responses ->
  (forall b r, In (b, r) responses -> is_exception r = false) ->
  evaluate_responses responses st = (Returned scores, st') ->
  count_scores scores =
  (List.length responses * pred (List.length responses))%nat.
Proof.
  intros Hwf Hok Hrun.
  pose proof (@evaluate_responses_row_keys unicode_isalnum py_str
                CHATBOT_APIS API_KEYS _ (logged transport) responses
                st scores st' Hwf Hrun) as Hrows.
  pose proof Hrun as Hkeys.
  apply evaluate_responses_entries in Hkeys; [|exact Hwf].
  destruct Hkeys as [Hkeys _].
  assert (Hsc : dict_wf scores) by (unfold dict_wf; rewrite Hkeys; exact Hwf).
  unfold count_scores.
  rewrite (@list_sum_const _ _ scores (pred (List.length responses))).
  - f_equal. rewrite <- (length_map fst scores), <- (length_map fst responses).
    change (map fst scores) with (dict_keys scores). now rewrite Hkeys.
  - intros [b row] Hb.
    assert (Hin : In b (dict_keys responses))
      by (rewrite <- Hkeys; eapply in_dict_keys; eauto).
    destruct (in_dict_keys_inv _ _ Hin) as (r & Hr).
    destruct (Hrows b r Hr) as (row' & Hrow' & Hk).
    rewrite (in_dict_get _ _ Hsc Hb) in Hrow'. inversion Hrow'; subst row'.
    rewrite (Hok b r Hr) in Hk.
    rewrite <- (length_map fst row). change (map fst row) with (dict_keys row).
    rewrite Hk, (@subjects_of_length b responses Hwf Hok).
    destruct (in_dec string_dec b (dict_keys responses)); [reflexivity|].
    contradiction.
Qed.

Lemma initial_requests_length question :
  (forall chatbot url, In (chatbot, url) CHATBOT_APIS ->
                       dict_get API_KEYS chatbot <> None) ->
  List.length (initial_requests CHATBOT_APIS API_KEYS question) =
  List.length CHATBOT_APIS.
Proof.
  unfold initial_requests.
  induction CHATBOT_APIS as [|[b url] bots IH]; intros H; [reflexivity|].
  cbn [flat_map]. rewrite length_app, IH.
  - cbn [List.length]. unfold requests_of_send.
    destruct (dict_get API_KEYS b) eqn:E; [reflexivity|].
    exfalso. apply (H b url (or_introl eq_refl)). exact E.
  - intros c u Hc. apply (H c u). now right.
Qed.

(** X16: a run of [interact_between_bots] that returns an answer has sent
    exactly [2 * n * n] requests, for [n] configured bots: [n] in the
    initial round, [n * (n - 1)] in each of the two peer evaluations and
    [n] clarification requests. *)
Theorem interact_between_bots_requests :
  dict_wf CHATBOT_APIS ->
  forall initial_question w log v w' log',
    interact_between_bots initial_question (w, log) =
      (Returned v, (w', log')) ->
    List.length log' =
    (List.length log
     + 2 * List.length CHATBOT_APIS * List.length CHATBOT_APIS)%nat.
Proof.
  intros Hwf initial_question w log v w' log' Hi.
  pose proof Hi as Hi0.
  unfold interact_between_bots in Hi. unfold bind at 1 in Hi.
  destruct (get_responses_log initial_question w log)
    as (responses & w1 & Hrun).
  rewrite Hrun in Hi.
  destruct (@responses_of_run CHATBOT_APIS API_KEYS _ (logged transport)
              initial_question (w, log) responses _ Hwf Hrun)
    as (Hwf' & Hkeys & Hslots).
  assert (Hok : forall b r, In (b, r) responses -> is_exception r = false).
  { intros b [j|e] Hb; [reflexivity|]. exfalso.
    eapply (@interact_blocked unicode_isalnum py_str CHATBOT_APIS API_KEYS
              _ (logged transport)); eauto. }
  assert (Hkeyed : forall chatbot url, In (chatbot, url) CHATBOT_APIS ->
                                       dict_get API_KEYS chatbot <> None).
  { intros chatbot url Hc Hnone.
    destruct (Hslots chatbot url Hc) as (wb & Hslot).
    rewrite send_to_chatbot_unfold, Hnone in Hslot. cbn in Hslot.
    apply Hok in Hslot. discriminate. }
  set (n := List.length CHATBOT_APIS).
  assert (Hn : List.length responses = n).
  { rewrite <- (length_map fst responses).
    change (map fst responses) with (dict_keys responses).
    rewrite Hkeys. unfold dict_keys. now rewrite length_map. }
  unfold bind at 1 in Hi.
  destruct (evaluate_responses responses
              (w1, log ++ initial_requests CHATBOT_APIS API_KEYS
                            initial_question))
    as [[scores|e1] [w2 log2]] eqn:Ev; [|discriminate].
  pose proof (@evaluate_responses_log _ _ _ _ _ _ Hwf' Ev) as Hlog2.
  rewrite (@full_table_count _ _ _ _ Hwf' Hok Ev), Hn in Hlog2.
  rewrite length_app, (@initial_requests_length initial_question Hkeyed) in Hlog2.
  fold n in Hlog2.
  pose proof Ev as Hsk. apply evaluate_responses_entries in Hsk; [|exact Hwf'].
  destruct Hsk as [Hsk _].
  assert (Hsc : dict_wf scores) by (unfold dict_wf; rewrite Hsk; exact Hwf').
  assert (Hsn : List.length scores = n).
  { rewrite <- (length_map fst scores).
    change (map fst scores) with (dict_keys scores).
    rewrite Hsk. unfold dict_keys. now rewrite length_map. }
  unfold bind at 1 in Hi.
  destruct (clarify_loop responses scores [] (w2, log2))
    as [[clar|e2] [w3 log3]] eqn:Ec; [|discriminate].
  pose proof (@clarify_loop_log _ _ _ _ _ _ _ _ Ec) as Hlog3. rewrite Hsn in Hlog3.
  apply clarify_loop_entries in Ec; [|exact Hsc].
  destruct Ec as (new & -> & Hck & Hall). simpl app in Hi.
  assert (Hcd : dict_wf new) by (unfold dict_wf; rewrite Hck; exact Hsc).
  assert (Hcok : forall b r, In (b, r) new -> is_exception r = false).
  { intros b r Hb.
    assert (Hin : In b (dict_keys scores))
      by (rewrite <- Hck; eapply in_dict_keys; eauto).
    destruct (in_dict_keys_inv _ _ Hin) as (row & Hrow).
    destruct (Hall b row Hrow)
      as (? & ? & ? & ? & ? & a & _ & _ & _ & _ & _ & Hmem).
    pose proof (in_dict_get _ _ Hcd Hb) as H1.
    pose proof (in_dict_get _ _ Hcd Hmem) as H2.
    assert (r = Val a) by congruence. subst r. reflexivity. }
  assert (Hcn : List.length new = n).
  { rewrite <- (length_map fst new).
    change (map fst new) with (dict_keys new).
    rewrite Hck. unfold dict_keys. rewrite length_map. exact Hsn. }
  unfold bind at 1 in Hi.
  destruct (evaluate_responses new (w3, log3))
    as [[final|e3] [w4 log4]] eqn:Ef; [|discriminate].
  pose proof (@evaluate_responses_log _ _ _ _ _ _ Hcd Ef) as Hlog4.
  rewrite (@full_table_count _ _ _ _ Hcd Hcok Ef), Hcn in Hlog4.
  unfold lift in Hi.
  destruct (select_best_response new final); [|discriminate].
  inversion Hi; subst. rewrite Hlog4, Hlog3, Hlog2.
  destruct n; cbn [pred]; nia.
Qed.

End RequestLog.

(** * The sample configuration at work *)

Ltac solve_wf :=
  unfold dict_wf; cbn; repeat constructor; cbn; intuition discriminate.

Ltac solve_range :=
  let b := fresh "b" in
  let row := fresh "row" in
  let H := fresh "H" in
  let y := fresh "y" in
  let z := fresh "z" in
  let Hy := fresh "Hy" in
  intros b row H; cbn in H;
  repeat (destruct H as [H|H]; [injection H as ? ?; subst|]);
  try contradiction; intros y z Hy; cbn in Hy;
  repeat (destruct Hy as [Hy|Hy]; [injection Hy as ? ?; subst; lia|]);
  try contradiction.

Ltac each_member H :=
  cbn in H; repeat (destruct H as [H|H]; [try (injection H as ? ?); subst|]);
  try contradiction.

(** C1, as the specification states it, fails: bot C has no scored peer,
    and the selection raises ZeroDivisionError although A and B have
    averages. *)
Lemma select_best_response_unscored_bot :
  dict_get Sample.scores "C"%string = Some [] /\
  select_best_response Sample.candidates Sample.scores =
  Raised ZeroDivisionError.
Proof. split; reflexivity. Qed.

Lemma select_best_response_empty_row_witness :
  select_best_response Sample.candidates Sample.scores =
  Raised ZeroDivisionError.
Proof.
  apply (@select_best_response_empty_row
           Sample.candidates Sample.scores "C"%string).
  - solve_range.
  - reflexivity.
Defined.

(** C2, as the specification states it, fails: when no body of the initial
    round can be decoded, the orchestration raises ValueError. *)
Lemma interact_between_bots_unhandled_fault :
  interact_between_bots Sample.ascii_only Sample.py_str
    Sample.CHATBOT_APIS Sample.API_KEYS Sample.transport_undecodable
    (lit "Why is the sky blue?") tt =
  (Raised ValueError, tt).
Proof. vm_compute. reflexivity. Qed.

Lemma interact_between_bots_all_failed_witness :
  interact_between_bots Sample.ascii_only Sample.py_str
    Sample.CHATBOT_APIS Sample.API_KEYS Sample.transport_undecodable
    (lit "q") tt =
  (Raised ValueError, tt).
Proof.
  apply (@interact_between_bots_all_failed Sample.ascii_only Sample.py_str
           Sample.CHATBOT_APIS Sample.API_KEYS unit
           Sample.transport_undecodable)
    with (responses := Sample.all_failed).
  - solve_wf.
  - reflexivity.
  - discriminate.
  - intros b r H. each_member H; reflexivity.
Defined.

Lemma evaluate_responses_pairs_witness :
  (forall b, ~ has_entry Sample.scores b b) /\
  (forall b1 b2,
      has_entry Sample.scores b1 b2 <->
      b1 <> b2 /\ succeeded Sample.responses b1 /\
      succeeded Sample.responses b2).
Proof.
  destruct (@evaluate_responses_pairs Sample.ascii_only Sample.py_str
              Sample.CHATBOT_APIS Sample.API_KEYS unit Sample.transport_up
              Sample.responses tt) as [H _].
  - solve_wf.
  - apply (H Sample.scores tt). vm_compute. reflexivity.
Defined.

(** C4 fails on the code: a body that cannot be decoded makes
    [response.json()] raise [json.JSONDecodeError], which is not an
    [aiohttp.ClientError]; [send_to_chatbot] lets it through. *)
Theorem send_to_chatbot_undecodable_body :
  send_to_chatbot Sample.API_KEYS Sample.transport_undecodable
    "A"%string (lit "http://a.example/v1") (lit "Why is the sky blue?") tt =
  (Raised JSONDecodeError, tt).
Proof. reflexivity. Qed.

Lemma get_responses_from_chatbots_keys_witness :
  exists responses w',
    get_responses_from_chatbots Sample.CHATBOT_APIS Sample.API_KEYS
      Sample.transport_up (lit "q") tt = (Returned responses, w') /\
    dict_keys responses = ["A"%string; "B"%string; "C"%string].
Proof.
  destruct (@get_responses_from_chatbots_keys Sample.CHATBOT_APIS
              Sample.API_KEYS unit Sample.transport_up
              ltac:(solve_wf) (lit "q") tt)
    as (responses & w' & Hrun & Hkeys & _).
  exists responses, w'. split; [exact Hrun | exact Hkeys].
Defined.

(** C6, as the specification states it, fails: a reply without
    ['choices'] gives no score, the KeyError of the subscript leaves
    [evaluate_response]; so does the TimeoutError of a request that times
    out. *)
Lemma evaluate_response_no_default :
  evaluate_response Sample.ascii_only Sample.py_str Sample.CHATBOT_APIS
    Sample.API_KEYS Degraded.transport_empty_object "A"%string
    (Val (answer (lit "No idea."))) tt =
  (Raised KeyError, tt) /\
  evaluate_response Sample.ascii_only Sample.py_str Sample.CHATBOT_APIS
    Sample.API_KEYS Degraded.transport_timeout "A"%string
    (Val (answer (lit "No idea."))) tt =
  (Raised TimeoutError, tt).
Proof. split; vm_compute; reflexivity. Qed.

Lemma evaluate_response_score_witness :
  exists z,
    digit_value 52%N z /\
    evaluate_response Sample.ascii_only Sample.py_str Sample.CHATBOT_APIS
      Sample.API_KEYS Sample.transport_up "A"%string
      (Val (answer (lit "No idea."))) tt =
    (Returned z, tt).
Proof.
  destruct (@evaluate_response_score Sample.ascii_only Sample.py_str
              Sample.CHATBOT_APIS Sample.API_KEYS unit Sample.transport_up
              (fun _ _ _ => eq_refl) "A"%string
              (Val (answer (lit "No idea."))) tt) as [_ H].
  destruct (H (lit "key-a") (lit "http://a.example/v1")
              (JStr (lit "No idea.")) eq_refl eq_refl eq_refl) as [H1 _].
  destruct (H1 Sample.reply (lit "Maybe 4. Why not?") tt eq_refl eq_refl)
    as [H2 _].
  apply (H2 6%nat 52%N).
  - repeat split; reflexivity.
  - intros j d' Hj (Hn & Hd & _).
    do 6 (destruct j as [|j];
          [cbn in Hn; inversion Hn; subst; vm_compute in Hd; discriminate|]).
    lia.
Defined.

(** C7, as the specification states it, fails: the question keeps the
    blank that follows "It works." *)
Lemma generate_clarification_question_keeps_blank :
  generate_clarification_question Sample.ascii_only
    (Val (answer (lit "It works. Have you tried restarting?"))) =
  Returned (lit "Can you clarify the following:  Have you tried restarting?")
  /\
  generate_clarification_question Sample.ascii_only
    (Val (answer (lit "It works. Have you tried restarting?"))) <>
  Returned (lit "Can you clarify the following: Have you tried restarting?").
Proof. split; [vm_compute; reflexivity | vm_compute; discriminate]. Qed.

Lemma generate_clarification_question_spec_witness :
  generate_clarification_question Sample.ascii_only
    (Val (answer (lit "No idea."))) =
  Returned (lit "Can you provide more details about: No idea.").
Proof.
  destruct (generate_clarification_question_spec Sample.ascii_only)
    as (_ & _ & H).
  apply (H (Val (answer (lit "No idea."))) (lit "No idea.")).
  - reflexivity.
  - intros c Hc. each_member Hc; reflexivity.
Defined.

(** C8, as the specification states it, fails: C failed in the first
    round, its row in the first score table is empty, and the
    clarification loop raises ValueError after A and B were asked; no
    dictionary of clarifications comes out. *)
Lemma clarify_loop_unscored_evaluator :
  evaluate_responses Sample.ascii_only Sample.py_str Sample.CHATBOT_APIS
    Sample.API_KEYS Sample.transport_up Sample.responses tt =
  (Returned Sample.scores, tt) /\
  In ("C"%string, []) Sample.scores /\
  clarify_loop Sample.ascii_only Sample.CHATBOT_APIS Sample.API_KEYS
    Sample.transport_up Sample.responses Sample.scores [] tt =
  (Raised ValueError, tt).
Proof.
  split; [vm_compute; reflexivity|].
  split; [right; right; left; reflexivity|].
  vm_compute. reflexivity.
Qed.

Lemma clarify_loop_asks_evaluator_witness :
  exists clarifications w',
    clarify_loop Sample.ascii_only Sample.CHATBOT_APIS Sample.API_KEYS
      Sample.transport_up Trio.responses Trio.scores [] tt =
    (Returned clarifications, w') /\
    dict_keys clarifications = dict_keys Trio.scores /\
    forall B row,
      In (B, row) Trio.scores ->
      exists pre P z post response t question url api_key wB wB' a,
        row = pre ++ (P, z) :: post /\
        (forall b s, In (b, s) pre -> (z < s)%Z) /\
        (forall b s, In (b, s) post -> (z <= s)%Z) /\
        dict_get Trio.responses P = Some response /\
        choices_0_text response = Returned (JStr t) /\
        clarifies t question /\
        dict_get Sample.CHATBOT_APIS B = Some url /\
        dict_get Sample.API_KEYS B = Some api_key /\
        dict_get clarifications B = Some (Val a) /\
        (Sample.transport_up wB {| req_url := url;
                                   req_authorization := bearer api_key;
                                   req_prompt := question;
                                   req_max_tokens := 150 |} =
           (Returned a, wB') \/
         (exists e,
             Sample.transport_up wB {| req_url := url;
                                       req_authorization := bearer api_key;
                                       req_prompt := question;
                                       req_max_tokens := 150 |} =
               (Raised e, wB')
             /\ a = SENTINEL)).
Proof.
  destruct (@clarify_loop_asks_evaluator Sample.ascii_only
              Sample.CHATBOT_APIS Sample.API_KEYS unit Sample.transport_up
              Trio.responses Trio.scores tt) as [H _].
  - solve_wf.
  - intros B row H. each_member H;
      (split; [solve_wf | split; [|split; eexists; reflexivity]]);
      intros P HP; each_member HP; eexists; eexists; split; reflexivity.
  - intros w0 rq e He. discriminate He.
  - apply H. intros B row HB. each_member HB; discriminate.
Defined.

(** C9, as the specification states it, fails: with no bot in the table
    there is nothing to choose and [max] raises ValueError; when the bot of
    greatest mean has no candidate, the subscript raises KeyError. *)
Lemma select_best_response_nothing_chosen :
  select_best_response Trio.clarifications [] = Raised ValueError /\
  select_best_response [("C"%string, Val SENTINEL)] Trio.final_scores =
  Raised KeyError.
Proof. split; vm_compute; reflexivity. Qed.

(** The quotient is a float. Means that the floats cannot tell apart are a
    tie, which the first bot wins although the mean of the second is
    greater; and a quotient beyond the range of the floats raises
    OverflowError, here before the empty row is met. *)
Example select_best_response_rounds :
  (arithmetic_mean [("B"%string, 2 ^ 53)%Z]
   < arithmetic_mean [("A"%string, 2 ^ 53 + 1)%Z])%Q /\
  select_best_response Trio.clarifications
    [("A"%string, [("B"%string, 2 ^ 53)%Z]);
     ("B"%string, [("A"%string, 2 ^ 53 + 1)%Z])] =
  Returned (Val (answer (lit "Yes, the cable is in."))).
Proof. split; vm_compute; reflexivity. Qed.

Example select_best_response_overflow :
  select_best_response Trio.clarifications
    [("A"%string, [("B"%string, 10 ^ 400)%Z]); ("C"%string, [])] =
  Raised OverflowError.
Proof. vm_compute. reflexivity. Qed.

Lemma select_best_response_max_mean_witness :
  exists pre best row post answer,
    Trio.final_scores = pre ++ (best, row) :: post /\
    (forall b r, In (b, r) pre ->
       (arithmetic_mean r < arithmetic_mean row)%Q) /\
    (forall b r, In (b, r) post ->
       (arithmetic_mean r <= arithmetic_mean row)%Q) /\
    dict_get Trio.clarifications best = Some answer /\
    select_best_response Trio.clarifications Trio.final_scores =
      Returned answer.
Proof.
  apply (@select_best_response_max_mean Trio.clarifications
           Trio.final_scores).
  - solve_wf.
  - discriminate.
  - intros b row H. each_member H;
      (split; [discriminate | split; [|cbv; discriminate]]);
      intros y z Hy; each_member Hy; lia.
  - intros b H. exact H.
Defined.

Lemma evaluate_responses_rows_witness :
  dict_keys Sample.scores = dict_keys Sample.responses /\
  (forall b r, dict_get Sample.responses b = Some r ->
               exists row, dict_get Sample.scores b = Some row) /\
  (forall b e, dict_get Sample.responses b = Some (Exc e) ->
               dict_get Sample.scores b = Some []).
Proof.
  destruct (@evaluate_responses_rows Sample.ascii_only Sample.py_str
              Sample.CHATBOT_APIS Sample.API_KEYS unit Sample.transport_up
              Sample.responses tt) as [H _].
  - solve_wf.
  - apply (H Sample.scores tt). vm_compute. reflexivity.
Defined.

(** When the three backends are down, the orchestration returns the
    sentinel answer as the best answer. *)
Example interact_between_bots_down_sample :
  interact_between_bots Sample.ascii_only Sample.py_str
    Sample.CHATBOT_APIS Sample.API_KEYS Sample.transport_down
    (lit "Why is the sky blue?") tt =
  (Returned (Val SENTINEL), tt).
Proof.
  destruct (@interact_between_bots_down Sample.ascii_only Sample.py_str
              Sample.CHATBOT_APIS Sample.API_KEYS unit Sample.transport_down)
    with (initial_question := lit "Why is the sky blue?") (w := tt)
    as ([] & H).
  - intros w rq. exists ClientError, tt. split; reflexivity.
  - intros b Hb. each_member Hb; eexists; reflexivity.
  - solve_wf.
  - cbn. lia.
  - exact H.
Qed.

(** A reply without a digit from 1 to 5 scores 3. *)
Example evaluate_response_no_digit :
  evaluate_response Sample.ascii_only Sample.py_str Sample.CHATBOT_APIS
    Sample.API_KEYS
    (fun (w : unit) (rq : request) =>
       (Returned (answer (lit "Rated 45 of 100, i.e. 7/10.")), tt))
    "B"%string (Val (answer (lit "No idea."))) tt =
  (Returned 3%Z, tt).
Proof. vm_compute. reflexivity. Qed.

(** ** The further properties at work *)

Lemma select_best_response_outcomes_witness :
  select_best_response Sample.candidates Sample.scores =
    Raised ZeroDivisionError /\
  exists best,
    In best (dict_keys Trio.final_scores) /\
    dict_get Trio.clarifications best =
      Some (Val (answer (lit "Yes, the cable is in."))).
Proof.
  split.
  - destruct (@select_best_response_outcomes Sample.candidates Sample.scores)
      as (_ & H & _).
    + solve_wf.
    + apply H; [solve_range|]. exists "C"%string. reflexivity.
  - destruct (@select_best_response_outcomes Trio.clarifications
                Trio.final_scores) as (_ & _ & _ & H).
    + solve_wf.
    + apply (H (Val (answer (lit "Yes, the cable is in.")))).
      vm_compute. reflexivity.
Defined.

Lemma generate_clarification_question_quotes_first_witness :
  exists pre run rest,
    lit "It works. Have you tried restarting?" = pre ++ run ++ 63%N :: rest /\
    (forall c, In c pre -> is_qmark c = false) /\
    (pre = [] \/ exists p x, pre = p ++ [x] /\ not_terminator x = false) /\
    Forall (fun c => not_terminator c = true) run /\
    generate_clarification_question Sample.ascii_only
      (Val (answer (lit "It works. Have you tried restarting?"))) =
    Returned (lit "Can you clarify the following: " ++ run ++ [63%N]).
Proof.
  apply (@generate_clarification_question_quotes_first Sample.ascii_only
           (Val (answer (lit "It works. Have you tried restarting?")))
           (lit "It works. Have you tried restarting?")).
  - reflexivity.
  - apply in_rev. vm_compute. left. reflexivity.
Defined.

Lemma generate_clarification_question_returns_witness :
  (exists question,
      generate_clarification_question Sample.ascii_only
        (Val (answer (lit "No idea."))) = Returned question) /\
  generate_clarification_question Sample.ascii_only (Exc JSONDecodeError)
  <> Raised ValueError.
Proof.
  split.
  - destruct (generate_clarification_question_returns Sample.ascii_only
                (Val (answer (lit "No idea.")))) as [[_ H] _].
    apply H. exists (lit "No idea."). reflexivity.
  - destruct (generate_clarification_question_returns Sample.ascii_only
                (Exc JSONDecodeError)) as [_ H].
    intros E. destruct (H ValueError E) as [D|[D|D]]; discriminate D.
Defined.

Lemma send_to_chatbot_client_errors_witness :
  send_to_chatbot Sample.API_KEYS Sample.transport_down
    "A"%string (lit "http://a.example/v1") (lit "q") tt =
  (Returned SENTINEL, tt) /\
  send_to_chatbot Sample.API_KEYS Degraded.transport_timeout
    "A"%string (lit "http://a.example/v1") (lit "q") tt =
  (Raised TimeoutError, tt) /\
  is_ClientError TimeoutError = false.
Proof.
  split; [|split; [reflexivity|]].
  - destruct (send_to_chatbot_client_errors Sample.API_KEYS
                Sample.transport_down "A"%string (lit "http://a.example/v1")
                (lit "q") tt) as [H _].
    apply (H (lit "key-a") ClientError tt); reflexivity.
  - destruct (send_to_chatbot_client_errors Sample.API_KEYS
                Degraded.transport_timeout "A"%string
                (lit "http://a.example/v1") (lit "q") tt) as [_ H].
    apply (H TimeoutError tt). reflexivity.
Defined.

Lemma evaluate_response_raises_witness :
  evaluate_response Sample.ascii_only Sample.py_str Sample.CHATBOT_APIS
    Sample.API_KEYS Degraded.transport_timeout "A"%string
    (Val (answer (lit "No idea."))) tt = (Raised TimeoutError, tt) /\
  caught_by_evaluate TimeoutError = false.
Proof.
  split; [reflexivity|].
  apply (@evaluate_response_raises Sample.ascii_only Sample.py_str
           Sample.CHATBOT_APIS Sample.API_KEYS unit
           Degraded.transport_timeout "A"%string
           (Val (answer (lit "No idea."))) tt TimeoutError tt).
  reflexivity.
Defined.

Lemma evaluate_responses_in_range_witness :
  evaluate_responses Sample.ascii_only Sample.py_str Sample.CHATBOT_APIS
    Sample.API_KEYS Sample.transport_up Sample.responses tt =
  (Returned Sample.scores, tt) /\
  (1 <= 4 <= 5)%Z.
Proof.
  split; [vm_compute; reflexivity|].
  apply (@evaluate_responses_in_range Sample.ascii_only Sample.py_str
           Sample.CHATBOT_APIS Sample.API_KEYS unit Sample.transport_up
           Sample.responses tt Sample.scores tt)
    with (b1 := "A"%string) (row := [("B"%string, 4%Z)]) (b2 := "B"%string).
  - vm_compute. reflexivity.
  - reflexivity.
  - reflexivity.
Defined.

Lemma evaluate_responses_row_order_witness :
  exists row,
    dict_get Sample.scores "A"%string = Some row /\
    dict_wf row /\
    dict_keys row = ["B"%string].
Proof.
  apply (@evaluate_responses_row_order Sample.ascii_only Sample.py_str
           Sample.CHATBOT_APIS Sample.API_KEYS unit Sample.transport_up
           Sample.responses tt Sample.scores tt)
    with (r := Val (answer (lit "It works. Have you tried restarting?"))).
  - solve_wf.
  - vm_compute. reflexivity.
  - left. reflexivity.
Defined.

Lemma interact_between_bots_one_failure_witness :
  exists e' w',
    interact_between_bots Sample.ascii_only Sample.py_str
      Sample.CHATBOT_APIS Sample.API_KEYS Degraded.transport_c_undecodable
      (lit "q") tt = (Raised e', w').
Proof.
  apply (@interact_between_bots_one_failure Sample.ascii_only Sample.py_str
           Sample.CHATBOT_APIS Sample.API_KEYS unit
           Degraded.transport_c_undecodable)
    with (responses := [("A"%string, Val Sample.reply);
                        ("B"%string, Val Sample.reply);
                        ("C"%string, Exc JSONDecodeError)])
         (w1 := tt) (b := "C"%string) (e := JSONDecodeError).
  - solve_wf.
  - vm_compute. reflexivity.
  - right. right. left. reflexivity.
Defined.

Lemma interact_between_bots_missing_key_witness :
  exists e' w',
    interact_between_bots Sample.ascii_only Sample.py_str
      Sample.CHATBOT_APIS Degraded.KEYS_AB Sample.transport_up
      (lit "q") tt = (Raised e', w').
Proof.
  apply (@interact_between_bots_missing_key Sample.ascii_only Sample.py_str
           Sample.CHATBOT_APIS Degraded.KEYS_AB unit Sample.transport_up)
    with (chatbot := "C"%string) (url := lit "http://c.example/v1").
  - solve_wf.
  - right. right. left. reflexivity.
  - reflexivity.
Defined.

Lemma interact_between_bots_needs_two_bots_witness :
  exists w',
    interact_between_bots Sample.ascii_only Sample.py_str
      Degraded.ONE_BOT Sample.API_KEYS Sample.transport_up
      (lit "q") tt = (Raised ValueError, w').
Proof.
  apply (@interact_between_bots_needs_two_bots Sample.ascii_only
           Sample.py_str Degraded.ONE_BOT Sample.API_KEYS unit
           Sample.transport_up).
  cbn. lia.
Defined.

Lemma interact_between_bots_absorbs_client_errors_witness :
  exists w',
    interact_between_bots Sample.ascii_only Sample.py_str
      Sample.CHATBOT_APIS Sample.API_KEYS Sample.transport_down
      (lit "q") tt = (Returned (Val SENTINEL), w').
Proof.
  apply (@interact_between_bots_absorbs_client_errors Sample.ascii_only
           Sample.py_str Sample.CHATBOT_APIS Sample.API_KEYS unit
           Sample.transport_down).
  - solve_wf.
  - cbn. lia.
  - intros b Hb. each_member Hb; eexists; reflexivity.
  - intros w rq. exists ClientError, tt. split; reflexivity.
Defined.

Lemma interact_between_bots_returns_clarification_witness :
  exists bot url api_key response question a,
    dict_get Sample.CHATBOT_APIS bot = Some url /\
    dict_get Sample.API_KEYS bot = Some api_key /\
    generate_clarification_question Sample.ascii_only response =
      Returned question /\
    Val Sample.reply = Val a /\
    (a = SENTINEL \/
     exists w0 w1,
       Sample.transport_up w0 {| req_url := url;
                                 req_authorization := bearer api_key;
                                 req_prompt := question;
                                 req_max_tokens := 150 |} = (Returned a, w1)).
Proof.
  apply (@interact_between_bots_returns_clarification Sample.ascii_only
           Sample.py_str Sample.CHATBOT_APIS Sample.API_KEYS unit
           Sample.transport_up)
    with (initial_question := lit "q") (w := tt) (w' := tt).
  - solve_wf.
  - vm_compute. reflexivity.
Defined.

Lemma score_of_reply_ignores_padding_witness :
  score_of_reply Sample.ascii_only
    (answer ([32%N] ++ lit "Maybe 4." ++ [10%N])) =
  score_of_reply Sample.ascii_only (answer (lit "Maybe 4.")).
Proof.
  apply (@score_of_reply_ignores_padding Sample.ascii_only)
    with (before := [32%N]) (t := lit "Maybe 4.") (after := [10%N]).
  - reflexivity.
  - repeat constructor.
  - repeat constructor.
  - reflexivity.
  - reflexivity.
Defined.

Lemma evaluate_responses_requests_witness :
  exists log',
    evaluate_responses Sample.ascii_only Sample.py_str Sample.CHATBOT_APIS
      Sample.API_KEYS (logged Sample.transport_up) Sample.responses
      (tt, []) = (Returned Sample.scores, (tt, log')) /\
    List.length log' = 2%nat.
Proof.
  eexists. split.
  - vm_compute. reflexivity.
  - apply (@evaluate_responses_requests Sample.ascii_only Sample.py_str
             Sample.CHATBOT_APIS Sample.API_KEYS unit Sample.transport_up
             Sample.responses tt [] Sample.scores tt).
    + solve_wf.
    + vm_compute. reflexivity.
Defined.

Lemma interact_between_bots_requests_witness :
  exists log',
    interact_between_bots Sample.ascii_only Sample.py_str
      Sample.CHATBOT_APIS Sample.API_KEYS (logged Sample.transport_up)
      (lit "q") (tt, []) = (Returned (Val Sample.reply), (tt, log')) /\
    List.length log' = 18%nat.
Proof.
  eexists. split.
  - vm_compute. reflexivity.
  - apply (@interact_between_bots_requests Sample.ascii_only Sample.py_str
             Sample.CHATBOT_APIS Sample.API_KEYS unit Sample.transport_up)
      with (initial_question := lit "q") (w := tt) (log := @nil request)
           (w' := tt) (v := Val Sample.reply).
    + solve_wf.
    + vm_compute. reflexivity.
Defined.
